(** * SEIR model fitted by MCMC: a shallow embedding of [seir_model.py]

    The development follows the Python source function by function.

    Conventions of the embedding.
    - numpy integer arrays (daily counts [B], [C], [D_mild], [D_wild], [N],
      [S], [E], [I_mild], [I_wild]) are [list Z]; the counts are bounded by
      the population, far below the machine word, so their arithmetic is the
      arithmetic of [Z].
    - numpy float arrays and Python floats are [list R] and [R]: floating
      point is idealised as real arithmetic ([np.exp] is [exp], [np.log] is
      [ln], [np.floor] is [Zfloor]).  Infinities have no counterpart, and
      [nan] only where the code tests for it: the [nan] that scipy returns
      outside the domain of a distribution makes the [assert not np.isnan]
      of [sample_params] fail.  Divisions are only meaningful for a
      non-zero divisor.
    - a Python exception (a failed [assert], a numpy shape or index error) is
      the [None] of the monad [M].
    - the pseudo-random generator is an oracle read through a call counter,
      so every theorem quantifies over all the values the generator can
      return.
    - [scipy.stats] is not part of the repository: its binomial pmf and gamma
      pdf are parameters of the samplers.
    - the susceptible series [S] of the source is written [S_], [S] being
      the successor of [nat]. *)

From Stdlib Require Import ZArith List Reals Lra Lia Bool Arith.
Import ListNotations.

Set Implicit Arguments.

(** ** The generator and the monad of sampling code *)

Record Oracle : Type := mkOracle {
  o_choice : nat -> list nat;  (* raw draws behind one [np.random.choice] *)
  o_bit : nat -> bool;         (* [np.random.binomial(1, 0.5)] *)
  o_unif : nat -> R;           (* [np.random.uniform(0, 1)] *)
  o_gauss : nat -> nat -> R    (* standard normal draws of one [np.random.normal] *)
}.

(** A computation reads the oracle, advances the call counter and may raise. *)
Definition M (A : Type) : Type := Oracle -> nat -> option (A * nat).

Definition ret {A} (a : A) : M A := fun _ n => Some (a, n).

Definition bind {A B} (m : M A) (f : A -> M B) : M B :=
  fun o n => match m o n with
             | Some (a, n') => f a o n'
             | None => None
             end.

Definition raise {A} : M A := fun _ _ => None.

Definition lift {A} (r : option A) : M A :=
  fun _ n => match r with Some a => Some (a, n) | None => None end.

Definition assert_ (b : bool) : M unit := if b then ret tt else raise.

Declare Scope seir_scope.
Delimit Scope seir_scope with seir.
Notation "x <- c1 ;; c2" := (bind c1 (fun x => c2))
  (at level 61, c1 at next level, right associativity) : seir_scope.
Notation "' pat <- c1 ;; c2" := (bind c1 (fun x => match x with pat => c2 end))
  (at level 61, pat pattern, c1 at next level, right associativity) : seir_scope.
Open Scope seir_scope.

Definition draw_bit : M bool := fun o n => Some (o_bit o n, S n).
Definition draw_unif : M R := fun o n => Some (o_unif o n, S n).

(** Removal of the element at a position. *)
Fixpoint remove_at {A} (i : nat) (l : list A) : list A :=
  match l, i with
  | [], _ => []
  | _ :: t, O => t
  | h :: t, S j => h :: remove_at j t
  end.

(** [size] successive picks without replacement from [pop], the raw draws
    [rs] choosing the position of each pick among what is left.  Every
    arrangement of [size] distinct positions of [pop] is the result of some
    [rs], and nothing else is. *)
Fixpoint pick {A} (d : A) (pop : list A) (rs : list nat) (size : nat) : list A :=
  match size with
  | O => []
  | S k =>
      let i := (hd O rs) mod (length pop) in
      nth i pop d :: pick d (remove_at i pop) (tl rs) k
  end.

(** [np.random.choice(pop, size, replace=False)]: a [ValueError] when more
    samples are asked than the population holds. *)
Definition choice (pop : list nat) (size : nat) : M (list nat) :=
  fun o n =>
    if Nat.ltb (length pop) size then None
    else Some (pick O pop (o_choice o n) size, S n).

(** ** numpy arrays *)

(** Elementwise binary operation on one-dimensional arrays, with numpy's
    broadcasting of an array of length one; other shape mismatches raise. *)
Fixpoint zipw {A B C} (f : A -> B -> C) (a : list A) (b : list B) : list C :=
  match a, b with
  | x :: a', y :: b' => f x y :: zipw f a' b'
  | _, _ => []
  end.

Definition np_zip {A B C} (f : A -> B -> C) (a : list A) (b : list B)
  : option (list C) :=
  if Nat.eqb (length a) (length b) then Some (zipw f a b)
  else match a, b with
       | [x], _ => Some (map (f x) b)
       | _, [y] => Some (map (fun x => f x y) a)
       | _, _ => None
       end.

Definition opt_bind {A B} (r : option A) (f : A -> option B) : option B :=
  match r with Some a => f a | None => None end.

(** [np.cumsum]. *)
Fixpoint cumsum_from (acc : Z) (l : list Z) : list Z :=
  match l with
  | [] => []
  | x :: r => (acc + x)%Z :: cumsum_from (acc + x)%Z r
  end.

Definition cumsum (l : list Z) : list Z := cumsum_from 0%Z l.

(** [np.concatenate(([0], np.cumsum(a)[:-1]))]: the sums of the entries
    strictly before each day. *)
Definition shifted_cumsum (a : list Z) : list Z := 0%Z :: removelast (cumsum a).

(** Python's [sum] and [np.sum] of an integer array. *)
Definition sumZ (l : list Z) : Z := fold_right Z.add 0%Z l.

Definition all_ge0 (l : list Z) : bool := forallb (fun v => Z.leb 0 v) l.

(** ** Real comparisons as booleans *)

Definition Rleb (a b : R) : bool := if Rle_dec a b then true else false.
Definition Rltb (a b : R) : bool := if Rlt_dec a b then true else false.
Definition Reqb (a b : R) : bool := if Req_dec_T a b then true else false.

Fixpoint list_eqb {A} (eqb : A -> A -> bool) (a b : list A) : bool :=
  match a, b with
  | [], [] => true
  | x :: a', y :: b' => eqb x y && list_eqb eqb a' b'
  | _, _ => false
  end.

(** ** The recursion library *)

(** [round_int]: [np.floor(x + 0.5).astype(int)].  The sum is taken in the
    reals; in doubles [x + 0.5] is rounded before the floor, so the largest
    double below a half-integer goes up where the real number goes down. *)
Definition round_int (x : R) : Z := Zfloor (x + / 2).

Definition round_ints (l : list R) : list Z := map round_int l.

(** [C * delta]: an integer array times a float. *)
Definition scale (delta : R) (c : list Z) : list R :=
  map (fun v => (IZR v * delta)%R) c.

(** [compute_S]:
    [N[0] - np.concatenate(([0], np.cumsum(B)[:-1])) + N - N[0]].
    [N[0]] raises on an empty [N]. *)
Definition compute_S (e0 i_mild0 i_wild0 : Z) (B N : list Z) : option (list Z) :=
  match N with
  | [] => None
  | n0 :: _ =>
      opt_bind (np_zip Z.add (map (fun c => n0 - c)%Z (shifted_cumsum B)) N)
        (fun s => Some (map (fun v => v - n0)%Z s))
  end.

(** [compute_E]: [e0 + np.concatenate(([0], np.cumsum(B - C)[:-1]))]. *)
Definition compute_E (e0 : Z) (B C : list Z) : option (list Z) :=
  opt_bind (np_zip Z.sub B C)
    (fun d => Some (map (fun c => e0 + c)%Z (shifted_cumsum d))).

(** [compute_I]: [i0 + np.concatenate(([0], np.cumsum(C - D)[:-1]))]. *)
Definition compute_I (i0 : Z) (C D : list Z) : option (list Z) :=
  opt_bind (np_zip Z.sub C D)
    (fun d => Some (map (fun c => i0 + c)%Z (shifted_cumsum d))).

(** Python's index normalisation on an array of length [n]: a negative index
    counts from the end, anything outside [-n, n) is an [IndexError]. *)
Definition py_index (n : nat) (i : Z) : option nat :=
  if (0 <=? i)%Z && (i <? Z.of_nat n)%Z then Some (Z.to_nat i)
  else if (- Z.of_nat n <=? i)%Z && (i <? 0)%Z then Some (Z.to_nat (i + Z.of_nat n))
  else None.

Fixpoint upd {A} (i : nat) (v : A) (l : list A) : list A :=
  match l, i with
  | [], _ => []
  | _ :: t, O => v :: t
  | h :: t, S j => h :: upd j v t
  end.

(** [a[idx] = vs] for an integer index array [idx]: the assignments are made
    in order, each index checked against the bounds. *)
Fixpoint np_put {A} (a : list A) (idx : list Z) (vs : list A) : option (list A) :=
  match idx, vs with
  | i :: idx', v :: vs' =>
      match py_index (length a) i with
      | Some k => np_put (upd k v a) idx' vs'
      | None => None
      end
  | _, _ => Some a
  end.

(** [range(lo, hi)]. *)
Definition py_range (lo hi : Z) : list Z :=
  map (fun k => (lo + Z.of_nat k)%Z) (seq 0 (Z.to_nat (hi - lo))).

(** Truth value of a float: non-zero. *)
Definition nonzero (r : R) : bool := negb (Reqb r 0).

(** [transmission_rate].  The last statement of the source is
    [assert trans_rate.all() >= 0]: [.all()] is applied first and yields a
    boolean, which is then compared with [0]. *)
Definition transmission_rate (beta q : R) (t_ctrl t_end : Z) : option (list R) :=
  if (t_end <? 0)%Z then None
  else
    let ones := map (fun _ => (1 * beta)%R) (seq 0 (Z.to_nat t_end)) in
    opt_bind
      (if (t_ctrl <? t_end)%Z then
         let ctrl_indices := py_range t_ctrl t_end in
         np_put ones ctrl_indices
           (map (fun i => (beta * exp (- q * IZR (i - t_ctrl)))%R) ctrl_indices)
       else Some ones)
      (fun trans_rate =>
         if (Z.b2z (forallb nonzero trans_rate) >=? 0)%Z
         then Some trans_rate else None).

(** [compute_P]: [1 - np.exp(-trans_rate * (I_mild + I_wild) / N)]. *)
Definition compute_P (trans_rate : list R) (I_mild I_wild N : list Z)
  : option (list R) :=
  opt_bind (np_zip Z.add I_mild I_wild) (fun i =>
  opt_bind (np_zip (fun r v => (r * IZR v)%R) (map Ropp trans_rate) i) (fun a =>
  opt_bind (np_zip (fun r v => (r / IZR v)%R) a N) (fun b =>
  Some (map (fun y => (1 - exp y)%R) b)))).

(** ** The generic Metropolis-Hastings driver *)

Section MetropolisHastings.
Variables X D CF : Type.
Variable fn : X -> D -> option R.
Variable proposal : X -> D -> CF -> M (X * D).
Variable conditions_fn : CF.

  (** The body of [while burn_in: burn_in -= 1; ...]. *)
Fixpoint mh_loop (burn_in : nat) (x : X) (data : D) : M (X * D) :=
    match burn_in with
    | O => ret (x, data)
    | S b =>
        '(x_new, data_new) <- proposal x data conditions_fn ;;
        lp_new <- lift (fn x_new data_new) ;;
        lp <- lift (fn x data) ;;
        let accept_log_prob := Rmin 0 (lp_new - lp) in
        u <- draw_unif ;;
        let p := ln u in
        if Rleb p accept_log_prob then mh_loop b x_new data_new
        else mh_loop b x data
    end.

  (** [metropolis_hastings]: returns [x, data, fn(x, data), old_log_prob]. *)
Definition metropolis_hastings (x : X) (data : D) (burn_in : nat)
    : M (X * D * R * R) :=
    old_log_prob <- lift (fn x data) ;;
    '(x', data') <- mh_loop burn_in x data ;;
    lp <- lift (fn x' data') ;;
    ret (x', data', lp, old_log_prob).
End MetropolisHastings.

(** ** The constrained single-site resampler *)

(** [x[idx]] for an array of positions. *)
Definition take_at (x : list Z) (idx : list nat) : list Z :=
  map (fun i => nth i x 0%Z) idx.

(** [x[idx] = vs]: assignments in order. *)
Fixpoint put_at (x : list Z) (idx : list nat) (vs : list Z) : list Z :=
  match idx, vs with
  | i :: idx', v :: vs' => put_at (upd i v x) idx' vs'
  | _, _ => x
  end.

(** The amount of a move: the scalar [1], or one amount per position. *)
Inductive change : Type :=
| Scalar (c : Z)
| PerSite (cs : list Z).

Definition bcast (c : change) (n : nat) : list Z :=
  match c with
  | Scalar z => repeat z n
  | PerSite cs => cs
  end.

(** [x[idx] -= c] and [x[idx] += c]: numpy reads [x[idx]], computes, and
    assigns the result back to [x[idx]]. *)
Definition isub_at (x : list Z) (idx : list nat) (c : change) : list Z :=
  put_at x idx (zipw Z.sub (take_at x idx) (bcast c (length idx))).

Definition iadd_at (x : list Z) (idx : list nat) (c : change) : list Z :=
  put_at x idx (zipw Z.add (take_at x idx) (bcast c (length idx))).

(** [np.nonzero(cond(x))[0]]: the positions whose entry satisfies [cond]. *)
Definition np_where (cond : Z -> bool) (x : list Z) : list nat :=
  filter (fun i => cond (nth i x 0%Z)) (seq 0 (length x)).

Definition ge1 (v : Z) : bool := (1 <=? v)%Z.
Definition ne0 (v : Z) : bool := negb (v =? 0)%Z.

(** The amounts of one attempt: [(change_add, change_subs)]. *)
Definition changes (one_off : bool) (x_new : list Z) (t_new t_tilde : list nat)
  : change * change :=
  if one_off then (Scalar 1%Z, Scalar 1%Z)
  else (PerSite (map (fun v => v / 79)%Z (take_at x_new t_tilde)),
        PerSite (map (fun v => v / 80)%Z (take_at x_new t_new))).

(** The candidate of one attempt. *)
Definition move (x_new : list Z) (t_new t_tilde : list nat)
  (change_add change_subs : change) : list Z :=
  iadd_at (isub_at x_new t_new change_subs) t_tilde change_add.

(** "revert back the changes". *)
Definition revert (x_new : list Z) (t_new t_tilde : list nat)
  (change_add change_subs : change) : list Z :=
  isub_at (iadd_at x_new t_new change_subs) t_tilde change_add.

Section SampleX.
Variable D : Type.
Variable conditions_fn : list Z -> D -> bool.
Variable data_fn : list Z -> option D.

  (** One pass through the body of [while n_tries < 100]: the candidate when
      it is feasible, and the working array [x_new] as the pass leaves it. *)
Definition sample_x_attempt (x x_new : list Z)
    : M (option (list Z * D) * list Z) :=
    t_new <- choice (np_where ge1 x_new)
                    (Nat.min 15 (length (np_where ne0 x_new))) ;;
    t_tilde <- choice (seq 0 (length x)) (length t_new) ;;
    _ <- assert_ (forallb ge1 (take_at x_new t_new)) ;;
    one_off <- draw_bit ;;
    (* [x_new[t_tilde]]: for an empty [x], [np.random.choice(range(0), 0)] is
       an empty array of floats, which numpy refuses as an index *)
    _ <- assert_ (negb (Nat.eqb (length x) 0)) ;;
    let '(change_add, change_subs) := changes one_off x_new t_new t_tilde in
    let x_cand := move x_new t_new t_tilde change_add change_subs in
    data_new <- lift (data_fn x_cand) ;;
    if conditions_fn x_cand data_new then ret (Some (x_cand, data_new), x_cand)
    else ret (None, revert x_cand t_new t_tilde change_add change_subs).

Fixpoint sample_x_loop (left : nat) (x x_new : list Z)
    : M (option (list Z * D) * list Z) :=
    match left with
    | O => ret (None, x_new)
    | S left' =>
        r <- sample_x_attempt x x_new ;;
        match r with
        | (Some c, w) => ret (Some c, w)
        | (None, w) => sample_x_loop left' x w
        end
    end.

  (** [sample_x]: [x_new = np.copy(x)], at most 100 attempts, and
      [return x, data] when none was feasible. *)
Definition sample_x (x : list Z) (data : D) : M (list Z * D) :=
    r <- sample_x_loop 100 x x ;;
    match fst r with
    | Some c => ret c
    | None => ret (x, data)
    end.
End SampleX.

(** ** Likelihoods *)

Definition sumR (l : list R) : R := fold_right Rplus 0%R l.

Definition unpack7 (p : list R) : option (R * R * R * R * R * R * R) :=
  match p with
  | [beta; q; delta; rho; gamma_mild; gamma_wild; k] =>
      Some (beta, q, delta, rho, gamma_mild, gamma_wild, k)
  | _ => None
  end.

(** [np.random.normal(loc, scale)] on arrays: [loc + scale * z] with [z]
    standard normal, one draw per entry of the broadcast shape; numpy refuses
    a negative [scale]. *)
Definition np_random_normal (loc scale : list R) : M (list R) :=
  fun o n =>
    if existsb (fun s => Rltb s 0) scale then None
    else match np_zip pair loc scale with
         | None => None
         | Some ls =>
             Some (zipw (fun (a : R * R) z => (fst a + snd a * z)%R) ls
                        (map (o_gauss o n) (seq 0 (length ls))), S n)
         end.

(** Where scipy returns [nan]: [sp.stats.binom(n, p).pmf] outside the
    domain [n >= 0], [0 <= p <= 1] of the distribution, and
    [sp.stats.gamma(a, b).pdf] for a shape [a <= 0] ([b] is the location). *)
Definition binom_nan (n : Z) (p : R) : bool :=
  (n <? 0)%Z || Rltb p 0 || Rltb 1 p.

Definition gamma_nan (a : R) : bool := Rleb a 0.

(** [np.isnan(np.sum(np.log(sp.stats.binom(n, p).pmf(x) + epsilon)))]: some
    entry is taken outside the domain.  A pmf is never negative, so the
    logarithm itself adds no [nan]. *)
Definition binom_loglik_isnan (n : list Z) (p : list R) (x : list Z) : bool :=
  match np_zip pair n p with
  | Some np =>
      match np_zip (fun (a : Z * R) (_ : Z) => binom_nan (fst a) (snd a)) np x with
      | Some l => existsb (fun b => b) l
      | None => false
      end
  | None => false
  end.

Section Samplers.
  (** [sp.stats.binom(n, p).pmf(k)] and [sp.stats.gamma(a, b).pdf(x)]. *)
Variable binom_pmf : Z -> R -> Z -> R.
Variable gamma_pdf : R -> R -> R -> R.

  (** [np.sum(np.log(sp.stats.binom(n, p).pmf(x) + epsilon))]; a scalar [p]
      is passed as an array of length one. *)
Definition binom_loglik (epsilon : R) (n : list Z) (p : list R) (x : list Z)
    : option R :=
    opt_bind (np_zip pair n p) (fun np =>
    opt_bind (np_zip (fun (a : Z * R) k =>
                        ln (binom_pmf (fst a) (snd a) k + epsilon)) np x)
      (fun l => Some (sumR l))).

  (** *** [sample_B] *)
Section SampleB.
Variables (inits : Z * Z * Z) (params : list R) (t_ctrl : Z) (epsilon : R).
Variables (C : list Z) (P : list R) (N : list Z).

Definition B_fn (x : list Z) (data : list Z * list Z) : option R :=
      let '(S_, E) := data in binom_loglik epsilon S_ P x.

Definition B_data_fn (x : list Z) : option (list Z * list Z) :=
      let '(e0, i_mild0, i_wild0) := inits in
      opt_bind (compute_S e0 i_mild0 i_wild0 x N) (fun S_new =>
      opt_bind (compute_E e0 x C) (fun E_new => Some (S_new, E_new))).

Definition B_conditions_fn (x : list Z) (data : list Z * list Z) : bool :=
      let '(S_, E) := data in all_ge0 S_ && all_ge0 E.

Definition B_proposal (x : list Z) (data : list Z * list Z)
      (conditions_fn : list Z -> list Z * list Z -> bool) :=
      sample_x conditions_fn B_data_fn x data.

    (** returns [B, S, E, log_prob_new, log_prob_old] *)
Definition sample_B (B S_ E : list Z)
      : M (list Z * list Z * list Z * R * R) :=
      _ <- lift (unpack7 params) ;;
      '(B', data, log_prob_new, log_prob_old) <-
        metropolis_hastings B_fn B_proposal B_conditions_fn B (S_, E) 1 ;;
      let '(S', E') := data in
      ret (B', S', E', log_prob_new, log_prob_old).
End SampleB.

  (** *** [sample_C] *)
Section SampleC.
Variables (inits : Z * Z * Z) (params : list R) (t_ctrl : Z) (epsilon : R).
Variables (D_mild D_wild B N : list Z).

Definition CData : Type := (list Z * list Z * list Z * list R)%type.

Definition C_fn (rho : R) (x : list Z) (data : CData) : option R :=
      let '(E, I_mild, I_wild, P) := data in
      let pC := (1 - exp (- rho))%R in
      if Rleb 0 pC && Rleb pC 1 then binom_loglik epsilon E [pC] x else None.

Definition C_data_fn (beta q delta : R) (t_end : Z) (x : list Z)
      : option CData :=
      let '(e0, i_mild0, i_wild0) := inits in
      let mild := round_ints (map (fun v => (delta * IZR v)%R) x) in
      opt_bind (compute_E e0 B x) (fun E_new =>
      opt_bind (compute_I i_mild0 mild D_mild) (fun I_mild_new =>
      opt_bind (np_zip Z.sub x mild) (fun wild =>
      opt_bind (compute_I i_wild0 wild D_wild) (fun I_wild_new =>
      opt_bind (transmission_rate beta q t_ctrl t_end) (fun t_rate =>
      opt_bind (compute_P t_rate I_mild_new I_wild_new N) (fun P_new =>
      Some (E_new, I_mild_new, I_wild_new, P_new))))))).

Definition C_conditions_fn (x : list Z) (data : CData) : bool :=
      let '(E, I_mild, I_wild, P) := data in
      all_ge0 E && all_ge0 I_mild && all_ge0 I_wild.

    (** returns [C, E, I_mild, I_wild, P, log_prob_new, log_prob_old] *)
Definition sample_C (C E I_mild I_wild : list Z) (P : list R)
      : M (list Z * list Z * list Z * list Z * list R * R * R) :=
      let t_end := Z.of_nat (length C) in
      '(beta, q, delta, rho, gamma_mild, gamma_wild, k) <- lift (unpack7 params) ;;
      '(C', data, log_prob_new, log_prob_old) <-
        metropolis_hastings (C_fn rho)
          (fun x data cf => sample_x cf (C_data_fn beta q delta t_end) x data)
          C_conditions_fn C (E, I_mild, I_wild, P) 1 ;;
      let '(E', I_mild', I_wild', P') := data in
      ret (C', E', I_mild', I_wild', P', log_prob_new, log_prob_old).
End SampleC.

  (** *** [sample_D_mild] *)
Section SampleDmild.
Variables (inits : Z * Z * Z) (params : list R) (t_ctrl : Z) (epsilon : R).
Variables (I_wild C N : list Z).

Definition D_fn (gamma_mild : R) (x : list Z) (data : list Z) : option R :=
      let I_mild := data in
      let pR := (1 - exp (- gamma_mild))%R in
      if Rleb 0 pR && Rleb pR 1 then binom_loglik epsilon I_mild [pR] x else None.

Definition D_data_fn (delta : R) (x : list Z) : option (list Z) :=
      let '(e0, i_mild0, i_wild0) := inits in
      compute_I i_mild0 (round_ints (scale delta C)) x.

Definition D_conditions_fn (x : list Z) (data : list Z) : bool :=
      all_ge0 data.

    (** returns [D_mild, I_mild, P, log_prob_new, log_prob_old] *)
Definition sample_D_mild (D_mild I_mild : list Z)
      : M (list Z * list Z * list R * R * R) :=
      let t_end := Z.of_nat (length D_mild) in
      '(beta, q, delta, rho, gamma_mild, gamma_wild, k) <- lift (unpack7 params) ;;
      '(D_mild', I_mild', log_prob_new, log_prob_old) <-
        metropolis_hastings (D_fn gamma_mild)
          (fun x data cf => sample_x cf (D_data_fn delta) x data)
          D_conditions_fn D_mild I_mild 1 ;;
      t_rate <- lift (transmission_rate beta q t_ctrl t_end) ;;
      P' <- lift (compute_P t_rate I_mild' I_wild N) ;;
      ret (D_mild', I_mild', P', log_prob_new, log_prob_old).
End SampleDmild.
End Samplers.

(** ** The parameter sampler *)

Section SampleParams.
Variable binom_pmf : Z -> R -> Z -> R.
Variable gamma_pdf : R -> R -> R -> R.
Variables (inits : Z * Z * Z) (priors : list (R * R)) (rand_walk_stds : list R).
Variables (t_ctrl : Z) (epsilon : R) (bounds : list (R * R)).
Variables (B C D_mild D_wild : list Z).

  (** [[S, E, I_mild, I_wild, P, N]] *)
Definition PData : Type :=
    (list Z * list Z * list Z * list Z * list R * list Z)%type.

  (** The loop [for i in range(len(priors)): ... log_prior += ...]; [x[i]]
      raises past the end of [x]. *)
Fixpoint log_prior_from (ps : list (R * R)) (i : nat) (x : list R) (acc : R)
    : option R :=
    match ps with
    | [] => Some acc
    | (a, b) :: ps' =>
        match nth_error x i with
        | Some xi => log_prior_from ps' (S i) x (acc + ln (gamma_pdf a b xi + epsilon))%R
        | None => None
        end
    end.

Definition params_fn (x : list R) (data : PData) : option R :=
    opt_bind (unpack7 x) (fun u =>
    let '(beta, q, delta, rho, gamma_mild, gamma_wild, k) := u in
    let '(S_, E, I_mild, I_wild, P, N) := data in
    let pC := (1 - exp (- rho))%R in
    let pR_mild := (1 - exp (- gamma_mild))%R in
    let pR_wild := (1 - exp (- gamma_wild))%R in
    opt_bind (binom_loglik binom_pmf epsilon S_ P B) (fun logB =>
    opt_bind (binom_loglik binom_pmf epsilon E [pC] C) (fun logC =>
    opt_bind (binom_loglik binom_pmf epsilon I_mild [pR_mild] D_mild) (fun logD_mild =>
    opt_bind (binom_loglik binom_pmf epsilon I_wild [pR_wild] D_wild) (fun logD_wild =>
    (* [assert not np.isnan(..)] of the four log-likelihoods *)
    if binom_loglik_isnan S_ P B then None else
    if binom_loglik_isnan E [pC] C then None else
    if binom_loglik_isnan I_mild [pR_mild] D_mild then None else
    if binom_loglik_isnan I_wild [pR_wild] D_wild then None else
    opt_bind (log_prior_from priors 0 x 0%R) (fun log_prior =>
    (* [assert not np.isnan(log_prior)] *)
    if existsb (fun ab => gamma_nan (fst ab)) priors then None else
    Some (logB + logC + logD_mild + logD_wild + log_prior)%R)))))).

  (** The loop over [bounds] of [conditions_fn]. *)
Fixpoint bounds_from (bs : list (R * R)) (i : nat) (x : list R) : option bool :=
    match bs with
    | [] => Some true
    | (a, b) :: bs' =>
        match nth_error x i with
        | Some xi => if Rltb xi a || Rltb b xi then Some false
                     else bounds_from bs' (S i) x
        | None => None
        end
    end.

Definition params_conditions_fn (x : list R) (data : PData) : option bool :=
    opt_bind (unpack7 x) (fun _ =>
    let '(S_, E, I_mild, I_wild, P, N) := data in
    if negb (forallb (fun v => Rltb 0 v) x) then Some false
    else if negb (all_ge0 S_) || negb (all_ge0 E)
            || negb (all_ge0 I_mild) || negb (all_ge0 I_wild) then Some false
    else bounds_from bounds 0 x).

  (** The candidate state of one attempt of [proposal]:
      [N_new = round_int(N*old_k / k)], floored at 1, and the series
      recomputed from it. *)
Definition params_candidate (old_k : R) (t_end : Z) (N : list Z) (x_new : list R)
    : option PData :=
    let '(e0, i_mild0, i_wild0) := inits in
    opt_bind (unpack7 x_new) (fun u =>
    let '(beta, q, delta, rho, gamma_mild, gamma_wild, k) := u in
    let N_new := map (fun n => let r := round_int (IZR n * old_k / k) in
                               if (r <? 1)%Z then 1%Z else r) N in
    let mild := round_ints (scale delta C) in
    opt_bind (compute_S e0 i_mild0 i_wild0 B N_new) (fun S_new =>
    opt_bind (compute_E e0 B C) (fun E_new =>
    opt_bind (compute_I i_mild0 mild D_mild) (fun I_mild_new =>
    opt_bind (np_zip Z.sub C mild) (fun wild =>
    opt_bind (compute_I i_wild0 wild D_wild) (fun I_wild_new =>
    opt_bind (transmission_rate beta q t_ctrl t_end) (fun t_rate =>
    opt_bind (compute_P t_rate I_mild_new I_wild_new N_new) (fun P_new =>
    Some (S_new, E_new, I_mild_new, I_wild_new, P_new, N_new))))))))).

  (** [proposal]: at most 100 Gaussian random-walk attempts, then
      [return x, data]. *)
Fixpoint params_proposal_loop (left : nat) (old_k : R) (t_end : Z)
    (x : list R) (data : PData)
    (conditions_fn : list R -> PData -> option bool) : M (list R * PData) :=
    match left with
    | O => ret (x, data)
    | S left' =>
        let '(_, _, _, _, _, N) := data in
        x_new <- np_random_normal x rand_walk_stds ;;
        data_new <- lift (params_candidate old_k t_end N x_new) ;;
        ok <- lift (conditions_fn x_new data_new) ;;
        if ok then ret (x_new, data_new)
        else params_proposal_loop left' old_k t_end x data conditions_fn
    end.

  (** [R0t = t_rate / (delta*gamma_mild + (1-delta)*gamma_wild) * S / N]. *)
Definition R0t_of (t_rate : list R) (delta gamma_mild gamma_wild : R)
    (S_ N : list Z) : option (list R) :=
    opt_bind (np_zip (fun r s => (r * IZR s)%R)
                (map (fun r => (r / (delta * gamma_mild + (1 - delta) * gamma_wild))%R)
                     t_rate) S_)
      (fun a => np_zip (fun r n => (r / IZR n)%R) a N).

  (** returns [params_new, S, E, I_mild, I_wild, P, N, R0t, log_prob_new,
      log_prob_old].  [R0t] is computed before [S] and [N] are rebound to the
      entries of the returned [data]. *)
Definition sample_params (params : list R) (variables : PData)
    : M (list R * PData * list R * R * R) :=
    let '(S_, E, I_mild, I_wild, P, N) := variables in
    let t_end := Z.of_nat (length N) in
    '(_, _, _, _, _, _, old_k) <- lift (unpack7 params) ;;
    '(params_new, data, log_prob_new, log_prob_old) <-
      metropolis_hastings params_fn
        (fun x data cf => params_proposal_loop 100 old_k t_end x data cf)
        params_conditions_fn params (S_, E, I_mild, I_wild, P, N) 1 ;;
    '(beta, q, delta, rho, gamma_mild, gamma_wild, k) <- lift (unpack7 params_new) ;;
    t_rate <- lift (transmission_rate beta q t_ctrl t_end) ;;
    R0t <- lift (R0t_of t_rate delta gamma_mild gamma_wild S_ N) ;;
    ret (params_new, data, R0t, log_prob_new, log_prob_old).
End SampleParams.

(** ** The representation invariant *)

Definition arr_eqZ (a b : list Z) : bool :=
  match np_zip Z.eqb a b with Some l => forallb (fun v => v) l | None => false end.

Definition arr_eqR (a b : list R) : bool :=
  match np_zip Reqb a b with Some l => forallb (fun v => v) l | None => false end.

Definition opt_and (r : option bool) : bool :=
  match r with Some b => b | None => false end.

(** [check_rep_inv]: [true] when every [assert] passes and nothing raises. *)
Definition check_rep_inv (S_ E I_mild I_wild B C D_mild D_wild : list Z)
  (P : list R) (N : list Z) (inits : Z * Z * Z) (params : list R)
  (t_ctrl t_end : Z) : bool :=
  let '(e0, i_mild0, i_wild0) := inits in
  opt_and (opt_bind (unpack7 params) (fun u =>
  let '(beta, q, delta, rho, gamma_mild, gamma_wild, k) := u in
  Some (
    all_ge0 I_mild && all_ge0 I_wild && all_ge0 S_ && all_ge0 E
    && opt_and (option_map all_ge0 (np_zip Z.add I_mild I_wild))
    && all_ge0 B && all_ge0 C && all_ge0 D_mild && all_ge0 D_wild
    && (forallb (fun p => Rleb p 1) P && forallb (fun p => Rleb 0 p) P)
    && opt_and (option_map (arr_eqZ S_) (compute_S e0 i_mild0 i_wild0 B N))
    && opt_and (option_map (arr_eqZ E) (compute_E e0 B C))
    && opt_and (option_map (arr_eqZ I_mild)
                  (compute_I i_mild0 (round_ints (scale delta C)) D_mild))
    && opt_and (option_map (arr_eqZ I_wild)
                  (opt_bind (np_zip Z.sub C (round_ints (scale delta C)))
                     (fun wild => compute_I i_wild0 wild D_wild)))
    && opt_and (option_map (arr_eqR P)
                  (opt_bind (transmission_rate beta q t_ctrl t_end)
                     (fun t_rate => compute_P t_rate I_mild I_wild N)))))).

(** ** The training loop *)

Record State : Type := mkState {
  st_S : list Z; st_E : list Z; st_I_mild : list Z; st_I_wild : list Z;
  st_B : list Z; st_C : list Z; st_D_mild : list Z;
  st_P : list R; st_N : list Z; st_params : list R
}.

Section Train.
Variable binom_pmf : Z -> R -> Z -> R.
Variable gamma_pdf : R -> R -> R -> R.
Variables (D_wild : list Z) (inits : Z * Z * Z) (priors : list (R * R)).
Variables (rand_walk_stds : list R) (t_ctrl : Z) (bounds : list (R * R)).
Variable t_end : Z.

Definition epsilon : R := (/ 10 ^ 16)%R.

Definition rep_inv (st : State) : bool :=
    check_rep_inv (st_S st) (st_E st) (st_I_mild st) (st_I_wild st) (st_B st)
      (st_C st) (st_D_mild st) D_wild (st_P st) (st_N st) inits (st_params st)
      t_ctrl t_end.

  (** The four updates of one iteration of [for i in range(n_iter)], each
      followed by its [check_rep_inv]; the new state and [R0t]. *)
Definition train_step (st : State) : M (State * list R * R * R) :=
    let '(mkState S_ E I_mild I_wild B C D_mild P N params) := st in
    '(B, S_, E, log_prob_new, log_prob_old) <-
      sample_B binom_pmf inits params epsilon C P N B S_ E ;;
    let st1 := mkState S_ E I_mild I_wild B C D_mild P N params in
    _ <- assert_ (rep_inv st1) ;;
    '(C, E, I_mild, I_wild, P, _, _) <-
      sample_C binom_pmf inits params t_ctrl epsilon D_mild D_wild B N
        C E I_mild I_wild P ;;
    let st2 := mkState S_ E I_mild I_wild B C D_mild P N params in
    _ <- assert_ (rep_inv st2) ;;
    '(D_mild, I_mild, P, _, _) <-
      sample_D_mild binom_pmf inits params t_ctrl epsilon I_wild C N
        D_mild I_mild ;;
    let st3 := mkState S_ E I_mild I_wild B C D_mild P N params in
    _ <- assert_ (rep_inv st3) ;;
    '(params, data, R0t, log_prob_new, log_prob_old) <-
      sample_params binom_pmf gamma_pdf inits priors rand_walk_stds t_ctrl
        epsilon bounds B C D_mild D_wild params (S_, E, I_mild, I_wild, P, N) ;;
    let '(S_, E, I_mild, I_wild, P, N) := data in
    let st4 := mkState S_ E I_mild I_wild B C D_mild P N params in
    _ <- assert_ (rep_inv st4) ;;
    ret (st4, R0t, log_prob_new, log_prob_old).

  (** [for i in range(n_iter)] from iteration [i], with the saved samples. *)
Fixpoint train_loop (todo i n_burn_in save_freq : nat) (st : State)
    (saved_params saved_R0ts : list (list R))
    : M (State * list (list R) * list (list R)) :=
    match todo with
    | O => ret (st, saved_params, saved_R0ts)
    | S todo' =>
        '(st', R0t, _, _) <- train_step st ;;
        (* [i >= n_burn_in and i % save_freq == 0]: the remainder is only
           taken, and only raises for [save_freq = 0], past the burn-in *)
        _ <- assert_ (negb (Nat.leb n_burn_in i && Nat.eqb save_freq 0)) ;;
        if Nat.leb n_burn_in i && Nat.eqb (i mod save_freq) 0
        then train_loop todo' (S i) n_burn_in save_freq st'
               (saved_params ++ [st_params st']) (saved_R0ts ++ [R0t])
        else train_loop todo' (S i) n_burn_in save_freq st' saved_params saved_R0ts
    end.
End Train.

(** [np.mean] and [np.std] of a list of floats. *)
Definition np_mean (l : list R) : R := (sumR l / INR (length l))%R.

Definition np_std (l : list R) : R :=
  sqrt (np_mean (map (fun v => ((v - np_mean l) * (v - np_mean l))%R) l)).

(** The aggregate basic reproduction number of one saved sample [p]:
    [(sum(D_mild)+sum(D_wild)) * p[0] / (sum(D_mild)*p[3]+sum(D_wild)*p[4])]. *)
Definition R0_of (D_mild D_wild : list Z) (p : list R) : option R :=
  match nth_error p 0, nth_error p 3, nth_error p 4 with
  | Some p0, Some p3, Some p4 =>
      Some (IZR (sumZ D_mild + sumZ D_wild) * p0
            / (IZR (sumZ D_mild) * p3 + IZR (sumZ D_wild) * p4))%R
  | _, _, _ => None
  end.

Fixpoint R0s (D_mild D_wild : list Z) (saved_params : list (list R))
  : option (list R) :=
  match saved_params with
  | [] => Some []
  | p :: rest =>
      opt_bind (R0_of D_mild D_wild p) (fun r =>
      opt_bind (R0s D_mild D_wild rest) (fun rs => Some (r :: rs)))
  end.

Definition CI_FACTOR : R := 196 / 100.

(** [(R0_low, R0_high)] of [train]. *)
Definition R0_interval (D_mild D_wild : list Z) (saved_params : list (list R))
  : option (R * R) :=
  opt_bind (R0s D_mild D_wild saved_params) (fun rs =>
  Some ((np_mean rs - CI_FACTOR * np_std rs)%R,
        (np_mean rs + CI_FACTOR * np_std rs)%R)).

(** [train] from the initialised state on: the loop, then the aggregate
    interval from the final [D_mild] and the saved samples.  Of the returned
    tuple, [C] and [(R0_low, R0_high)] are kept. *)
Definition train_run (binom_pmf : Z -> R -> Z -> R) (gamma_pdf : R -> R -> R -> R)
  (D_wild : list Z) (inits : Z * Z * Z) (priors : list (R * R))
  (rand_walk_stds : list R) (t_ctrl : Z) (bounds : list (R * R))
  (n_iter n_burn_in save_freq : nat) (st0 : State)
  : M (list Z * (R * R)) :=
  '(st, saved_params, saved_R0ts) <-
    train_loop binom_pmf gamma_pdf D_wild inits priors rand_walk_stds t_ctrl
      bounds (Z.of_nat (length (st_N st0))) n_iter 0 n_burn_in save_freq st0 [] [] ;;
  ci <- lift (R0_interval (st_D_mild st) D_wild saved_params) ;;
  ret (st_C st, ci).

(** ** Vocabulary of the statements about moves *)

(** The value assigned to position [j] by [x[idx] = vs], if any. *)
Fixpoint assigned (idx : list nat) (vs : list Z) (j : nat) : option Z :=
  match idx, vs with
  | i :: idx', v :: vs' => if Nat.eqb i j then Some v else assigned idx' vs' j
  | _, _ => None
  end.

Definition change_ok (c : change) (n : nat) : Prop :=
  match c with Scalar _ => True | PerSite cs => length cs = n end.

Definition amount (idx : list nat) (cs : list Z) (j : nat) : Z :=
  match assigned idx cs j with Some v => v | None => 0%Z end.

(** Positions that can be drawn for an array [x]. *)
Definition positions (x : list Z) (idx : list nat) : Prop :=
  NoDup idx /\ forall i, In i idx -> (i < length x)%nat.

(** The change of the total made by one move. *)
Definition drift (one_off : bool) (x : list Z) (tn tt : list nat) : Z :=
  if one_off then 0%Z
  else (sumZ (map (fun v => v / 79) (take_at x tt))
        - sumZ (map (fun v => v / 80) (take_at x tn)))%Z.

(** The candidate an attempt builds from the positions [tn], [tt] and the
    bit [one_off]. *)
Definition candidate (one_off : bool) (x : list Z) (tn tt : list nat) : list Z :=
  move x tn tt (fst (changes one_off x tn tt)) (snd (changes one_off x tn tt)).

(** What a draw of an attempt on [x] is: sources among the entries [>= 1],
    as many destinations, both without repetition. *)
Definition drawn (x : list Z) (tn tt : list nat) : Prop :=
  positions x tn /\ positions x tt /\ length tt = length tn
  /\ forall i, In i tn -> (1 <= nth i x 0)%Z.

(** ** Concrete generators and inputs of the examples *)

(** A generator whose raw choice draws are all [1], whose bits are all [0]
    (the proportional branch) and whose uniform draws are all [1/2]. *)
Definition gen_prop : Oracle :=
  mkOracle (fun _ => [1%nat]) (fun _ => false) (fun _ => (/ 2)%R) (fun _ _ => 0%R).

(** The same with all bits [1] (the unit branch). *)
Definition gen_unit : Oracle :=
  mkOracle (fun _ => [1%nat]) (fun _ => true) (fun _ => (/ 2)%R) (fun _ _ => 0%R).

(** ** The representation invariant as a proposition *)

Definition nonneg (l : list Z) : Prop := Forall (fun v => (0 <= v)%Z) l.

(** All the series of a state cover the same [T] days. *)
Definition wf_state (T : nat) (D_wild : list Z) (st : State) : Prop :=
  length (st_S st) = T /\ length (st_E st) = T
  /\ length (st_I_mild st) = T /\ length (st_I_wild st) = T
  /\ length (st_B st) = T /\ length (st_C st) = T
  /\ length (st_D_mild st) = T /\ length (st_P st) = T
  /\ length (st_N st) = T /\ length D_wild = T.

(** What the assertions of [check_rep_inv] say. *)
Definition inv_holds (D_wild : list Z) (inits : Z * Z * Z) (t_ctrl t_end : Z)
  (st : State) : Prop :=
  let '(e0, i_mild0, i_wild0) := inits in
  exists beta q delta rho gamma_mild gamma_wild k,
    st_params st = [beta; q; delta; rho; gamma_mild; gamma_wild; k]
    /\ nonneg (st_I_mild st) /\ nonneg (st_I_wild st)
    /\ nonneg (st_S st) /\ nonneg (st_E st)
    /\ nonneg (st_B st) /\ nonneg (st_C st)
    /\ nonneg (st_D_mild st) /\ nonneg D_wild
    /\ Forall (fun p => (0 <= p <= 1)%R) (st_P st)
    /\ compute_S e0 i_mild0 i_wild0 (st_B st) (st_N st) = Some (st_S st)
    /\ compute_E e0 (st_B st) (st_C st) = Some (st_E st)
    /\ compute_I i_mild0 (round_ints (scale delta (st_C st))) (st_D_mild st)
       = Some (st_I_mild st)
    /\ opt_bind (np_zip Z.sub (st_C st) (round_ints (scale delta (st_C st))))
         (fun wild => compute_I i_wild0 wild D_wild) = Some (st_I_wild st)
    /\ opt_bind (transmission_rate beta q t_ctrl t_end)
         (fun t_rate => compute_P t_rate (st_I_mild st) (st_I_wild st) (st_N st))
       = Some (st_P st).

(** The side conditions under which the samplers keep the invariant: the
    rates [beta], [rho], [gamma_mild] and [gamma_wild] are not negative
    ([conditions_fn] of [sample_params] only lets positive parameters
    through), and the population is at least one, as [N_new[N_new<1] = 1]
    enforces. *)
Definition rates_nonneg (st : State) : Prop :=
  (0 <= nth 0 (st_params st) 0)%R /\ (0 <= nth 3 (st_params st) 0)%R
  /\ (0 <= nth 4 (st_params st) 0)%R /\ (0 <= nth 5 (st_params st) 0)%R.

Definition N_pos (st : State) : Prop :=
  Forall (fun v => (1 <= v)%Z) (st_N st).

(** A configuration under which [sample_params] does not raise: a control
    day from day 0 on, seven non-negative random-walk deviations, at most
    seven priors and bounds, and priors of positive shape. *)
Definition config_ok (priors : list (R * R)) (rand_walk_stds : list R)
  (t_ctrl : Z) (bounds : list (R * R)) : Prop :=
  (0 <= t_ctrl)%Z /\ length rand_walk_stds = 7%nat
  /\ Forall (fun s => (0 <= s)%R) rand_walk_stds
  /\ (length priors <= 7)%nat /\ (length bounds <= 7)%nat
  /\ Forall (fun ab => (0 < fst ab)%R) priors.

(** A parameter vector with its series, as [sample_params] may return them
    for the latent series [B], [C], [D_mild]. *)
Definition settled (T : nat) (D_wild : list Z) (inits : Z * Z * Z)
  (t_ctrl t_end : Z) (B C D_mild : list Z) (x : list R) (d : PData) : Prop :=
  let '(S1, E1, Im1, Iw1, P1, N1) := d in
  let st' := mkState S1 E1 Im1 Iw1 B C D_mild P1 N1 x in
  wf_state T D_wild st' /\ inv_holds D_wild inits t_ctrl t_end st'
  /\ rates_nonneg st' /\ N_pos st'.

(** The state of a run between two updates: well-formed, passing
    [check_rep_inv], with non-negative rates and a positive population. *)
Definition sound (T : nat) (D_wild : list Z) (inits : Z * Z * Z)
  (t_ctrl t_end : Z) (st : State) : Prop :=
  wf_state T D_wild st /\ rep_inv D_wild inits t_ctrl t_end st = true
  /\ rates_nonneg st /\ N_pos st.

(** The binomial probability mass function, the value of
    [sp.stats.binom(n, p).pmf(k)] for [0 <= k <= n], and [0] elsewhere. *)
Definition binom_pmf_math (n : Z) (p : R) (k : Z) : R :=
  if (0 <=? k)%Z && (k <=? n)%Z
  then (C (Z.to_nat n) (Z.to_nat k) * p ^ Z.to_nat k
        * (1 - p) ^ Z.to_nat (n - k))%R
  else 0%R.

Definition value (r : option R) : R :=
  match r with Some v => v | None => 0%R end.

(** A uniform draw in (0, 1) under which a candidate of log-density [lp_new]
    is accepted from a sample of log-density [lp_old]. *)
Definition accepting (lp_new lp_old : option R) : R :=
  exp (Rmin 0 (value lp_new - value lp_old) - 1).




(** A configuration like that of the command line: Gamma(2, 10) priors,
    random-walk deviations of 0.001 and the bounds of [__main__], the
    infinite upper bound of [q] replaced by 100. *)
Definition cli_priors : list (R * R) := repeat (2, 10)%R 7.
Definition cli_stds : list R := repeat (1 / 1000)%R 7.
Definition cli_bounds : list (R * R) :=
  [(0, 6); (0, 100); (8 / 100, 92 / 100); (0, 9 / 10); (0, 9 / 10);
   (0, 9 / 10); (0, 1)]%R.
Definition cli_params : list R := [1; 1 / 10; 1 / 2; 3 / 10; 2 / 10; 2 / 10; 1]%R.

(** A one-day state: [N = [10]], nobody newly exposed, infectious or
    removed, [inits = (1, 1, 1)]. *)
Definition one_day : State :=
  mkState [10]%Z [1]%Z [1]%Z [1]%Z [0]%Z [0]%Z [0]%Z
          [1 - exp (- (1 * 1) * IZR (1 + 1) / IZR 10)]%R [10]%Z cli_params.

(** A two-day state with a population of 1000 and 100 new exposures on
    day 0, the scale factor [k] moving from 1 to 1/2 (a random-walk
    deviation of 1/2 on [k], one standard deviation down). *)
Definition k_stds : list R :=
  [1 / 1000; 1 / 1000; 1 / 1000; 1 / 1000; 1 / 1000; 1 / 1000; 1 / 2]%R.

Definition k_data : PData :=
  ([1000; 900]%Z, [50; 150]%Z, [10; 10]%Z, [10; 10]%Z,
   [1 - exp (- (1 * 1) * IZR (10 + 10) / IZR 1000);
    1 - exp (- (1 * 1) * IZR (10 + 10) / IZR 1000)]%R,
   [1000; 1000]%Z).

(** The two-day state itself, with [B = [100, 0]], nobody newly infectious
    or removed, and [inits = (50, 10, 10)]. *)
Definition k_state : State :=
  mkState [1000; 900]%Z [50; 150]%Z [10; 10]%Z [10; 10]%Z [100; 0]%Z [0; 0]%Z
          [0; 0]%Z
          [1 - exp (- (1 * 1) * IZR (10 + 10) / IZR 1000);
           1 - exp (- (1 * 1) * IZR (10 + 10) / IZR 1000)]%R
          [1000; 1000]%Z cli_params.

Definition k_params_new : list R := [1; 1 / 10; 1 / 2; 3 / 10; 2 / 10; 2 / 10; 1 / 2]%R.

Definition k_data_new : PData :=
  ([2000; 1900]%Z, [50; 150]%Z, [10; 10]%Z, [10; 10]%Z,
   [1 - exp (- (1 * 1) * IZR (10 + 10) / IZR 2000);
    1 - exp (- (1 * 1) * IZR (10 + 10) / IZR 2000)]%R,
   [2000; 2000]%Z).

(** The generator that draws [-1] for [k] and [0] for the other
    parameters, and accepts. *)
Definition k_gen (gamma_pdf : R -> R -> R -> R) : Oracle :=
  mkOracle (fun _ => []) (fun _ => true)
    (fun _ => accepting
                (params_fn binom_pmf_math gamma_pdf cli_priors epsilon
                   [100; 0]%Z [0; 0]%Z [0; 0]%Z [0; 0]%Z k_params_new k_data_new)
                (params_fn binom_pmf_math gamma_pdf cli_priors epsilon
                   [100; 0]%Z [0; 0]%Z [0; 0]%Z [0; 0]%Z cli_params k_data))
    (fun _ i => if Nat.eqb i 6 then (-1)%R else 0%R).

(** ** Further inputs of the examples *)

(** Random-walk deviations that leave the scale factor [k] where it is. *)
Definition fixed_k_stds : list R :=
  [1 / 1000; 1 / 1000; 1 / 1000; 1 / 1000; 1 / 1000; 1 / 1000; 0]%R.

(** ** The iterations whose sample is saved *)

(** [i >= n_burn_in and i % save_freq == 0]. *)
Definition saved_at (n_burn_in save_freq i : nat) : bool :=
  Nat.leb n_burn_in i && Nat.eqb (i mod save_freq) 0.

(** The entries of a list of per-iteration results that belong to saved
    iterations, the first entry being that of iteration [i]. *)
Fixpoint saved_entries {A} (n_burn_in save_freq i : nat) (trace : list A)
  : list A :=
  match trace with
  | [] => []
  | x :: rest =>
      if saved_at n_burn_in save_freq i
      then x :: saved_entries n_burn_in save_freq (S i) rest
      else saved_entries n_burn_in save_freq (S i) rest
  end.

(** A trace of a run: the state and the [R0t] that each iteration returns,
    every iteration starting from the state and the position of the
    generator that the one before left, and ending in [st'] at [n']. *)
Fixpoint iterations (binom_pmf : Z -> R -> Z -> R) (gamma_pdf : R -> R -> R -> R)
  (D_wild : list Z) (inits : Z * Z * Z) (priors : list (R * R))
  (rand_walk_stds : list R) (t_ctrl : Z) (bounds : list (R * R)) (t_end : Z)
  (trace : list (State * list R)) (st : State) (o : Oracle) (n : nat)
  (st' : State) (n' : nat) : Prop :=
  match trace with
  | [] => st' = st /\ n' = n
  | (s1, R0t) :: rest =>
      exists lp old m,
        train_step binom_pmf gamma_pdf D_wild inits priors rand_walk_stds t_ctrl
          bounds t_end st o n = Some ((s1, R0t, lp, old), m)
        /\ iterations binom_pmf gamma_pdf D_wild inits priors rand_walk_stds
             t_ctrl bounds t_end rest s1 o m st' n'
  end.

(** ** Initialisation *)

(** [l[i]] for a Python integer [i]. *)
Definition py_get {A} (l : list A) (i : Z) : option A :=
  opt_bind (py_index (length l) i) (nth_error l).

(** [int(x)] of a float: truncation towards zero. *)
Definition py_int (x : R) : Z := if Rleb 0 x then Zfloor x else Zceil x.

(** [np.random.binomial(n, p)]: a [ValueError] for [n < 0] or [p] outside
    [0, 1]; otherwise a count between [0] and [n], the raw draw of the
    generator reduced to that range, [0] for [p = 0] and [n] for [p = 1]. *)
Definition np_random_binomial (n : Z) (p : R) : M Z :=
  fun o k =>
    if (n <? 0)%Z || Rltb p 0 || Rltb 1 p then None
    else Some (if Reqb p 0 then 0%Z
               else if Reqb p 1 then n
               else Z.of_nat (hd O (o_choice o k) mod (Z.to_nat n + 1)),
               S k).

(** The Python lists that [initialize] grows. *)
Record InitAcc : Type := mkInitAcc {
  ia_S : list Z; ia_E : list Z; ia_I_mild : list Z; ia_I_wild : list Z;
  ia_B : list Z; ia_C : list Z; ia_D_mild : list Z; ia_P : list R
}.

Section Initialize.
Variables (delta rho gamma_mild : R) (N D_wild : list Z) (t_rate : list R).

  (** The body of [for t in range(len(N)-1)].  [D_wild] holds integers, so
      [int(D_wild[t])] is [D_wild[t]]; the [print] is left out. *)
Definition initialize_step (t : nat) (a : InitAcc) : option InitAcc :=
    let '(mkInitAcc S_ E I_mild I_wild B C D_mild P) := a in
    opt_bind (nth_error S_ t) (fun s =>
    opt_bind (nth_error E t) (fun e =>
    opt_bind (nth_error I_mild t) (fun i_mild =>
    opt_bind (nth_error I_wild t) (fun i_wild =>
    opt_bind (nth_error t_rate t) (fun r =>
    opt_bind (nth_error N t) (fun n_t =>
    let p := (1 - exp (- r * IZR (i_mild + i_wild) / IZR n_t))%R in
    if negb (Rleb 0 p && Rleb p 1) then None else
    opt_bind (nth_error D_wild t) (fun d_wild =>
    let b := round_int (IZR s * p) in
    let c := round_int (IZR e * (1 - exp (- rho))) in
    let d_mild := round_int (IZR i_mild * (1 - exp (- gamma_mild))) in
    let c_mild := round_int (IZR c * delta) in
    let c_wild := (c - c_mild)%Z in
    opt_bind (nth_error N (S t)) (fun n_t1 =>
    let s' := (s - b + n_t1 - n_t)%Z in
    let e' := (e + b - c)%Z in
    let i_mild' := (i_mild + c_mild - d_mild)%Z in
    let i_wild' := (i_wild + c_wild - d_wild)%Z in
    if negb (0 <=? i_wild')%Z then None else
    Some (mkInitAcc (S_ ++ [s']) (E ++ [e']) (I_mild ++ [i_mild'])
            (I_wild ++ [i_wild']) (B ++ [b]) (C ++ [c]) (D_mild ++ [d_mild])
            (P ++ [p])))))))))).

Fixpoint initialize_loop (todo t : nat) (a : InitAcc) : option InitAcc :=
    match todo with
    | O => Some a
    | S todo' => opt_bind (initialize_step t a) (initialize_loop todo' (S t))
    end.
End Initialize.

(** [initialize]: returns
    [[S, E, I_mild, I_wild, B, C, D_mild, P, t_rate, N]]. *)
Definition initialize (inits : Z * Z * Z) (params : list R) (N D_wild : list Z)
  (t_ctrl : Z)
  : M (list Z * list Z * list Z * list Z * list Z * list Z * list Z
       * list R * list R * list Z) :=
  '(beta, q, delta, rho, gamma_mild, gamma_wild, k) <- lift (unpack7 params) ;;
  let '(e0, i_mild0, i_wild0) := inits in
  n0 <- lift (nth_error N 0) ;;
  t_rate <- lift (transmission_rate beta q t_ctrl (Z.of_nat (length N))) ;;
  a <- lift (initialize_loop delta rho gamma_mild N D_wild t_rate
               (length N - 1) 0
               (mkInitAcc [n0] [e0] [i_mild0] [i_wild0] [] [] [] [])) ;;
  let '(mkInitAcc S_ E I_mild I_wild B C D_mild P) := a in
  (* last step *)
  r <- lift (py_get t_rate (-1)) ;;
  i_mild <- lift (py_get I_mild (-1)) ;;
  i_wild <- lift (py_get I_wild (-1)) ;;
  n_last <- lift (py_get N (-1)) ;;
  let p := (1 - exp (- r * IZR (i_mild + i_wild) / IZR n_last))%R in
  s <- lift (py_get S_ (-1)) ;;
  b <- np_random_binomial s p ;;
  let d_mild := py_int (IZR i_mild * (1 - exp (- gamma_mild))) in
  e <- lift (py_get E (-1)) ;;
  let c := round_int (IZR e * (1 - exp (- rho))) in
  ret (S_, E, I_mild, I_wild, B ++ [b], C ++ [c], D_mild ++ [d_mild],
       P ++ [p], t_rate, N).

(** ** The whole of [train] *)

(** [train]: the four assertions, [initialize], the first [check_rep_inv]
    and the run from the initialised state.  [range(n_iter)] is empty for a
    negative [n_iter], [i >= n_burn_in] holds of every [i] for a negative
    [n_burn_in], and [i % save_freq == 0] says that [save_freq] divides [i],
    whatever its sign. *)
Definition train (binom_pmf : Z -> R -> Z -> R) (gamma_pdf : R -> R -> R -> R)
  (N D_wild : list Z) (inits : Z * Z * Z) (params : list R)
  (priors : list (R * R)) (rand_walk_stds : list R) (t_ctrl tau : Z)
  (n_iter n_burn_in : Z) (bounds : list (R * R)) (save_freq : Z)
  : M (list Z * (R * R)) :=
  let t_end := Z.of_nat (length N) in
  _ <- assert_ (t_end <? tau)%Z ;;
  _ <- assert_ (t_ctrl <? tau)%Z ;;
  _ <- assert_ (Nat.eqb (length N) (length D_wild)) ;;
  _ <- assert_ (n_burn_in <? n_iter)%Z ;;
  _ <- lift (unpack7 params) ;;
  '(S_, E, I_mild, I_wild, B, C, D_mild, P, t_rate, N') <-
    initialize inits params N D_wild t_ctrl ;;
  let st0 := mkState S_ E I_mild I_wild B C D_mild P N' params in
  _ <- assert_ (rep_inv D_wild inits t_ctrl t_end st0) ;;
  train_run binom_pmf gamma_pdf D_wild inits priors rand_walk_stds t_ctrl
    bounds (Z.to_nat n_iter) (Z.to_nat n_burn_in) (Z.abs_nat save_freq) st0.

(** ** Vocabulary of the statements about [initialize] *)

(** [x] starts at [x0] and follows [x(j+1) = x(j) + inflow(j) - outflow(j)]
    for the first [t] days. *)
Definition flows (x : list Z) (x0 : Z) (inflow outflow : nat -> Z) (t : nat)
  : Prop :=
  nth 0 x 0%Z = x0
  /\ forall j, (j < t)%nat ->
       nth (S j) x 0%Z = (nth j x 0 + inflow j - outflow j)%Z.

(** What [t] passes through the loop of [initialize] have built. *)
Definition init_inv (delta : R) (N D_wild : list Z) (t_rate : list R)
  (n0 e0 i_mild0 i_wild0 : Z) (t : nat) (a : InitAcc) : Prop :=
  length (ia_S a) = S t /\ length (ia_E a) = S t
  /\ length (ia_I_mild a) = S t /\ length (ia_I_wild a) = S t
  /\ length (ia_B a) = t /\ length (ia_C a) = t
  /\ length (ia_D_mild a) = t /\ length (ia_P a) = t
  /\ flows (ia_S a) n0 (fun j => nth (S j) N 0 - nth j N 0)%Z
       (fun j => nth j (ia_B a) 0%Z) t
  /\ flows (ia_E a) e0 (fun j => nth j (ia_B a) 0%Z)
       (fun j => nth j (ia_C a) 0%Z) t
  /\ flows (ia_I_mild a) i_mild0
       (fun j => round_int (IZR (nth j (ia_C a) 0%Z) * delta))
       (fun j => nth j (ia_D_mild a) 0%Z) t
  /\ flows (ia_I_wild a) i_wild0
       (fun j => nth j (ia_C a) 0 - round_int (IZR (nth j (ia_C a) 0%Z) * delta))%Z
       (fun j => nth j D_wild 0%Z) t
  /\ (forall j, (j < t)%nat ->
        nth j (ia_P a) 0%R
        = (1 - exp (- nth j t_rate 0
                    * IZR (nth j (ia_I_mild a) 0%Z + nth j (ia_I_wild a) 0%Z)
                    / IZR (nth j N 0%Z)))%R
        /\ (0 <= nth j (ia_P a) 0 <= 1)%R)
  /\ (forall j, (j < t)%nat -> (0 <= nth (S j) (ia_I_wild a) 0)%Z).

(** The counts that [initialize] has built are non-negative. *)
Definition init_nonneg (a : InitAcc) : Prop :=
  nonneg (ia_S a) /\ nonneg (ia_E a) /\ nonneg (ia_I_mild a)
  /\ nonneg (ia_I_wild a) /\ nonneg (ia_B a) /\ nonneg (ia_C a)
  /\ nonneg (ia_D_mild a).

(** A population that never shrinks. *)
Definition non_decreasing (N : list Z) : Prop :=
  forall j, (S j < length N)%nat -> (nth j N 0 <= nth (S j) N 0)%Z.

(** A two-day population that grows, and a series without removals. *)
Definition two_days : list Z := [10; 12]%Z.
Definition no_removals : list Z := [0; 0]%Z.

(** ** Lists updated by position *)

Lemma upd_length {A} (i : nat) (v : A) (l : list A) : length (upd i v l) = length l.
Proof.
  revert i; induction l as [|h t IH]; intros [|i]; simpl; auto.
Qed.

Lemma nth_upd_same {A} (i : nat) (v d : A) (l : list A) :
  (i < length l)%nat -> nth i (upd i v l) d = v.
Proof.
  revert i; induction l as [|h t IH]; intros [|i] H; simpl in *; try lia; auto.
  apply IH; lia.
Qed.

Lemma nth_upd_other {A} (i j : nat) (v d : A) (l : list A) :
  i <> j -> nth j (upd i v l) d = nth j l d.
Proof.
  revert i j; induction l as [|h t IH]; intros [|i] [|j] H; simpl; auto; try lia.
Qed.

Lemma sumZ_upd (i : nat) (v : Z) (l : list Z) :
  (i < length l)%nat -> sumZ (upd i v l) = (sumZ l - nth i l 0 + v)%Z.
Proof.
  revert i; induction l as [|h t IH]; intros [|i] H; simpl in *; try lia.
  rewrite IH by lia. lia.
Qed.

Lemma zipw_length {A B C} (f : A -> B -> C) (a : list A) (b : list B) :
  length a = length b -> length (zipw f a b) = length a.
Proof.
  revert b; induction a as [|x a IH]; intros [|y b] H; simpl in *; try lia.
  rewrite IH; lia.
Qed.

Lemma take_at_length (x : list Z) (idx : list nat) : length (take_at x idx) = length idx.
Proof. apply length_map. Qed.

Lemma put_at_length (x : list Z) (idx : list nat) (vs : list Z) :
  length (put_at x idx vs) = length x.
Proof.
  revert x vs; induction idx as [|i idx IH]; intros x [|v vs]; simpl; auto.
  rewrite IH. apply upd_length.
Qed.


Lemma assigned_notin (idx : list nat) (vs : list Z) (j : nat) :
  ~ In j idx -> assigned idx vs j = None.
Proof.
  revert vs; induction idx as [|i idx IH]; intros [|v vs] H; simpl in *; auto.
  destruct (Nat.eqb_spec i j); [tauto | apply IH; tauto].
Qed.

Lemma nth_put_at (x : list Z) (idx : list nat) (vs : list Z) (j : nat) :
  NoDup idx -> (forall i, In i idx -> (i < length x)%nat) ->
  nth j (put_at x idx vs) 0%Z =
  match assigned idx vs j with Some v => v | None => nth j x 0%Z end.
Proof.
  revert x vs; induction idx as [|i idx IH]; intros x [|v vs] ND Hin; simpl; auto.
  inversion ND as [|? ? Hni ND']; subst.
  rewrite IH; auto.
  - destruct (Nat.eqb_spec i j) as [->|Hne].
    + rewrite assigned_notin by assumption.
      apply nth_upd_same. apply Hin; simpl; auto.
    + destruct (assigned idx vs j); auto. apply nth_upd_other; assumption.
  - intros k Hk. rewrite upd_length. apply Hin; simpl; auto.
Qed.

Lemma take_at_upd_notin (x : list Z) (idx : list nat) (i : nat) (v : Z) :
  ~ In i idx -> take_at (upd i v x) idx = take_at x idx.
Proof.
  intros H. unfold take_at. apply map_ext_in. intros k Hk.
  apply nth_upd_other. intros ->. tauto.
Qed.

Lemma sumZ_put_at (x : list Z) (idx : list nat) (vs : list Z) :
  NoDup idx -> (forall i, In i idx -> (i < length x)%nat) ->
  length vs = length idx ->
  sumZ (put_at x idx vs) = (sumZ x + sumZ vs - sumZ (take_at x idx))%Z.
Proof.
  revert x vs; induction idx as [|i idx IH]; intros x [|v vs] ND Hin Hl;
    simpl in *; try lia.
  inversion ND as [|? ? Hni ND']; subst.
  rewrite IH; auto.
  - rewrite take_at_upd_notin by assumption.
    rewrite sumZ_upd by (apply Hin; auto). fold (take_at x idx). lia.
  - intros k Hk. rewrite upd_length. apply Hin; auto.
Qed.

Lemma sumZ_zipw_add (a b : list Z) :
  length a = length b -> sumZ (zipw Z.add a b) = (sumZ a + sumZ b)%Z.
Proof.
  revert b; induction a as [|x a IH]; intros [|y b] H; simpl in *; try lia.
  rewrite IH by lia. lia.
Qed.

Lemma sumZ_zipw_sub (a b : list Z) :
  length a = length b -> sumZ (zipw Z.sub a b) = (sumZ a - sumZ b)%Z.
Proof.
  revert b; induction a as [|x a IH]; intros [|y b] H; simpl in *; try lia.
  rewrite IH by lia. lia.
Qed.


Lemma bcast_length (c : change) (n : nat) : change_ok c n -> length (bcast c n) = n.
Proof. destruct c; simpl; intros; [apply repeat_length | assumption]. Qed.

Lemma sumZ_iadd_at (x : list Z) (idx : list nat) (c : change) :
  NoDup idx -> (forall i, In i idx -> (i < length x)%nat) ->
  change_ok c (length idx) ->
  sumZ (iadd_at x idx c) = (sumZ x + sumZ (bcast c (length idx)))%Z.
Proof.
  intros ND Hin Hc. unfold iadd_at.
  pose proof (@bcast_length c (length idx) Hc) as Hb.
  rewrite sumZ_put_at; auto.
  - rewrite sumZ_zipw_add by (rewrite take_at_length; lia). lia.
  - rewrite zipw_length; rewrite take_at_length; lia.
Qed.

Lemma sumZ_isub_at (x : list Z) (idx : list nat) (c : change) :
  NoDup idx -> (forall i, In i idx -> (i < length x)%nat) ->
  change_ok c (length idx) ->
  sumZ (isub_at x idx c) = (sumZ x - sumZ (bcast c (length idx)))%Z.
Proof.
  intros ND Hin Hc. unfold isub_at.
  pose proof (@bcast_length c (length idx) Hc) as Hb.
  rewrite sumZ_put_at; auto.
  - rewrite sumZ_zipw_sub by (rewrite take_at_length; lia). lia.
  - rewrite zipw_length; rewrite take_at_length; lia.
Qed.

(** ** Draws without replacement *)

Lemma remove_at_In {A} (i : nat) (l : list A) (a : A) :
  In a (remove_at i l) -> In a l.
Proof.
  revert i; induction l as [|h t IH]; intros [|i]; simpl; auto.
  intros [->|H]; eauto.
Qed.

Lemma remove_at_NoDup {A} (i : nat) (l : list A) : NoDup l -> NoDup (remove_at i l).
Proof.
  revert i; induction l as [|h t IH]; intros [|i] H; simpl; auto;
    inversion H; subst; auto.
  constructor; auto. intros Hin. apply remove_at_In in Hin. contradiction.
Qed.

Lemma remove_at_length {A} (i : nat) (l : list A) :
  (i < length l)%nat -> S (length (remove_at i l)) = length l.
Proof.
  revert i; induction l as [|h t IH]; intros [|i] H; simpl in *; try lia.
  rewrite IH; lia.
Qed.

Lemma nth_notin_remove_at {A} (i : nat) (l : list A) (d : A) :
  NoDup l -> (i < length l)%nat -> ~ In (nth i l d) (remove_at i l).
Proof.
  revert i; induction l as [|h t IH]; intros [|i] ND H; simpl in *; try lia;
    inversion ND; subst; auto.
  intros [Heq|Hin].
  - apply H2. rewrite Heq. apply nth_In. lia.
  - revert Hin. apply IH; auto. lia.
Qed.

Lemma pick_spec {A} (d : A) (size : nat) :
  forall (pop : list A) (rs : list nat),
    NoDup pop -> (size <= length pop)%nat ->
    NoDup (pick d pop rs size)
    /\ (forall a, In a (pick d pop rs size) -> In a pop)
    /\ length (pick d pop rs size) = size.
Proof.
  induction size as [|k IH]; intros pop rs ND Hle; simpl.
  - repeat split; [constructor | intros a []].
  - assert (Hi : (hd O rs mod length pop < length pop)%nat)
      by (apply Nat.mod_upper_bound; lia).
    pose proof (remove_at_length _ Hi) as Hlen.
    destruct (IH (remove_at (hd O rs mod length pop) pop) (tl rs)) as (N1 & N2 & N3).
    { apply remove_at_NoDup; assumption. }
    { lia. }
    repeat split.
    + constructor; auto. intros Hin. apply N2 in Hin.
      revert Hin. apply nth_notin_remove_at; assumption.
    + intros a [<-|Hin]; [apply nth_In; assumption|].
      eapply remove_at_In. apply N2. exact Hin.
    + lia.
Qed.

Lemma choice_spec (pop : list nat) (size : nat) (o : Oracle) (n : nat)
      (l : list nat) (n' : nat) :
  NoDup pop -> choice pop size o n = Some (l, n') ->
  NoDup l /\ (forall a, In a l -> In a pop) /\ length l = size /\ n' = S n.
Proof.
  unfold choice. intros ND H.
  destruct (Nat.ltb_spec (length pop) size); [discriminate|].
  inversion H; subst.
  destruct (pick_spec O (o_choice o n) ND H0) as (N1 & N2 & N3). auto.
Qed.

Lemma choice_returns (pop : list nat) (size : nat) (o : Oracle) (n : nat) :
  (size <= length pop)%nat -> exists l, choice pop size o n = Some (l, S n).
Proof.
  unfold choice. intros H.
  destruct (Nat.ltb_spec (length pop) size); [lia|]. eauto.
Qed.

Lemma np_where_NoDup (c : Z -> bool) (x : list Z) : NoDup (np_where c x).
Proof. apply NoDup_filter, seq_NoDup. Qed.

Lemma np_where_In (c : Z -> bool) (x : list Z) (i : nat) :
  In i (np_where c x) <-> (i < length x)%nat /\ c (nth i x 0%Z) = true.
Proof.
  unfold np_where. rewrite filter_In, in_seq. intuition lia.
Qed.

(** ** Moves and their undoing *)


Lemma assigned_zipw (f : Z -> Z -> Z) (x : list Z) (idx : list nat)
      (cs : list Z) (j : nat) :
  length cs = length idx ->
  assigned idx (zipw f (take_at x idx) cs) j =
  option_map (f (nth j x 0%Z)) (assigned idx cs j).
Proof.
  revert cs; induction idx as [|i idx IH]; intros [|c cs] H; simpl in *;
    try discriminate; auto.
  destruct (Nat.eqb_spec i j) as [->|Hne]; auto.
Qed.

Lemma nth_iadd_at (x : list Z) (idx : list nat) (c : change) (j : nat) :
  NoDup idx -> (forall i, In i idx -> (i < length x)%nat) ->
  change_ok c (length idx) ->
  nth j (iadd_at x idx c) 0%Z = (nth j x 0 + amount idx (bcast c (length idx)) j)%Z.
Proof.
  intros ND Hin Hc. unfold iadd_at, amount.
  rewrite nth_put_at by assumption.
  rewrite assigned_zipw by (apply bcast_length; assumption).
  destruct (assigned idx _ j); simpl; lia.
Qed.

Lemma nth_isub_at (x : list Z) (idx : list nat) (c : change) (j : nat) :
  NoDup idx -> (forall i, In i idx -> (i < length x)%nat) ->
  change_ok c (length idx) ->
  nth j (isub_at x idx c) 0%Z = (nth j x 0 - amount idx (bcast c (length idx)) j)%Z.
Proof.
  intros ND Hin Hc. unfold isub_at, amount.
  rewrite nth_put_at by assumption.
  rewrite assigned_zipw by (apply bcast_length; assumption).
  destruct (assigned idx _ j); simpl; lia.
Qed.

Lemma iadd_at_length x idx c : length (iadd_at x idx c) = length x.
Proof. apply put_at_length. Qed.

Lemma isub_at_length x idx c : length (isub_at x idx c) = length x.
Proof. apply put_at_length. Qed.

Lemma move_length x tn tt ca cs : length (move x tn tt ca cs) = length x.
Proof. unfold move. now rewrite iadd_at_length, isub_at_length. Qed.


Lemma positions_length x y idx :
  length x = length y -> positions x idx -> positions y idx.
Proof. unfold positions. intros E [H1 H2]. rewrite <- E. auto. Qed.

Lemma revert_move (x : list Z) (tn tt : list nat) (ca cs : change) :
  positions x tn -> positions x tt ->
  change_ok cs (length tn) -> change_ok ca (length tt) ->
  revert (move x tn tt ca cs) tn tt ca cs = x.
Proof.
  intros [Nn Rn] [Nt Rt] Hs Ha. unfold revert, move.
  apply nth_ext with (d := 0%Z) (d' := 0%Z).
  - now rewrite isub_at_length, !iadd_at_length, isub_at_length.
  - intros j _.
    rewrite nth_isub_at, nth_iadd_at, nth_iadd_at, nth_isub_at; auto;
      try (intros i Hi; rewrite ?iadd_at_length, ?isub_at_length; auto).
    lia.
Qed.

Lemma sumZ_move (x : list Z) (tn tt : list nat) (ca cs : change) :
  positions x tn -> positions x tt ->
  change_ok cs (length tn) -> change_ok ca (length tt) ->
  sumZ (move x tn tt ca cs) =
  (sumZ x - sumZ (bcast cs (length tn)) + sumZ (bcast ca (length tt)))%Z.
Proof.
  intros [Nn Rn] [Nt Rt] Hs Ha. unfold move.
  rewrite sumZ_iadd_at, sumZ_isub_at; auto.
  intros i Hi. rewrite isub_at_length. auto.
Qed.

Lemma changes_ok (one_off : bool) (x : list Z) (tn tt : list nat) :
  change_ok (fst (changes one_off x tn tt)) (length tt)
  /\ change_ok (snd (changes one_off x tn tt)) (length tn).
Proof.
  unfold changes. destruct one_off; simpl; auto.
  now rewrite !length_map, !take_at_length.
Qed.

Lemma sumZ_repeat (z : Z) (n : nat) : sumZ (repeat z n) = (Z.of_nat n * z)%Z.
Proof. induction n; simpl repeat; simpl sumZ; [lia | rewrite IHn; lia]. Qed.


Lemma sumZ_candidate (one_off : bool) (x : list Z) (tn tt : list nat) :
  positions x tn -> positions x tt -> length tt = length tn ->
  sumZ (move x tn tt (fst (changes one_off x tn tt)) (snd (changes one_off x tn tt)))
  = (sumZ x + drift one_off x tn tt)%Z.
Proof.
  intros Pn Pt Hl. destruct (changes_ok one_off x tn tt) as [Ha Hs].
  rewrite sumZ_move by assumption.
  unfold drift, changes. destruct one_off; simpl.
  - rewrite !sumZ_repeat. lia.
  - lia.
Qed.

(** ** Reasoning in the monad *)

Lemma bind_Some {A B} (m : M A) (f : A -> M B) o n r :
  bind m f o n = Some r ->
  exists a n', m o n = Some (a, n') /\ f a o n' = Some r.
Proof.
  unfold bind. destruct (m o n) as [[a n']|]; [eauto | discriminate].
Qed.

Lemma lift_Some {A} (r : option A) o n a n' :
  lift r o n = Some (a, n') -> r = Some a /\ n' = n.
Proof. unfold lift. destruct r; intros H; inversion H; auto. Qed.

Lemma assert_Some (b : bool) o n u n' :
  assert_ b o n = Some (u, n') -> b = true /\ n' = n.
Proof. destruct b; simpl; intros H; inversion H; auto. Qed.

Lemma ret_Some {A} (a : A) o n r : ret a o n = Some r -> r = (a, n).
Proof. unfold ret. intros H; inversion H; auto. Qed.

Ltac minv H :=
  let a := fresh "a" in let n := fresh "n" in
  let H1 := fresh "H" in
  apply bind_Some in H; destruct H as (a & n & H1 & H).


Section SampleXFacts.
Variable D : Type.
Variable conditions_fn : list Z -> D -> bool.
Variable data_fn : list Z -> option D.


Lemma sample_x_attempt_spec (x x_new : list Z) o n r n' :
    length x = length x_new ->
    sample_x_attempt conditions_fn data_fn x x_new o n = Some (r, n') ->
    exists tn tt d,
      drawn x_new tn tt /\ n' = (3 + n)%nat
      /\ data_fn (candidate (o_bit o (2 + n)%nat) x_new tn tt) = Some d
      /\ let c := candidate (o_bit o (2 + n)%nat) x_new tn tt in
         (conditions_fn c d = true /\ r = (Some (c, d), c))
         \/ (conditions_fn c d = false /\ r = (None, x_new)).
  Proof.
    intros Hlen H. unfold sample_x_attempt in H.
    minv H. rename a into tn.
    apply choice_spec in H0; [|apply np_where_NoDup].
    destruct H0 as (Nn & In_n & Ln & ->).
    minv H. rename a into tt.
    apply choice_spec in H0; [|apply seq_NoDup].
    destruct H0 as (Nt & In_t & Lt & ->).
    minv H. apply assert_Some in H0. destruct H0 as [_ ->].
    minv H. unfold draw_bit in H0. inversion H0; subst; clear H0.
    apply bind_Some in H. destruct H as (ux & nx & Hax & H).
    apply assert_Some in Hax. destruct Hax as [_ ->].
    assert (Pn : positions x_new tn).
    { split; auto. intros i Hi. apply In_n, np_where_In in Hi. tauto. }
    assert (Pt : positions x_new tt).
    { split; auto. intros i Hi. apply In_t, in_seq in Hi. lia. }
    destruct (changes_ok (o_bit o (S (S n))) x_new tn tt) as [Ha Hs].
    unfold candidate.
    destruct (changes (o_bit o (S (S n))) x_new tn tt) as [ca cs] eqn:Ec.
    simpl fst in *; simpl snd in *.
    minv H. apply lift_Some in H0. destruct H0 as [Hd ->].
    assert (Hdr : drawn x_new tn tt).
    { repeat split; try apply Pn; try apply Pt; auto.
      intros i Hi. apply In_n, np_where_In in Hi. unfold ge1 in Hi.
      destruct Hi as [_ Hi]. apply Z.leb_le in Hi. exact Hi. }
    destruct (conditions_fn _ a0) eqn:Ecf; apply ret_Some in H;
      inversion H; subst; clear H; exists tn, tt, a0;
      unfold candidate; simpl plus; rewrite Ec; simpl fst; simpl snd;
      (split; [exact Hdr|split; [reflexivity|split; [exact Hd|]]]).
    - left. auto.
    - right. split; auto. f_equal.
      apply revert_move; assumption.
  Qed.

Lemma sample_x_loop_spec (left : nat) (x : list Z) o :
    forall n r n',
      sample_x_loop conditions_fn data_fn left x x o n = Some (r, n') ->
      (fst r = None /\ snd r = x /\ n' = (3 * left + n)%nat)
      \/ exists tn tt d m,
          drawn x tn tt
          /\ data_fn (candidate (o_bit o m) x tn tt) = Some d
          /\ conditions_fn (candidate (o_bit o m) x tn tt) d = true
          /\ fst r = Some (candidate (o_bit o m) x tn tt, d).
  Proof.
    induction left as [|k IH]; intros n r n' H; simpl in H.
    - apply ret_Some in H. inversion H; subst. left. simpl. auto.
    - minv H. destruct a as [c w].
      apply sample_x_attempt_spec in H0; [|reflexivity].
      destruct H0 as (tn & tt & d & Hdr & -> & Hd & [[Hc Hr]|[Hc Hr]]);
        inversion Hr; subst; clear Hr.
      + apply ret_Some in H. inversion H; subst.
        right. exists tn, tt, d, (2 + n)%nat. simpl. auto.
      + apply IH in H. destruct H as [(H1 & H2 & H3)|H]; [left|right; exact H].
        repeat split; auto. lia.
  Qed.

Lemma sample_x_spec (x : list Z) (data : D) o n x' d' n' :
    sample_x conditions_fn data_fn x data o n = Some ((x', d'), n') ->
    (x' = x /\ d' = data)
    \/ exists tn tt m,
        drawn x tn tt
        /\ x' = candidate (o_bit o m) x tn tt
        /\ data_fn x' = Some d'
        /\ conditions_fn x' d' = true.
  Proof.
    unfold sample_x. intros H. minv H.
    apply sample_x_loop_spec in H0.
    destruct H0 as [(H1 & _)|(tn & tt & d & m & Hdr & Hd & Hc & Hr)].
    - rewrite H1 in H. apply ret_Some in H. inversion H; auto.
    - rewrite Hr in H. apply ret_Some in H. inversion H; subst.
      right. exists tn, tt, m. auto.
  Qed.
End SampleXFacts.

Lemma Rleb_true a b : Rleb a b = true <-> (a <= b)%R.
Proof. unfold Rleb. destruct (Rle_dec a b); split; auto; discriminate. Qed.

Lemma Rleb_false a b : Rleb a b = false <-> ~ (a <= b)%R.
Proof. unfold Rleb. destruct (Rle_dec a b); split; auto; try discriminate; tauto. Qed.

Section MHFacts.
Variables X D CF : Type.
Variable fn : X -> D -> option R.
Variable proposal : X -> D -> CF -> M (X * D).
Variable conditions_fn : CF.

Lemma metropolis_hastings_inv x data o n x' d' lp old n' :
    metropolis_hastings fn proposal conditions_fn x data 1 o n
      = Some ((x', d', lp, old), n') ->
    exists x_new d_new n1 a b,
      proposal x data conditions_fn o n = Some ((x_new, d_new), n1)
      /\ fn x_new d_new = Some a /\ fn x data = Some b
      /\ n' = S n1 /\ old = b
      /\ (((ln (o_unif o n1) <= Rmin 0 (a - b))%R
           /\ x' = x_new /\ d' = d_new /\ lp = a)
          \/ (~ (ln (o_unif o n1) <= Rmin 0 (a - b))%R
              /\ x' = x /\ d' = data /\ lp = b)).
  Proof.
    unfold metropolis_hastings. intros H.
    apply bind_Some in H. destruct H as (b & m0 & Hb & H).
    apply lift_Some in Hb. destruct Hb as [Hb ->].
    apply bind_Some in H. destruct H as ([y dy] & m1 & Hloop & H).
    apply bind_Some in H. destruct H as (lp' & m2 & Hlp & H).
    apply lift_Some in Hlp. destruct Hlp as [Hlp ->].
    apply ret_Some in H. inversion H; subst; clear H.
    simpl in Hloop.
    apply bind_Some in Hloop. destruct Hloop as ([x_new d_new] & n1 & Hp & H).
    apply bind_Some in H. destruct H as (a & m3 & Ha & H).
    apply lift_Some in Ha. destruct Ha as [Ha ->].
    apply bind_Some in H. destruct H as (b' & m4 & Hb' & H).
    apply lift_Some in Hb'. destruct Hb' as [Hb' ->].
    rewrite Hb in Hb'. inversion Hb'; subst b'; clear Hb'.
    apply bind_Some in H. destruct H as (u & m5 & Hu & H).
    unfold draw_unif in Hu. inversion Hu; subst; clear Hu.
    exists x_new, d_new, n1, a, b.
    destruct (Rleb _ _) eqn:E; apply ret_Some in H; inversion H; subst.
    - apply Rleb_true in E. rewrite Ha in Hlp. inversion Hlp; subst.
      repeat (split; [solve [auto]|]). left. auto.
    - apply Rleb_false in E. rewrite Hb in Hlp. inversion Hlp; subst.
      repeat (split; [solve [auto]|]). right. auto.
  Qed.

Lemma metropolis_hastings_run x data o n x_new d_new n1 a b :
    proposal x data conditions_fn o n = Some ((x_new, d_new), n1) ->
    fn x_new d_new = Some a -> fn x data = Some b ->
    metropolis_hastings fn proposal conditions_fn x data 1 o n =
    Some (if Rleb (ln (o_unif o n1)) (Rmin 0 (a - b))
          then (x_new, d_new, a, b) else (x, data, b, b), S n1).
  Proof.
    intros Hp Ha Hb. unfold metropolis_hastings, mh_loop, bind, lift, draw_unif.
    rewrite Hb, Hp, Ha.
    destruct (Rleb _ _); unfold ret; rewrite ?Ha, ?Hb; reflexivity.
  Qed.
End MHFacts.

(** C6.  One step of [metropolis_hastings], for any log-density [fn], any
    proposal and any feasibility predicate, with [u] the uniform draw in
    (0, 1) made after the proposal returned the candidate
    [(x_new, data_new)]: when [ln u <= min(0, fn(x_new, data_new) - fn(x, data))]
    the driver returns the candidate, its data, the log-density of the
    candidate and the log-density of the sample it was given; otherwise it
    returns the sample and the data it was given, unchanged, with the
    log-density of that sample twice. *)
Theorem metropolis_hastings_step (X D CF : Type) (fn : X -> D -> option R)
    (proposal : X -> D -> CF -> M (X * D)) (conditions_fn : CF)
    (x : X) (data : D) (o : Oracle) (n : nat)
    (x_new : X) (data_new : D) (n1 : nat) (lp_new lp_old : R) :
  let u := o_unif o n1 in
  (0 < u < 1)%R ->
  proposal x data conditions_fn o n = Some ((x_new, data_new), n1) ->
  fn x_new data_new = Some lp_new ->
  fn x data = Some lp_old ->
  ((ln u <= Rmin 0 (lp_new - lp_old))%R ->
   metropolis_hastings fn proposal conditions_fn x data 1 o n
   = Some ((x_new, data_new, lp_new, lp_old), S n1))
  /\ (~ (ln u <= Rmin 0 (lp_new - lp_old))%R ->
      metropolis_hastings fn proposal conditions_fn x data 1 o n
      = Some ((x, data, lp_old, lp_old), S n1)).
Proof.
  intros u Hu Hp Ha Hb.
  rewrite (metropolis_hastings_run fn proposal conditions_fn x data o n Hp Ha Hb).
  fold u. split; intros H.
  - apply Rleb_true in H. rewrite H. reflexivity.
  - apply Rleb_false in H. rewrite H. reflexivity.
Qed.

Lemma metropolis_hastings_step_witness :
  metropolis_hastings (fun (_ : list Z) (_ : unit) => Some 0%R)
    (fun x d (_ : unit) => ret (x, d)) tt [1%Z] tt 1 gen_unit 0
  = Some (([1%Z], tt, 0%R, 0%R), 1%nat).
Proof.
  refine (proj1 (@metropolis_hastings_step (list Z) unit unit
                   (fun _ _ => Some 0%R) (fun x d _ => ret (x, d)) tt
                   [1%Z] tt gen_unit 0%nat [1%Z] tt 0%nat 0%R 0%R
                   _ eq_refl eq_refl eq_refl) _).
  - simpl. lra.
  - simpl. rewrite Rminus_diag, Rmin_left by lra.
    rewrite <- ln_1. left. apply ln_increasing; lra.
Defined.

(** ** The single-site resampler: failed attempts and the total of the series *)

(** C7.  An attempt of [sample_x] whose candidate fails the feasibility
    predicate leaves the working series exactly as it found it, and when all
    100 attempts fail the working series is the original one and [sample_x]
    returns the original series with the original data. *)
Theorem sample_x_failed_attempts_leave_no_trace
    (D : Type) (conditions_fn : list Z -> D -> bool)
    (data_fn : list Z -> option D) (x : list Z) (data : D) (o : Oracle) (n : nat) :
  (forall x_new m w m',
      length x = length x_new ->
      sample_x_attempt conditions_fn data_fn x x_new o m = Some ((None, w), m') ->
      w = x_new)
  /\ (forall w n',
      sample_x_loop conditions_fn data_fn 100 x x o n = Some ((None, w), n') ->
      w = x /\ sample_x conditions_fn data_fn x data o n = Some ((x, data), n')).
Proof.
  split.
  - intros x_new m w m' Hlen H.
    apply sample_x_attempt_spec in H; [|assumption].
    destruct H as (tn & tt & d & _ & _ & _ & [[_ H]|[_ H]]); inversion H; auto.
  - intros w n' H. pose proof H as H0.
    apply sample_x_loop_spec in H0.
    destruct H0 as [(_ & Hw & _)|(tn & tt & d & m & _ & _ & _ & Hr)];
      [|discriminate Hr].
    simpl in Hw. split; [assumption|].
    unfold sample_x, bind. rewrite H. reflexivity.
Qed.

Lemma sample_x_failed_attempts_leave_no_trace_witness :
  sample_x (fun _ (_ : unit) => false) (fun _ => Some tt) [2; 0; 1]%Z tt gen_unit 0
  = Some (([2; 0; 1]%Z, tt), 300%nat).
Proof.
  refine (proj2 (proj2 (sample_x_failed_attempts_leave_no_trace
           (fun _ (_ : unit) => false) (fun _ => Some tt) [2; 0; 1]%Z tt gen_unit 0)
           [2; 0; 1]%Z 300%nat _)).
  vm_compute. reflexivity.
Defined.

(** C1, as the code has it.  One Metropolis step over the single-site
    resampler returns either the series it was given (the proposal was
    rejected, or no attempt was feasible) or the candidate of one draw; the
    total of a candidate of the unit swap is the total of the series, and the
    total of a candidate of the proportional swap differs from it by the sum
    of [x[dst] // 79] over the destinations minus the sum of [x[src] // 80]
    over the sources. *)
Theorem single_site_step_total
    (D : Type) (fn : list Z -> D -> option R)
    (conditions_fn : list Z -> D -> bool) (data_fn : list Z -> option D)
    (x : list Z) (data : D) (o : Oracle) (n : nat)
    (x' : list Z) (d' : D) (lp old : R) (n' : nat) :
  metropolis_hastings fn (fun y d cf => sample_x cf data_fn y d)
    conditions_fn x data 1 o n = Some ((x', d', lp, old), n') ->
  ((x' = x /\ d' = data)
   \/ exists tn tt m,
       drawn x tn tt /\ x' = candidate (o_bit o m) x tn tt
       /\ sumZ x' = (sumZ x + drift (o_bit o m) x tn tt)%Z)
  /\ ((forall m, o_bit o m = true) -> sumZ x' = sumZ x).
Proof.
  intros H. apply metropolis_hastings_inv in H.
  destruct H as (x_new & d_new & n1 & a & b & Hp & _ & _ & _ & _ & Hacc).
  apply sample_x_spec in Hp.
  assert (Hmain : (x' = x /\ d' = data)
                  \/ exists tn tt m,
                      drawn x tn tt /\ x' = candidate (o_bit o m) x tn tt
                      /\ sumZ x' = (sumZ x + drift (o_bit o m) x tn tt)%Z).
  { destruct Hacc as [(_ & -> & -> & _)|(_ & -> & -> & _)]; [|left; auto].
    destruct Hp as [[-> ->]|(tn & tt & m & Hdr & Hx & _)]; [left; auto|].
    right. exists tn, tt, m. repeat split; try apply Hdr; auto.
    rewrite Hx. destruct Hdr as (Pn & Pt & Hl & _).
    apply sumZ_candidate; assumption. }
  split; [exact Hmain|].
  intros Hbits. destruct Hmain as [[-> _]|(tn & tt & m & _ & _ & Hs)]; auto.
  rewrite Hs, Hbits. simpl. lia.
Qed.

Lemma single_site_step_total_witness :
  sumZ [3; 1; 0]%Z = sumZ [3; 0; 1]%Z.
Proof.
  refine (proj2 (@single_site_step_total unit (fun _ _ => Some 0%R)
            (fun _ _ => true) (fun _ => Some tt) [3; 0; 1]%Z tt gen_unit 0
            [3; 1; 0]%Z tt 0%R 0%R 4%nat _) (fun _ => eq_refl)).
  rewrite (@metropolis_hastings_run (list Z) unit _ (fun _ _ => Some 0%R)
             (fun y d cf => sample_x cf (fun _ => Some tt) y d) (fun _ _ => true)
             [3; 0; 1]%Z tt gen_unit 0%nat [3; 1; 0]%Z tt 3%nat 0%R 0%R);
    [|vm_compute; reflexivity|reflexivity|reflexivity].
  replace (Rleb _ _) with true; [reflexivity|].
  symmetry. apply Rleb_true. simpl o_unif.
  rewrite Rminus_diag, Rmin_left by lra.
  rewrite <- ln_1. left. apply ln_increasing; lra.
Defined.

(** C1, counterexample.  With [B = [80, 0]], [C = [0, 0]],
    [N = [500, 500]] and [inits = (50, 10, 10)], the proposal of [sample_B]
    whose source is day 0, whose destination is day 1 and whose bit is 0 is
    feasible and is [[79, 0]]: the total went from 80 to 79. *)
Lemma proportional_swap_changes_total :
  sample_x B_conditions_fn (B_data_fn (50, 10, 10)%Z [0; 0]%Z [500; 500]%Z)
    [80; 0]%Z ([500; 420]%Z, [50; 130]%Z) gen_prop 0
  = Some (([79; 0]%Z, ([500; 421]%Z, [50; 129]%Z)), 3%nat)
  /\ sumZ [79; 0]%Z <> sumZ [80; 0]%Z.
Proof.
  split; [vm_compute; reflexivity | vm_compute; discriminate].
Qed.

(** ** The recursion library *)

Lemma np_zip_same {A B C} (f : A -> B -> C) (a : list A) (b : list B) :
  length a = length b -> np_zip f a b = Some (zipw f a b).
Proof. unfold np_zip. intros ->. now rewrite Nat.eqb_refl. Qed.

Lemma nth_zipw {A B C} (f : A -> B -> C) (a : list A) (b : list B) da db dc t :
  length a = length b -> (t < length a)%nat ->
  nth t (zipw f a b) dc = f (nth t a da) (nth t b db).
Proof.
  revert b t; induction a as [|x a IH]; intros [|y b] [|t] Hl Ht;
    simpl in *; try lia; auto.
  apply IH; lia.
Qed.

Lemma nth_map_in {A B} (f : A -> B) (l : list A) (da : A) (db : B) t :
  (t < length l)%nat -> nth t (map f l) db = f (nth t l da).
Proof.
  revert t; induction l as [|x l IH]; intros [|t] H; simpl in *; try lia; auto.
  apply IH; lia.
Qed.

Lemma cumsum_from_length acc l : length (cumsum_from acc l) = length l.
Proof. revert acc; induction l; intros; simpl; auto. Qed.

Lemma nth_cumsum_from acc l t :
  (t < length l)%nat ->
  nth t (cumsum_from acc l) 0%Z = (acc + sumZ (firstn (S t) l))%Z.
Proof.
  revert acc t; induction l as [|x l IH]; intros acc t H; [simpl in H; lia|].
  destruct t as [|t].
  - unfold sumZ; simpl. lia.
  - simpl cumsum_from. simpl nth. rewrite IH by (simpl in H; lia).
    change (firstn (S (S t)) (x :: l)) with (x :: firstn (S t) l).
    unfold sumZ; simpl fold_right. lia.
Qed.

Lemma removelast_length {A} (l : list A) : length (removelast l) = pred (length l).
Proof.
  induction l as [|x l IH]; simpl; auto.
  destruct l; simpl in *; auto.
Qed.

Lemma nth_removelast {A} (l : list A) (d : A) t :
  (S t < length l)%nat -> nth t (removelast l) d = nth t l d.
Proof.
  revert t; induction l as [|x l IH]; intros t H; simpl in *; try lia.
  destruct l as [|y l]; simpl in *; try lia.
  destruct t; auto. apply IH. simpl. lia.
Qed.

Lemma shifted_cumsum_length a :
  a <> [] -> length (shifted_cumsum a) = length a.
Proof.
  intros H. unfold shifted_cumsum, cumsum. simpl.
  rewrite removelast_length, cumsum_from_length.
  destruct a; simpl; congruence.
Qed.

Lemma nth_shifted_cumsum a t :
  (t < length a)%nat -> nth t (shifted_cumsum a) 0%Z = sumZ (firstn t a).
Proof.
  intros H. unfold shifted_cumsum, cumsum. destruct t; simpl; auto.
  rewrite nth_removelast by (rewrite cumsum_from_length; lia).
  rewrite nth_cumsum_from by lia. simpl. lia.
Qed.

(** The value of [compute_S] on day [t], for series of one length. *)
Lemma compute_S_spec (e0 i_mild0 i_wild0 : Z) (B N : list Z) :
  length B = length N -> N <> [] ->
  exists S_,
    compute_S e0 i_mild0 i_wild0 B N = Some S_
    /\ length S_ = length N
    /\ forall t, (t < length N)%nat ->
         nth t S_ 0%Z
         = (nth 0 N 0 - sumZ (firstn t B) + nth t N 0 - nth 0 N 0)%Z.
Proof.
  intros Hl HN.
  assert (HB : B <> []) by (destruct B, N; simpl in *; congruence).
  destruct N as [|n0 N']; [congruence|].
  remember (n0 :: N') as N eqn:EN.
  assert (Hlen : length (map (fun c => (n0 - c)%Z) (shifted_cumsum B)) = length N).
  { rewrite length_map, shifted_cumsum_length; assumption. }
  exists (map (fun v => (v - n0)%Z)
            (zipw Z.add (map (fun c => (n0 - c)%Z) (shifted_cumsum B)) N)).
  split; [|split].
  - unfold compute_S. rewrite EN, <- EN.
    rewrite np_zip_same by assumption. reflexivity.
  - rewrite length_map, zipw_length; assumption.
  - intros t Ht.
    rewrite nth_map_in with (da := 0%Z) by (rewrite zipw_length; lia).
    rewrite nth_zipw with (da := 0%Z) (db := 0%Z) by lia.
    rewrite nth_map_in with (da := 0%Z)
      by (rewrite shifted_cumsum_length by assumption; lia).
    rewrite nth_shifted_cumsum by lia.
    replace (nth 0 N 0%Z) with n0 by (rewrite EN; reflexivity). lia.
Qed.

(** C10.  [compute_S] ignores its first three arguments: two calls that
    differ only in [(e0, i_mild0, i_wild0)] return the same thing; and for
    series of one length [T >= 1] what is returned is the series of length
    [T] whose entry on day [t] is
    [N(0) - (B(0) + ... + B(t-1)) + N(t) - N(0)]. *)
Theorem compute_S_ignores_inits (B N : list Z) :
  (forall e0 i_mild0 i_wild0 e0' i_mild0' i_wild0',
      compute_S e0 i_mild0 i_wild0 B N = compute_S e0' i_mild0' i_wild0' B N)
  /\ (length B = length N -> N <> [] ->
      forall e0 i_mild0 i_wild0,
      exists S_,
        compute_S e0 i_mild0 i_wild0 B N = Some S_
        /\ length S_ = length N
        /\ forall t, (t < length N)%nat ->
             nth t S_ 0%Z
             = (nth 0 N 0 - sumZ (firstn t B) + nth t N 0 - nth 0 N 0)%Z).
Proof.
  split.
  - intros e0 i_mild0 i_wild0 e0' i_mild0' i_wild0'.
    unfold compute_S. destruct N; reflexivity.
  - intros Hl HN e0 i_mild0 i_wild0. apply compute_S_spec; assumption.
Qed.

Lemma compute_S_ignores_inits_witness :
  exists S_,
    compute_S 50 10 10 [3; 4; 5]%Z [500; 501; 499]%Z = Some S_
    /\ length S_ = 3%nat
    /\ forall t, (t < 3)%nat ->
         nth t S_ 0%Z
         = (500 - sumZ (firstn t [3; 4; 5]) + nth t [500; 501; 499] 0 - 500)%Z.
Proof.
  apply (proj2 (compute_S_ignores_inits [3; 4; 5]%Z [500; 501; 499]%Z)
           eq_refl ltac:(discriminate) 50%Z 10%Z 10%Z).
Defined.

(** ** The transmission rate *)

Lemma py_index_nonneg (n : nat) (i : Z) :
  (0 <= i < Z.of_nat n)%Z -> py_index n i = Some (Z.to_nat i).
Proof.
  intros [H1 H2]. unfold py_index.
  apply Z.leb_le in H1. apply Z.ltb_lt in H2. now rewrite H1, H2.
Qed.

Lemma np_put_map {A} (f : Z -> A) (d : A) (idx : list Z) :
  forall a : list A,
    (forall i, In i idx -> (0 <= i < Z.of_nat (length a))%Z) ->
    exists a',
      np_put a idx (map f idx) = Some a'
      /\ length a' = length a
      /\ forall j,
          (In (Z.of_nat j) idx -> nth j a' d = f (Z.of_nat j))
          /\ (~ In (Z.of_nat j) idx -> nth j a' d = nth j a d).
Proof.
  induction idx as [|i idx IH]; intros a Hin; simpl.
  - exists a. repeat split; auto. intros [].
  - assert (Hi : (0 <= i < Z.of_nat (length a))%Z) by (apply Hin; simpl; auto).
    rewrite py_index_nonneg by assumption.
    destruct (IH (upd (Z.to_nat i) (f i) a)) as (a' & E & L & Hn).
    { intros k Hk. rewrite upd_length. apply Hin; simpl; auto. }
    exists a'. rewrite upd_length in L. repeat split; auto.
    + intros [Heq|Hj].
      * destruct (in_dec Z.eq_dec (Z.of_nat j) idx) as [Hj|Hj].
        { apply Hn; assumption. }
        { destruct (Hn j) as [_ Hn2]. rewrite Hn2 by assumption.
          subst i. rewrite Nat2Z.id. apply nth_upd_same. lia. }
      * apply Hn; assumption.
    + intros Hj. destruct (Hn j) as [_ Hn2]. rewrite Hn2 by tauto.
      apply nth_upd_other. intros Heq. apply Hj. left. lia.
Qed.

Lemma In_py_range (lo hi i : Z) : In i (py_range lo hi) <-> (lo <= i < hi)%Z.
Proof.
  unfold py_range. rewrite in_map_iff. split.
  - intros (k & <- & Hk). apply in_seq in Hk. lia.
  - intros H. exists (Z.to_nat (i - lo)). split; [lia|]. apply in_seq. lia.
Qed.

Lemma sign_test_passes (b : bool) : (Z.b2z b >=? 0)%Z = true.
Proof. destruct b; reflexivity. Qed.

(** The value of [transmission_rate] on day [t]. *)
Lemma transmission_rate_spec (beta q : R) (t_ctrl t_end : Z) :
  (0 <= t_ctrl)%Z -> (0 <= t_end)%Z ->
  exists l,
    transmission_rate beta q t_ctrl t_end = Some l
    /\ length l = Z.to_nat t_end
    /\ forall t, (0 <= t < t_end)%Z ->
         nth (Z.to_nat t) l 0%R
         = if (t <? t_ctrl)%Z then beta
           else (beta * exp (- q * IZR (t - t_ctrl)))%R.
Proof.
  intros Hc He. unfold transmission_rate.
  destruct (Z.ltb_spec t_end 0) as [|_]; [lia|].
  set (ones := map (fun _ => (1 * beta)%R) (seq 0 (Z.to_nat t_end))).
  assert (Lones : length ones = Z.to_nat t_end)
    by (unfold ones; now rewrite length_map, length_seq).
  assert (Nones : forall t, (0 <= t < t_end)%Z -> nth (Z.to_nat t) ones 0%R = beta).
  { intros t Ht. unfold ones.
    rewrite nth_map_in with (da := O) by (rewrite length_seq; lia). lra. }
  destruct (Z.ltb_spec t_ctrl t_end) as [Hlt|Hge].
  - destruct (@np_put_map R (fun i => (beta * exp (- q * IZR (i - t_ctrl)))%R) 0%R
                (py_range t_ctrl t_end) ones) as (l & E & L & Hn).
    { intros i Hi. apply In_py_range in Hi. rewrite Lones. lia. }
    rewrite E. simpl opt_bind. rewrite sign_test_passes.
    exists l. split; [reflexivity|]. split; [congruence|].
    intros t Ht. destruct (Hn (Z.to_nat t)) as [H1 H2].
    rewrite Z2Nat.id in H1, H2 by lia. rewrite In_py_range in H1, H2.
    destruct (Z.ltb_spec t t_ctrl).
    + rewrite H2 by lia. apply Nones; assumption.
    + apply H1. lia.
  - simpl opt_bind. rewrite sign_test_passes.
    exists ones. split; [reflexivity|]. split; [assumption|].
    intros t Ht. destruct (Z.ltb_spec t t_ctrl); [|lia]. apply Nones; assumption.
Qed.

(** C8.  For [t_ctrl >= 0] and [t_end >= 1], [transmission_rate] returns a
    sequence of length [t_end] that is [beta] before day [t_ctrl] and
    [beta * exp(-q * (t - t_ctrl))] from day [t_ctrl] on; it is constantly
    [beta] when [t_ctrl >= t_end]; and
    [transmission_rate(2.0, 0.1, 0, 3) = [2.0, 2.0*exp(-0.1), 2.0*exp(-0.2)]]. *)
Theorem transmission_rate_values (beta q : R) (t_ctrl t_end : Z) :
  (0 <= t_ctrl)%Z -> (1 <= t_end)%Z ->
  (exists l,
      transmission_rate beta q t_ctrl t_end = Some l
      /\ length l = Z.to_nat t_end
      /\ (forall t, (0 <= t < t_end)%Z ->
            nth (Z.to_nat t) l 0%R
            = if (t <? t_ctrl)%Z then beta
              else (beta * exp (- q * IZR (t - t_ctrl)))%R)
      /\ ((t_end <= t_ctrl)%Z -> l = repeat beta (Z.to_nat t_end)))
  /\ transmission_rate 2 (1 / 10) 0 3
     = Some [2; 2 * exp (- (1 / 10)); 2 * exp (- (2 / 10))]%R.
Proof.
  intros Hc He. split.
  - destruct (@transmission_rate_spec beta q t_ctrl t_end) as (l & E & L & Hn);
      try lia.
    exists l. repeat split; auto.
    intros Hge. apply nth_ext with (d := 0%R) (d' := 0%R).
    + now rewrite repeat_length.
    + intros k Hk. rewrite nth_repeat_lt by lia.
      specialize (Hn (Z.of_nat k)). rewrite Nat2Z.id in Hn.
      rewrite Hn by lia. destruct (Z.ltb_spec (Z.of_nat k) t_ctrl); [reflexivity|lia].
  - destruct (@transmission_rate_spec 2 (1 / 10) 0 3) as (l & E & L & Hn);
      try lia.
    rewrite E. f_equal.
    destruct l as [|a [|b [|c [|? ?]]]]; try discriminate L.
    pose proof (Hn 0%Z ltac:(lia)) as H0.
    pose proof (Hn 1%Z ltac:(lia)) as H1.
    pose proof (Hn 2%Z ltac:(lia)) as H2.
    simpl in H0, H1, H2. subst a b c.
    repeat f_equal; try lra.
    replace (- (1 / 10) * 0)%R with 0%R by lra. rewrite exp_0. lra.
Qed.

Lemma transmission_rate_values_witness :
  transmission_rate 2 (1 / 10) 0 3
  = Some [2; 2 * exp (- (1 / 10)); 2 * exp (- (2 / 10))]%R.
Proof.
  apply (proj2 (@transmission_rate_values 2 (1 / 10) 0 3
                  ltac:(lia) ltac:(lia))).
Defined.

(** C4, at the failing input.  [transmission_rate(-1.0, 0.1, 0, 3)] returns
    normally, and every entry of what it returns is negative. *)
Theorem transmission_rate_returns_negative_rates :
  exists l,
    transmission_rate (- 1) (1 / 10) 0 3 = Some l
    /\ length l = 3%nat
    /\ Forall (fun r => (r < 0)%R) l.
Proof.
  destruct (@transmission_rate_spec (- 1) (1 / 10) 0 3) as (l & E & L & Hn);
    try lia.
  exists l. repeat split; auto.
  destruct l as [|a [|b [|c [|? ?]]]]; try discriminate L.
  pose proof (Hn 0%Z ltac:(lia)) as H0.
  pose proof (Hn 1%Z ltac:(lia)) as H1.
  pose proof (Hn 2%Z ltac:(lia)) as H2.
  simpl in H0, H1, H2. subst a b c.
  repeat constructor;
    match goal with |- (-1 * exp ?y < 0)%R => pose proof (exp_pos y); lra end.
Qed.

(** ** The infection probability *)

Lemma Forall_nth_lt {A} (P : A -> Prop) (l : list A) (d : A) :
  (forall t, (t < length l)%nat -> P (nth t l d)) -> Forall P l.
Proof.
  intros H. apply Forall_forall. intros x Hx.
  destruct (In_nth l x d Hx) as (t & Ht & <-). auto.
Qed.

Lemma prob_of_rate (r : R) (i n : Z) :
  (0 <= r)%R -> (0 <= i)%Z -> (0 < n)%Z ->
  (0 <= 1 - exp (- r * IZR i / IZR n) <= 1)%R.
Proof.
  intros Hr Hi Hn.
  assert (Hi' : (0 <= IZR i)%R) by (apply IZR_le; assumption).
  assert (Hn' : (0 < IZR n)%R) by (apply IZR_lt; assumption).
  assert (Hy : (- r * IZR i / IZR n <= 0)%R).
  { pose proof (Rinv_0_lt_compat _ Hn') as Hinv.
    pose proof (Rmult_le_pos _ _ (Rmult_le_pos _ _ Hr Hi') (Rlt_le _ _ Hinv)) as Hq.
    replace (- r * IZR i / IZR n)%R with (- (r * IZR i * / IZR n))%R
      by (unfold Rdiv; ring).
    lra. }
  pose proof (exp_pos (- r * IZR i / IZR n)) as Hp.
  assert (exp (- r * IZR i / IZR n) <= 1)%R.
  { rewrite <- exp_0. destruct Hy as [Hy|Hy].
    - left. apply exp_increasing. assumption.
    - rewrite Hy. right. reflexivity. }
  lra.
Qed.

(** The value of [compute_P] on day [t], for series of one length. *)
Lemma compute_P_spec (trans_rate : list R) (I_mild I_wild N : list Z) :
  length I_mild = length trans_rate -> length I_wild = length trans_rate ->
  length N = length trans_rate ->
  exists P,
    compute_P trans_rate I_mild I_wild N = Some P
    /\ length P = length trans_rate
    /\ forall t, (t < length trans_rate)%nat ->
         nth t P 0%R
         = (1 - exp (- nth t trans_rate 0
                     * IZR (nth t I_mild 0%Z + nth t I_wild 0%Z)
                     / IZR (nth t N 0%Z)))%R.
Proof.
  intros Lm Lw Ln. unfold compute_P.
  rewrite np_zip_same by congruence. simpl opt_bind.
  rewrite np_zip_same
    by (rewrite length_map, zipw_length; congruence).
  simpl opt_bind.
  rewrite np_zip_same
    by (rewrite zipw_length; rewrite length_map, ?zipw_length; congruence).
  simpl opt_bind.
  eexists. split; [reflexivity|].
  assert (L1 : length (zipw Z.add I_mild I_wild) = length trans_rate)
    by (rewrite zipw_length; congruence).
  assert (L2 : length (zipw (fun r v => (r * IZR v)%R) (map Ropp trans_rate)
                         (zipw Z.add I_mild I_wild)) = length trans_rate)
    by (rewrite zipw_length; rewrite length_map; congruence).
  split.
  - rewrite length_map, zipw_length; congruence.
  - intros t Ht.
    rewrite nth_map_in with (da := 0%R) by (rewrite zipw_length; lia).
    rewrite nth_zipw with (da := 0%R) (db := 0%Z) by lia.
    rewrite nth_zipw with (da := 0%R) (db := 0%Z)
      by (rewrite ?length_map; lia).
    rewrite nth_map_in with (da := 0%R) by lia.
    rewrite nth_zipw with (da := 0%Z) (db := 0%Z) by lia.
    reflexivity.
Qed.

(** C9.  For series of one length, a non-negative transmission rate,
    non-negative [I_mild] and [I_wild] with [I_mild(t) + I_wild(t) <= N(t)]
    and a positive [N], every entry of [compute_P] lies in [0, 1]. *)
Theorem compute_P_bounded (trans_rate : list R) (I_mild I_wild N : list Z) :
  length I_mild = length trans_rate -> length I_wild = length trans_rate ->
  length N = length trans_rate ->
  Forall (fun r => (0 <= r)%R) trans_rate ->
  Forall (fun v => (0 <= v)%Z) I_mild -> Forall (fun v => (0 <= v)%Z) I_wild ->
  (forall t, (t < length N)%nat ->
     (nth t I_mild 0 + nth t I_wild 0 <= nth t N 0)%Z) ->
  Forall (fun v => (0 < v)%Z) N ->
  exists P,
    compute_P trans_rate I_mild I_wild N = Some P
    /\ length P = length trans_rate
    /\ Forall (fun p => (0 <= p <= 1)%R) P.
Proof.
  intros Lm Lw Ln Hr Hm Hw _ HN.
  destruct (compute_P_spec trans_rate I_mild I_wild N Lm Lw Ln) as (P & E & L & Hn).
  exists P. repeat split; auto.
  apply Forall_nth_lt with (d := 0%R). intros t Ht. rewrite L in Ht.
  rewrite Hn by assumption.
  rewrite Forall_forall in Hr, Hm, Hw, HN.
  apply prob_of_rate.
  - apply Hr, nth_In. lia.
  - assert (0 <= nth t I_mild 0)%Z by (apply Hm, nth_In; lia).
    assert (0 <= nth t I_wild 0)%Z by (apply Hw, nth_In; lia). lia.
  - apply HN, nth_In. lia.
Qed.

Lemma compute_P_bounded_witness :
  exists P,
    compute_P [1; / 2]%R [10; 12]%Z [10; 9]%Z [500; 500]%Z = Some P
    /\ length P = 2%nat
    /\ Forall (fun p => (0 <= p <= 1)%R) P.
Proof.
  apply (@compute_P_bounded [1; / 2]%R [10; 12]%Z [10; 9]%Z [500; 500]%Z);
    try reflexivity.
  - repeat constructor; lra.
  - repeat constructor; lia.
  - repeat constructor; lia.
  - intros [|[|t]] Ht; simpl in *; lia.
  - repeat constructor; lia.
Defined.

(** ** The representation invariant *)

Lemma nonempty_of_length {A} (T : nat) (HT : (1 <= T)%nat) (l : list A) :
  length l = T -> l <> [].
Proof. intros Hl ->; simpl in Hl; lia. Qed.

Lemma all_ge0_iff (l : list Z) : all_ge0 l = true <-> nonneg l.
Proof.
  unfold all_ge0, nonneg. rewrite forallb_forall, Forall_forall.
  split; intros H x Hx; apply Z.leb_le; auto.
Qed.

Lemma Rltb_true a b : Rltb a b = true <-> (a < b)%R.
Proof. unfold Rltb. destruct (Rlt_dec a b); split; auto; discriminate. Qed.

Lemma Rltb_false a b : Rltb a b = false <-> ~ (a < b)%R.
Proof. unfold Rltb. destruct (Rlt_dec a b); split; auto; try discriminate; tauto. Qed.

Lemma Reqb_true a b : Reqb a b = true <-> a = b.
Proof. unfold Reqb. destruct (Req_dec_T a b); split; auto; discriminate. Qed.

Lemma forallb_zipw_eq {A} (eqb : A -> A -> bool) (a b : list A) :
  (forall x y, eqb x y = true <-> x = y) -> length a = length b ->
  (forallb (fun v => v) (zipw eqb a b) = true <-> a = b).
Proof.
  intros Heq. revert b; induction a as [|x a IH]; intros [|y b] Hl;
    simpl in *; try discriminate; [tauto|].
  rewrite andb_true_iff, Heq, IH by lia. split.
  - intros [-> ->]; reflexivity.
  - intros H; inversion H; auto.
Qed.

Lemma arr_eqZ_iff (a b : list Z) : length a = length b -> (arr_eqZ a b = true <-> a = b).
Proof.
  intros Hl. unfold arr_eqZ. rewrite np_zip_same by assumption.
  apply forallb_zipw_eq; [apply Z.eqb_eq | assumption].
Qed.

Lemma arr_eqR_iff (a b : list R) : length a = length b -> (arr_eqR a b = true <-> a = b).
Proof.
  intros Hl. unfold arr_eqR. rewrite np_zip_same by assumption.
  apply forallb_zipw_eq; [apply Reqb_true | assumption].
Qed.

Lemma compute_E_total (e0 : Z) (B C : list Z) :
  length B = length C -> B <> [] ->
  exists E, compute_E e0 B C = Some E /\ length E = length B.
Proof.
  intros Hl HB. unfold compute_E. rewrite np_zip_same by assumption.
  unfold opt_bind. eexists. split; [reflexivity|].
  rewrite length_map, shifted_cumsum_length.
  - apply zipw_length; assumption.
  - destruct B, C; simpl in *; congruence.
Qed.

Lemma compute_I_total (i0 : Z) (C D : list Z) :
  length C = length D -> C <> [] ->
  exists I, compute_I i0 C D = Some I /\ length I = length C.
Proof. apply compute_E_total. Qed.

Lemma compute_S_total (e0 i_mild0 i_wild0 : Z) (B N : list Z) :
  length B = length N -> N <> [] ->
  exists S_, compute_S e0 i_mild0 i_wild0 B N = Some S_ /\ length S_ = length N.
Proof.
  intros Hl HN.
  destruct (@compute_S_spec e0 i_mild0 i_wild0 B N Hl HN) as (S_ & E & L & _).
  eauto.
Qed.

Lemma Forall_le_P (P : list R) :
  forallb (fun p => Rleb p 1) P = true /\ forallb (fun p => Rleb 0 p) P = true
  <-> Forall (fun p => (0 <= p <= 1)%R) P.
Proof.
  rewrite !forallb_forall, Forall_forall. split.
  - intros [H1 H2] x Hx. split; apply Rleb_true; auto.
  - intros H. split; intros x Hx; apply Rleb_true; apply H; assumption.
Qed.

Lemma nonneg_zipw_add (a b : list Z) :
  nonneg a -> nonneg b -> nonneg (zipw Z.add a b).
Proof.
  unfold nonneg. intros Ha. revert b. induction Ha as [|x a Hx Ha IH];
    intros b Hb; simpl; [constructor|].
  destruct Hb as [|y b Hy Hb]; constructor; [lia | apply IH; assumption].
Qed.

Lemma opt_and_map_arr_eqZ (a : list Z) (r : option (list Z)) :
  (forall b, r = Some b -> length a = length b) ->
  (opt_and (option_map (arr_eqZ a) r) = true <-> r = Some a).
Proof.
  intros Hl. destruct r as [b|]; simpl.
  - rewrite arr_eqZ_iff by (apply Hl; reflexivity). split; congruence.
  - split; discriminate.
Qed.

Lemma opt_and_map_arr_eqR (a : list R) (r : option (list R)) :
  (forall b, r = Some b -> length a = length b) ->
  (opt_and (option_map (arr_eqR a) r) = true <-> r = Some a).
Proof.
  intros Hl. destruct r as [b|]; simpl.
  - rewrite arr_eqR_iff by (apply Hl; reflexivity). split; congruence.
  - split; discriminate.
Qed.

Lemma np_put_length {A} (idx : list Z) :
  forall (a : list A) (vs : list A) (a' : list A),
    np_put a idx vs = Some a' -> length a' = length a.
Proof.
  induction idx as [|i idx IH]; intros a [|v vs] a' H; simpl in H;
    try (inversion H; reflexivity).
  destruct (py_index (length a) i); [|discriminate].
  apply IH in H. now rewrite upd_length in H.
Qed.

Lemma transmission_rate_length (beta q : R) (t_ctrl t_end : Z) (l : list R) :
  transmission_rate beta q t_ctrl t_end = Some l -> length l = Z.to_nat t_end.
Proof.
  unfold transmission_rate. destruct (t_end <? 0)%Z; [discriminate|].
  destruct (t_ctrl <? t_end)%Z.
  - destruct (np_put _ _ _) as [a|] eqn:E; [|discriminate].
    simpl. rewrite sign_test_passes. intros H; inversion H; subst.
    apply np_put_length in E. now rewrite E, length_map, length_seq.
  - simpl. rewrite sign_test_passes. intros H; inversion H; subst.
    now rewrite length_map, length_seq.
Qed.

Lemma round_scale_length (delta : R) (C : list Z) :
  length (round_ints (scale delta C)) = length C.
Proof. unfold round_ints, scale. now rewrite !length_map. Qed.

Lemma wild_flow_length (i0 : Z) (delta : R) (C D b : list Z) :
  length C = length D -> C <> [] ->
  opt_bind (np_zip Z.sub C (round_ints (scale delta C)))
    (fun wild => compute_I i0 wild D) = Some b ->
  length b = length C.
Proof.
  intros Hl HC. rewrite np_zip_same by (now rewrite round_scale_length).
  unfold opt_bind. intros H.
  destruct (@compute_I_total i0 (zipw Z.sub C (round_ints (scale delta C))) D)
    as (I & E & L).
  - rewrite zipw_length; [assumption | now rewrite round_scale_length].
  - destruct C; [congruence|]. simpl. discriminate.
  - rewrite E in H. inversion H; subst.
    rewrite L, zipw_length; [reflexivity | now rewrite round_scale_length].
Qed.

Lemma prob_length (beta q : R) (t_ctrl t_end : Z) (I_mild I_wild N : list Z)
      (b : list R) :
  length I_mild = Z.to_nat t_end -> length I_wild = Z.to_nat t_end ->
  length N = Z.to_nat t_end ->
  opt_bind (transmission_rate beta q t_ctrl t_end)
    (fun t_rate => compute_P t_rate I_mild I_wild N) = Some b ->
  length b = Z.to_nat t_end.
Proof.
  intros Lm Lw Ln H.
  destruct (transmission_rate beta q t_ctrl t_end) as [tr|] eqn:E; [|discriminate].
  apply transmission_rate_length in E. simpl in H.
  destruct (@compute_P_spec tr I_mild I_wild N) as (P & EP & LP & _); try congruence.
Qed.

Lemma unpack7_Some (p : list R) u :
  unpack7 p = Some u ->
  exists beta q delta rho gamma_mild gamma_wild k,
    p = [beta; q; delta; rho; gamma_mild; gamma_wild; k]
    /\ u = (beta, q, delta, rho, gamma_mild, gamma_wild, k).
Proof.
  destruct p as [|a [|b [|c [|d [|e [|f [|g [|h t]]]]]]]]; simpl;
    try discriminate.
  intros H; inversion H. do 7 eexists. split; reflexivity.
Qed.

Section RepInv.
Variables (D_wild : list Z) (inits : Z * Z * Z) (t_ctrl t_end : Z).
Variables (T : nat) (st : State).
Hypothesis Hwf : wf_state T D_wild st.
Hypothesis HT : (1 <= T)%nat.
Hypothesis Hend : t_end = Z.of_nat T.

Lemma rep_inv_iff :
    rep_inv D_wild inits t_ctrl t_end st = true
    <-> inv_holds D_wild inits t_ctrl t_end st.
  Proof.
    destruct Hwf as (LS & LE & LIm & LIw & LB & LC & LDm & LP & LN & LDw).
    assert (Tend : Z.to_nat t_end = T) by lia.
    assert (NE : forall l : list Z, length l = T -> l <> [])
      by (intros l Hl ->; simpl in Hl; lia).
    unfold rep_inv, check_rep_inv, inv_holds.
    destruct inits as [[e0 i_mild0] i_wild0].
    destruct (unpack7 (st_params st)) as [u|] eqn:Eu.
    2:{ simpl. split; [discriminate|].
        intros (beta & q & delta & rho & gm & gw & k & Hp & _).
        rewrite Hp in Eu. discriminate. }
    destruct (unpack7_Some _ Eu)
      as (beta & q & delta & rho & gm & gw & k & Hp & ->).
    simpl opt_bind. unfold opt_and at 1.
    rewrite !andb_true_iff, !all_ge0_iff, Forall_le_P.
    rewrite (@opt_and_map_arr_eqZ (st_S st)).
    2:{ intros b Hb. destruct (@compute_S_total e0 i_mild0 i_wild0 (st_B st) (st_N st))
          as (S' & E' & L'); [congruence|apply NE; assumption|]. congruence. }
    rewrite (@opt_and_map_arr_eqZ (st_E st)).
    2:{ intros b Hb. destruct (@compute_E_total e0 (st_B st) (st_C st))
          as (S' & E' & L'); [congruence|apply NE; assumption|]. congruence. }
    rewrite (@opt_and_map_arr_eqZ (st_I_mild st)).
    2:{ intros b Hb.
        destruct (@compute_I_total i_mild0 (round_ints (scale delta (st_C st))) (st_D_mild st))
          as (S' & E' & L').
        - rewrite round_scale_length. congruence.
        - apply NE. rewrite round_scale_length. assumption.
        - rewrite round_scale_length in L'. congruence. }
    rewrite (@opt_and_map_arr_eqZ (st_I_wild st)).
    2:{ intros b Hb. apply wild_flow_length in Hb;
          [congruence|congruence|apply NE; assumption]. }
    rewrite (@opt_and_map_arr_eqR (st_P st)).
    2:{ intros b Hb. apply prob_length in Hb; congruence. }
    split.
    - intros H. exists beta, q, delta, rho, gm, gw, k. intuition.
    - intros (beta' & q' & delta' & rho' & gm' & gw' & k' & Hp' & H).
      rewrite Hp in Hp'. inversion Hp'; subst beta' q' delta' rho' gm' gw' k'.
      assert (opt_and (option_map all_ge0
                (np_zip Z.add (st_I_mild st) (st_I_wild st))) = true).
      { rewrite np_zip_same by congruence. simpl. apply all_ge0_iff.
        apply nonneg_zipw_add; tauto. }
      intuition.
  Qed.
End RepInv.

(** ** The resampler keeps counts non-negative and does not raise *)

Lemma amount_scalar (idx : list nat) (c : Z) (j : nat) :
  amount idx (repeat c (length idx)) j = 0%Z
  \/ (In j idx /\ amount idx (repeat c (length idx)) j = c).
Proof.
  unfold amount. induction idx as [|i idx IH]; simpl; auto.
  destruct (Nat.eqb_spec i j) as [->|Hne]; [right; auto|].
  destruct IH as [IH|[IH1 IH2]]; [left|right]; auto.
Qed.

Lemma amount_per_site (f : Z -> Z) (x : list Z) (idx : list nat) (j : nat) :
  amount idx (map f (take_at x idx)) j = 0%Z
  \/ (In j idx /\ amount idx (map f (take_at x idx)) j = f (nth j x 0%Z)).
Proof.
  unfold amount. induction idx as [|i idx IH]; simpl; auto.
  destruct (Nat.eqb_spec i j) as [->|Hne]; [right; auto|].
  destruct IH as [IH|[IH1 IH2]]; [left|right]; auto.
Qed.

Lemma nth_candidate (one_off : bool) (x : list Z) (tn tt : list nat) (j : nat) :
  drawn x tn tt ->
  nth j (candidate one_off x tn tt) 0%Z
  = (nth j x 0
     - amount tn (bcast (snd (changes one_off x tn tt)) (length tn)) j
     + amount tt (bcast (fst (changes one_off x tn tt)) (length tt)) j)%Z.
Proof.
  intros ([Nn Rn] & [Nt Rt] & Hl & _).
  destruct (changes_ok one_off x tn tt) as [Ha Hs].
  unfold candidate, move.
  rewrite nth_iadd_at, nth_isub_at; auto.
  intros i Hi. rewrite isub_at_length. auto.
Qed.

Lemma candidate_length (one_off : bool) (x : list Z) (tn tt : list nat) :
  length (candidate one_off x tn tt) = length x.
Proof. apply move_length. Qed.

Lemma candidate_nonneg (one_off : bool) (x : list Z) (tn tt : list nat) :
  drawn x tn tt -> nonneg x -> nonneg (candidate one_off x tn tt).
Proof.
  intros Hdr Hx. apply Forall_nth_lt with (d := 0%Z). intros j Hj.
  rewrite candidate_length in Hj. rewrite nth_candidate by assumption.
  assert (Hxj : (0 <= nth j x 0)%Z).
  { unfold nonneg in Hx. rewrite Forall_forall in Hx. apply Hx, nth_In, Hj. }
  destruct Hdr as (_ & _ & _ & Hge).
  unfold changes. destruct one_off; simpl fst; simpl snd; simpl bcast.
  - destruct (amount_scalar tn 1 j) as [->|[Hin ->]];
      destruct (amount_scalar tt 1 j) as [->|[_ ->]];
      try specialize (Hge _ Hin); lia.
  - destruct (amount_per_site (fun v => v / 80)%Z x tn j) as [->|[Hin ->]];
      destruct (amount_per_site (fun v => v / 79)%Z x tt j) as [->|[_ ->]];
      try specialize (Hge _ Hin);
      try (assert (0 <= nth j x 0 / 79)%Z by (apply Z.div_pos; lia));
      try (assert (nth j x 0 / 80 <= nth j x 0)%Z
             by (apply Z.div_le_upper_bound; lia));
      lia.
Qed.

Lemma np_where_nonneg (x : list Z) :
  nonneg x -> np_where ne0 x = np_where ge1 x.
Proof.
  intros Hx. unfold np_where. apply filter_ext_in. intros i Hi.
  apply in_seq in Hi.
  assert (0 <= nth i x 0)%Z.
  { unfold nonneg in Hx. rewrite Forall_forall in Hx. apply Hx, nth_In. lia. }
  unfold ne0, ge1.
  destruct (Z.eqb_spec (nth i x 0%Z) 0), (Z.leb_spec 1 (nth i x 0%Z));
    simpl; auto; lia.
Qed.

Section SampleXTotal.
Variable D : Type.
Variable conditions_fn : list Z -> D -> bool.
Variable data_fn : list Z -> option D.
Variable x : list Z.
Hypothesis Hne : x <> [].
Hypothesis Hx : nonneg x.
Hypothesis Hdata : forall y, length y = length x -> exists d, data_fn y = Some d.

Lemma sample_x_attempt_total o n :
    exists r, sample_x_attempt conditions_fn data_fn x x o n = Some (r, (3 + n)%nat).
  Proof.
    unfold sample_x_attempt, bind.
    destruct (@choice_returns (np_where ge1 x)
                (Nat.min 15 (length (np_where ne0 x))) o n) as (tn & Etn).
    { rewrite np_where_nonneg by assumption. lia. }
    rewrite Etn.
    pose proof Etn as Htn. apply choice_spec in Htn; [|apply np_where_NoDup].
    destruct Htn as (Nn & In_n & Ln & _).
    destruct (@choice_returns (seq 0 (length x)) (length tn) o (S n)) as (tt & Ett).
    { apply NoDup_incl_length; [assumption|].
      intros i Hi. apply In_n, np_where_In in Hi. apply in_seq. lia. }
    rewrite Ett.
    replace (forallb ge1 (take_at x tn)) with true.
    2:{ symmetry. apply forallb_forall. intros v Hv.
        unfold take_at in Hv. apply in_map_iff in Hv. destruct Hv as (i & <- & Hi).
        apply In_n, np_where_In in Hi. tauto. }
    simpl assert_. unfold ret at 1, draw_bit.
    replace (Nat.eqb (length x) 0) with false
      by (symmetry; apply Nat.eqb_neq; destruct x; [congruence|discriminate]).
    simpl assert_. unfold ret at 1.
    destruct (changes (o_bit o (S (S n))) x tn tt) as [ca cs].
    destruct (Hdata (move x tn tt ca cs)) as (d & Ed); [apply move_length|].
    unfold lift. rewrite Ed.
    destruct (conditions_fn _ d); unfold ret; eauto.
  Qed.

Lemma sample_x_loop_total (left : nat) o :
    forall n, exists r,
      sample_x_loop conditions_fn data_fn left x x o n = Some r.
  Proof.
    induction left as [|k IH]; intros n; simpl.
    - unfold ret. eauto.
    - destruct (sample_x_attempt_total o n) as ([c w] & E).
      unfold bind. rewrite E.
      destruct c as [c|]; [unfold ret; eauto|].
      apply sample_x_attempt_spec in E; [|reflexivity].
      destruct E as (tn & tt & d & _ & _ & _ & [[_ H]|[_ H]]); inversion H.
      apply IH.
  Qed.

Lemma sample_x_total (data : D) o n :
    exists x' d' n',
      sample_x conditions_fn data_fn x data o n = Some ((x', d'), n')
      /\ ((x' = x /\ d' = data)
          \/ (nonneg x' /\ length x' = length x
              /\ data_fn x' = Some d' /\ conditions_fn x' d' = true)).
  Proof.
    destruct (sample_x_loop_total 100 o n) as ([r m] & E).
    assert (Hs : exists x' d' n',
               sample_x conditions_fn data_fn x data o n = Some ((x', d'), n')).
    { unfold sample_x, bind. rewrite E. destruct (fst r) as [[c d]|];
        unfold ret; eauto. }
    destruct Hs as (x' & d' & n' & Hs). exists x', d', n'. split; [assumption|].
    apply sample_x_spec in Hs.
    destruct Hs as [H|(tn & tt & k & Hdr & -> & Hd & Hc)]; [left; assumption|].
    right. repeat split; auto.
    - apply candidate_nonneg; assumption.
    - apply candidate_length.
  Qed.
End SampleXTotal.

(** ** One Metropolis step over the resampler *)

Section StepTotal.
Variable D : Type.
Variable fn : list Z -> D -> option R.
Variable conditions_fn : list Z -> D -> bool.
Variable data_fn : list Z -> option D.
Variables (x : list Z) (data : D).
Hypothesis Hne : x <> [].
Hypothesis Hx : nonneg x.
Hypothesis Hdata : forall y, length y = length x -> exists d, data_fn y = Some d.
Hypothesis Hfn : forall y d, length y = length x ->
                     d = data \/ data_fn y = Some d -> exists r, fn y d = Some r.

Lemma single_site_step_returns o n :
    exists x' d' lp old n',
      metropolis_hastings fn (fun y d cf => sample_x cf data_fn y d)
        conditions_fn x data 1 o n = Some ((x', d', lp, old), n')
      /\ ((x' = x /\ d' = data)
          \/ (nonneg x' /\ length x' = length x
              /\ data_fn x' = Some d' /\ conditions_fn x' d' = true)).
  Proof.
    destruct (sample_x_total conditions_fn data_fn Hne Hx Hdata data o n)
      as (x1 & d1 & n1 & Hp & Hcase).
    destruct (@Hfn x data eq_refl (or_introl eq_refl)) as (b & Hb).
    assert (Ha : exists a, fn x1 d1 = Some a).
    { destruct Hcase as [[-> ->]|(_ & L & Hd & _)]; [eauto|].
      apply Hfn; auto. }
    destruct Ha as (a & Ha).
    rewrite (@metropolis_hastings_run (list Z) D _ fn
               (fun y d cf => sample_x cf data_fn y d) conditions_fn
               x data o n x1 d1 n1 a b Hp Ha Hb).
    destruct (Rleb _ _); do 5 eexists; (split; [reflexivity|]); auto.
  Qed.
End StepTotal.

(** ** Likelihoods do not raise on series of one length *)

Lemma np_zip_scalar_r {A B C} (f : A -> B -> C) (a : list A) (y : B) :
  exists l, np_zip f a [y] = Some l /\ length l = length a.
Proof.
  unfold np_zip. destruct (Nat.eqb_spec (length a) (length [y])) as [E|E].
  - eexists. split; [reflexivity|]. apply zipw_length. assumption.
  - destruct a as [|x [|x' a]]; simpl in *; try lia;
      (eexists; split; [reflexivity|]); simpl; now rewrite ?length_map.
Qed.

Section LoglikTotal.
Variable binom_pmf : Z -> R -> Z -> R.

Lemma binom_loglik_total eps (n : list Z) (p : list R) (x : list Z) :
    length n = length p -> length n = length x ->
    exists r, binom_loglik binom_pmf eps n p x = Some r.
  Proof.
    intros Hp Hx. unfold binom_loglik.
    rewrite np_zip_same by assumption. unfold opt_bind at 1.
    rewrite np_zip_same by (rewrite zipw_length; assumption).
    unfold opt_bind. eauto.
  Qed.

Lemma binom_loglik_scalar_total eps (n : list Z) (p : R) (x : list Z) :
    length n = length x ->
    exists r, binom_loglik binom_pmf eps n [p] x = Some r.
  Proof.
    intros Hx. unfold binom_loglik.
    destruct (np_zip_scalar_r (@pair Z R) n p) as (l & -> & L).
    unfold opt_bind at 1. rewrite np_zip_same by congruence.
    unfold opt_bind. eauto.
  Qed.
End LoglikTotal.

Lemma prob_check (g : R) :
  (0 <= g)%R -> Rleb 0 (1 - exp (- g)) && Rleb (1 - exp (- g)) 1 = true.
Proof.
  intros Hg. pose proof (exp_pos (- g)).
  assert (exp (- g) <= 1)%R.
  { rewrite <- exp_0. destruct Hg as [Hg|<-].
    - left. apply exp_increasing. lra.
    - rewrite Ropp_0. right. reflexivity. }
  apply andb_true_iff. split; apply Rleb_true; lra.
Qed.

(** ** The infection probability of a state *)

Lemma prob_total (beta q : R) (t_ctrl t_end : Z) (I_mild I_wild N : list Z) :
  (0 <= t_ctrl)%Z -> (0 <= t_end)%Z ->
  length I_mild = Z.to_nat t_end -> length I_wild = Z.to_nat t_end ->
  length N = Z.to_nat t_end ->
  exists t_rate P,
    transmission_rate beta q t_ctrl t_end = Some t_rate
    /\ compute_P t_rate I_mild I_wild N = Some P
    /\ length P = Z.to_nat t_end
    /\ ((0 <= beta)%R -> nonneg I_mild -> nonneg I_wild ->
        Forall (fun v => (1 <= v)%Z) N ->
        Forall (fun p => (0 <= p <= 1)%R) P).
Proof.
  intros Hc He Lm Lw Ln.
  destruct (@transmission_rate_spec beta q t_ctrl t_end Hc He) as (tr & E & L & Hn).
  destruct (@compute_P_spec tr I_mild I_wild N) as (P & EP & LP & HP);
    try congruence.
  exists tr, P. repeat split; try congruence.
  intros Hb Hm Hw HN.
  apply Forall_nth_lt with (d := 0%R). intros t Ht.
  rewrite HP by congruence.
  unfold nonneg in *. rewrite Forall_forall in Hm, Hw, HN.
  apply prob_of_rate.
  - specialize (Hn (Z.of_nat t)). rewrite Nat2Z.id in Hn.
    rewrite Hn by lia.
    destruct (Z.of_nat t <? t_ctrl)%Z; [assumption|].
    apply Rmult_le_pos; [assumption|]. left. apply exp_pos.
  - assert (0 <= nth t I_mild 0)%Z by (apply Hm, nth_In; lia).
    assert (0 <= nth t I_wild 0)%Z by (apply Hw, nth_In; lia). lia.
  - assert (1 <= nth t N 0)%Z by (apply HN, nth_In; lia). lia.
Qed.

Lemma scale_comm (delta : R) (x : list Z) :
  map (fun v => (delta * IZR v)%R) x = scale delta x.
Proof. unfold scale. apply map_ext. intros v. apply Rmult_comm. Qed.

(** ** The latent-series samplers keep the invariant *)

Lemma opt_bind_Some {A B} (r : option A) (f : A -> option B) (b : B) :
  opt_bind r f = Some b -> exists a, r = Some a /\ f a = Some b.
Proof. destruct r as [a|]; simpl; [eauto | discriminate]. Qed.

Ltac oinv H :=
  let a := fresh "v" in let E := fresh "E" in
  apply opt_bind_Some in H; destruct H as (a & E & H).

Section LatentSamplers.
Variable binom_pmf : Z -> R -> Z -> R.
Variables (D_wild : list Z) (inits : Z * Z * Z) (t_ctrl t_end : Z).
Variables (T : nat) (eps : R).
Hypothesis HT : (1 <= T)%nat.
Hypothesis Hend : t_end = Z.of_nat T.


Lemma sample_B_keeps_inv (st : State) :
    wf_state T D_wild st -> inv_holds D_wild inits t_ctrl t_end st ->
    forall o n, exists B' S' E' lp old n',
      sample_B binom_pmf inits (st_params st) eps (st_C st) (st_P st) (st_N st)
        (st_B st) (st_S st) (st_E st) o n = Some ((B', S', E', lp, old), n')
      /\ let st' := mkState S' E' (st_I_mild st) (st_I_wild st) B' (st_C st)
                      (st_D_mild st) (st_P st) (st_N st) (st_params st) in
         wf_state T D_wild st' /\ inv_holds D_wild inits t_ctrl t_end st'.
  Proof.
    intros Hwf Hinv o n.
    destruct st as [S_ E Im Iw B C Dm P N params].
    unfold wf_state, inv_holds in *. simpl in *.
    destruct Hwf as (LS & LE & LIm & LIw & LB & LC & LDm & LP & LN & LDw).
    destruct inits as [[e0 i_mild0] i_wild0] eqn:Einits.
    destruct Hinv as (beta & q & delta & rho & gm & gw & k & Hp & NIm & NIw
                      & NS & NE' & NB & NC & NDm & NDw & HP & HS & HE & HIm
                      & HIw & HPe).
    subst params.
    assert (Hdata : forall y, length y = length B ->
                      exists d, B_data_fn (e0, i_mild0, i_wild0) C N y = Some d).
    { intros y Hy. unfold B_data_fn.
      destruct (@compute_S_total e0 i_mild0 i_wild0 y N) as (S1 & -> & _);
        [congruence|apply (nonempty_of_length HT); assumption|].
      destruct (@compute_E_total e0 y C) as (E1 & -> & _);
        [congruence|apply (nonempty_of_length HT); congruence|].
      simpl. eauto. }
    assert (Hfn : forall y d, length y = length B ->
                    d = (S_, E) \/ B_data_fn (e0, i_mild0, i_wild0) C N y = Some d ->
                    exists r, B_fn binom_pmf eps P y d = Some r).
    { intros y [S1 E1] Hy Hd. unfold B_fn.
      apply binom_loglik_total; [|].
      - destruct Hd as [Hd|Hd]; [inversion Hd; congruence|].
        unfold B_data_fn in Hd. oinv Hd. oinv Hd. inversion Hd; subst v v0.
        destruct (@compute_S_total e0 i_mild0 i_wild0 y N) as (S2 & ES2 & LS2);
          [congruence|apply (nonempty_of_length HT); assumption|]. congruence.
      - destruct Hd as [Hd|Hd]; [inversion Hd; congruence|].
        unfold B_data_fn in Hd. oinv Hd. oinv Hd. inversion Hd; subst v v0.
        destruct (@compute_S_total e0 i_mild0 i_wild0 y N) as (S2 & ES2 & LS2);
          [congruence|apply (nonempty_of_length HT); assumption|]. congruence. }
    destruct (@single_site_step_returns _ (B_fn binom_pmf eps P) B_conditions_fn
                (B_data_fn (e0, i_mild0, i_wild0) C N) B (S_, E) (nonempty_of_length HT LB) NB Hdata Hfn o n)
      as (B' & [S' E'] & lp & old & n' & Hrun & Hcase).
    exists B', S', E', lp, old, n'. split.
    - unfold sample_B, bind. simpl lift. cbv beta iota.
      unfold B_proposal. rewrite Hrun. reflexivity.
    - destruct Hcase as [[-> Hd]|(NB' & LB' & Hd & Hc)].
      + inversion Hd; subst S' E'.
        split; [repeat split; assumption|].
        exists beta, q, delta, rho, gm, gw, k. repeat split; assumption.
      + unfold B_data_fn in Hd. oinv Hd. oinv Hd. inversion Hd; subst v v0.
        unfold B_conditions_fn in Hc. apply andb_true_iff in Hc.
        rewrite !all_ge0_iff in Hc. destruct Hc as [NS1 NE1].
        destruct (@compute_S_total e0 i_mild0 i_wild0 B' N) as (S2 & ES2 & LS2);
          [congruence|apply (nonempty_of_length HT); assumption|].
        destruct (@compute_E_total e0 B' C) as (E3 & EE3 & LE3);
          [congruence|apply (nonempty_of_length HT); congruence|].
        split; [repeat split; congruence|].
        exists beta, q, delta, rho, gm, gw, k. repeat split; assumption.
  Qed.

Lemma C_data_fn_spec (e0 i_mild0 i_wild0 : Z) (beta q delta : R)
        (D_mild B N y : list Z) :
    (0 <= t_ctrl)%Z ->
    length D_mild = T -> length D_wild = T -> length B = T -> length N = T ->
    length y = T ->
    exists E1 Im1 Iw1 P1,
      C_data_fn (e0, i_mild0, i_wild0) t_ctrl D_mild D_wild B N beta q delta
        t_end y = Some (E1, Im1, Iw1, P1)
      /\ compute_E e0 B y = Some E1
      /\ compute_I i_mild0 (round_ints (scale delta y)) D_mild = Some Im1
      /\ opt_bind (np_zip Z.sub y (round_ints (scale delta y)))
           (fun wild => compute_I i_wild0 wild D_wild) = Some Iw1
      /\ opt_bind (transmission_rate beta q t_ctrl t_end)
           (fun t_rate => compute_P t_rate Im1 Iw1 N) = Some P1
      /\ length E1 = T /\ length Im1 = T /\ length Iw1 = T /\ length P1 = T
      /\ ((0 <= beta)%R -> nonneg Im1 -> nonneg Iw1 ->
          Forall (fun v => (1 <= v)%Z) N ->
          Forall (fun p => (0 <= p <= 1)%R) P1).
  Proof.
    intros Hc LDm LDw LB LN Ly.
    assert (Tend : Z.to_nat t_end = T) by lia.
    unfold C_data_fn. rewrite scale_comm.
    destruct (@compute_E_total e0 B y) as (E1 & EE & LE);
      [congruence|apply (nonempty_of_length HT); assumption|].
    destruct (@compute_I_total i_mild0 (round_ints (scale delta y)) D_mild)
      as (Im1 & EIm & LIm);
      [rewrite round_scale_length; congruence
      |apply (nonempty_of_length HT); rewrite round_scale_length; assumption|].
    rewrite round_scale_length in LIm.
    assert (Lw : length (zipw Z.sub y (round_ints (scale delta y))) = T)
      by (rewrite zipw_length; [assumption|now rewrite round_scale_length]).
    destruct (@compute_I_total i_wild0 (zipw Z.sub y (round_ints (scale delta y))) D_wild)
      as (Iw1 & EIw & LIw);
      [congruence|apply (nonempty_of_length HT); assumption|].
    destruct (@prob_total beta q t_ctrl t_end Im1 Iw1 N)
      as (tr & P1 & Etr & EP & LP & HP); try lia; try congruence.
    exists E1, Im1, Iw1, P1.
    rewrite EE, EIm. unfold opt_bind at 1 2.
    rewrite np_zip_same by (now rewrite round_scale_length).
    unfold opt_bind at 1. rewrite EIw. unfold opt_bind at 1.
    rewrite Etr. unfold opt_bind at 1. rewrite EP.
    repeat split; auto; try congruence.
  Qed.

Lemma sample_C_keeps_inv (st : State) :
    wf_state T D_wild st -> inv_holds D_wild inits t_ctrl t_end st ->
    rates_nonneg st -> N_pos st -> (0 <= t_ctrl)%Z ->
    forall o n, exists C' E' Im' Iw' P' lp old n',
      sample_C binom_pmf inits (st_params st) t_ctrl eps (st_D_mild st) D_wild
        (st_B st) (st_N st) (st_C st) (st_E st) (st_I_mild st) (st_I_wild st)
        (st_P st) o n = Some ((C', E', Im', Iw', P', lp, old), n')
      /\ let st' := mkState (st_S st) E' Im' Iw' (st_B st) C'
                      (st_D_mild st) P' (st_N st) (st_params st) in
         wf_state T D_wild st' /\ inv_holds D_wild inits t_ctrl t_end st'.
  Proof.
    intros Hwf Hinv Hpos HN Hc o n.
    destruct st as [S_ E Im Iw B C Dm P N params].
    unfold wf_state, inv_holds, rates_nonneg, N_pos in *. simpl in *.
    destruct Hwf as (LS & LE & LIm & LIw & LB & LC & LDm & LP & LN & LDw).
    destruct inits as [[e0 i_mild0] i_wild0] eqn:Einits.
    destruct Hinv as (beta & q & delta & rho & gm & gw & k & Hp & NIm & NIw
                      & NS & NE' & NB & NC & NDm & NDw & HP & HS & HE & HIm
                      & HIw & HPe).
    subst params.
    assert (Hbeta : (0 <= beta)%R /\ (0 <= rho)%R).
    { simpl in Hpos. tauto. }
    destruct Hbeta as [Hbeta Hrho].
    assert (Htend : Z.of_nat (length C) = t_end) by congruence.
    assert (Hdata : forall y, length y = length C ->
              exists d, C_data_fn (e0, i_mild0, i_wild0) t_ctrl Dm D_wild B N
                          beta q delta t_end y = Some d).
    { intros y Hy.
      destruct (@C_data_fn_spec e0 i_mild0 i_wild0 beta q delta Dm B N y
                  Hc LDm LDw LB LN ltac:(congruence))
        as (E1 & Im1 & Iw1 & P1 & Hd & _). eauto. }
    assert (Hfn : forall y d, length y = length C ->
              d = (E, Im, Iw, P)
              \/ C_data_fn (e0, i_mild0, i_wild0) t_ctrl Dm D_wild B N
                   beta q delta t_end y = Some d ->
              exists r, C_fn binom_pmf eps rho y d = Some r).
    { intros y [[[E1 Im1] Iw1] P1] Hy Hd. unfold C_fn.
      rewrite prob_check by assumption.
      apply binom_loglik_scalar_total.
      destruct Hd as [Hd|Hd]; [inversion Hd; congruence|].
      destruct (@C_data_fn_spec e0 i_mild0 i_wild0 beta q delta Dm B N y
                  Hc LDm LDw LB LN ltac:(congruence))
        as (E2 & Im2 & Iw2 & P2 & Hd2 & _ & _ & _ & _ & LE2 & _).
      rewrite Hd2 in Hd. inversion Hd. congruence. }
    destruct (@single_site_step_returns _ (C_fn binom_pmf eps rho) C_conditions_fn
                (C_data_fn (e0, i_mild0, i_wild0) t_ctrl Dm D_wild B N
                   beta q delta t_end) C (E, Im, Iw, P)
                (nonempty_of_length HT LC) NC Hdata Hfn o n)
      as (C' & [[[E' Im'] Iw'] P'] & lp & old & n' & Hrun & Hcase).
    exists C', E', Im', Iw', P', lp, old, n'. split.
    - unfold sample_C, bind. simpl lift. cbv beta iota.
      rewrite Htend, Hrun. reflexivity.
    - destruct Hcase as [[-> Hd]|(NC' & LC' & Hd & Hcf)].
      + inversion Hd; subst E' Im' Iw' P'.
        split; [repeat split; assumption|].
        exists beta, q, delta, rho, gm, gw, k. repeat split; assumption.
      + destruct (@C_data_fn_spec e0 i_mild0 i_wild0 beta q delta Dm B N C'
                    Hc LDm LDw LB LN ltac:(congruence))
          as (E2 & Im2 & Iw2 & P2 & Hd2 & HE2 & HIm2 & HIw2 & HP2 & LE2 & LIm2
              & LIw2 & LP2 & Hb2).
        rewrite Hd2 in Hd. inversion Hd; subst E2 Im2 Iw2 P2.
        unfold C_conditions_fn in Hcf. rewrite !andb_true_iff in Hcf.
        rewrite !all_ge0_iff in Hcf. destruct Hcf as [[NE1 NIm1] NIw1].
        split; [repeat split; congruence|].
        exists beta, q, delta, rho, gm, gw, k. repeat split; auto.
  Qed.

Lemma sample_D_mild_keeps_inv (st : State) :
    wf_state T D_wild st -> inv_holds D_wild inits t_ctrl t_end st ->
    rates_nonneg st -> N_pos st -> (0 <= t_ctrl)%Z ->
    forall o n, exists Dm' Im' P' lp old n',
      sample_D_mild binom_pmf inits (st_params st) t_ctrl eps (st_I_wild st)
        (st_C st) (st_N st) (st_D_mild st) (st_I_mild st) o n
      = Some ((Dm', Im', P', lp, old), n')
      /\ let st' := mkState (st_S st) (st_E st) Im' (st_I_wild st) (st_B st)
                      (st_C st) Dm' P' (st_N st) (st_params st) in
         wf_state T D_wild st' /\ inv_holds D_wild inits t_ctrl t_end st'.
  Proof.
    intros Hwf Hinv Hpos HN Hc o n.
    destruct st as [S_ E Im Iw B C Dm P N params].
    unfold wf_state, inv_holds, rates_nonneg, N_pos in *. simpl in *.
    destruct Hwf as (LS & LE & LIm & LIw & LB & LC & LDm & LP & LN & LDw).
    destruct inits as [[e0 i_mild0] i_wild0] eqn:Einits.
    destruct Hinv as (beta & q & delta & rho & gm & gw & k & Hp & NIm & NIw
                      & NS & NE' & NB & NC & NDm & NDw & HP & HS & HE & HIm
                      & HIw & HPe).
    subst params.
    assert (Hbeta : (0 <= beta)%R /\ (0 <= gm)%R).
    { simpl in Hpos. tauto. }
    destruct Hbeta as [Hbeta Hgm].
    assert (Htend : Z.of_nat (length Dm) = t_end) by congruence.
    assert (Tend : Z.to_nat t_end = T) by lia.
    assert (Hflow : forall y, length y = T ->
              exists I1, compute_I i_mild0 (round_ints (scale delta C)) y = Some I1
                         /\ length I1 = T).
    { intros y Hy.
      destruct (@compute_I_total i_mild0 (round_ints (scale delta C)) y)
        as (I1 & EI & LI);
        [rewrite round_scale_length; congruence
        |apply (nonempty_of_length HT); rewrite round_scale_length; assumption|].
      rewrite round_scale_length in LI. exists I1. split; congruence. }
    assert (Hdata : forall y, length y = length Dm ->
              exists d, D_data_fn (e0, i_mild0, i_wild0) C delta y = Some d).
    { intros y Hy. unfold D_data_fn.
      destruct (Hflow y ltac:(congruence)) as (I1 & EI & _). eauto. }
    assert (Hfn : forall y d, length y = length Dm ->
              d = Im \/ D_data_fn (e0, i_mild0, i_wild0) C delta y = Some d ->
              exists r, D_fn binom_pmf eps gm y d = Some r).
    { intros y d Hy Hd. unfold D_fn.
      rewrite prob_check by assumption.
      apply binom_loglik_scalar_total.
      destruct Hd as [->|Hd]; [congruence|].
      unfold D_data_fn in Hd.
      destruct (Hflow y ltac:(congruence)) as (I1 & EI & LI1). congruence. }
    destruct (@single_site_step_returns _ (D_fn binom_pmf eps gm) D_conditions_fn
                (D_data_fn (e0, i_mild0, i_wild0) C delta) Dm Im
                (nonempty_of_length HT LDm) NDm Hdata Hfn o n)
      as (Dm' & Im' & lp & old & n' & Hrun & Hcase).
    assert (Hnew : length Dm' = T /\ length Im' = T /\ nonneg Dm' /\ nonneg Im'
                   /\ compute_I i_mild0 (round_ints (scale delta C)) Dm' = Some Im').
    { destruct Hcase as [[-> ->]|(NDm' & LDm' & Hd & Hcf)]; [auto 6|].
      unfold D_data_fn in Hd. unfold D_conditions_fn in Hcf.
      apply all_ge0_iff in Hcf.
      destruct (Hflow Dm' ltac:(congruence)) as (I1 & EI & LI1).
      repeat split; auto; congruence. }
    destruct Hnew as (LDm' & LIm' & NDm' & NIm' & HIm').
    destruct (@prob_total beta q t_ctrl t_end Im' Iw N)
      as (tr & P' & Etr & EP & LP' & HP'); try lia; try congruence.
    exists Dm', Im', P', lp, old, (n').
    split.
    - unfold sample_D_mild, bind. simpl lift at 1. cbv beta iota.
      rewrite Htend, Hrun. unfold lift. rewrite Etr, EP. reflexivity.
    - split; [repeat split; congruence|].
      exists beta, q, delta, rho, gm, gw, k. repeat split; auto.
      rewrite Etr. simpl. assumption.
  Qed.
End LatentSamplers.

(** ** The parameter sampler keeps the invariant *)

Lemma np_random_normal_total (loc scale : list R) o n :
  length loc = length scale -> Forall (fun s => (0 <= s)%R) scale ->
  exists x_new,
    np_random_normal loc scale o n = Some (x_new, S n)
    /\ length x_new = length loc.
Proof.
  intros Hl Hs. unfold np_random_normal.
  replace (existsb (fun s => Rltb s 0) scale) with false.
  2:{ symmetry. apply not_true_is_false. intros H.
      apply existsb_exists in H. destruct H as (s & Hin & Hlt).
      apply Rltb_true in Hlt. rewrite Forall_forall in Hs.
      specialize (Hs s Hin). lra. }
  rewrite np_zip_same by assumption.
  eexists. split; [reflexivity|].
  assert (L : length (zipw (@pair R R) loc scale) = length loc)
    by (apply zipw_length; assumption).
  rewrite zipw_length; [exact L|].
  now rewrite length_map, length_seq.
Qed.

Lemma bounds_from_total (bs : list (R * R)) (x : list R) :
  forall i, (length bs + i <= length x)%nat ->
            exists b, bounds_from bs i x = Some b.
Proof.
  induction bs as [|[a b] bs IH]; intros i Hi; simpl in *; [eauto|].
  destruct (nth_error x i) as [xi|] eqn:E.
  - destruct (Rltb xi a || Rltb b xi); [eauto|]. apply IH. lia.
  - apply nth_error_None in E. lia.
Qed.

Lemma log_prior_from_total (gamma_pdf : R -> R -> R -> R) (eps : R)
      (ps : list (R * R)) (x : list R) :
  forall i acc, (length ps + i <= length x)%nat ->
                exists r, log_prior_from gamma_pdf eps ps i x acc = Some r.
Proof.
  induction ps as [|[a b] ps IH]; intros i acc Hi; simpl in *; [eauto|].
  destruct (nth_error x i) as [xi|] eqn:E.
  - apply IH. lia.
  - apply nth_error_None in E. lia.
Qed.

Lemma floor_at_one_length (f : Z -> Z) (N : list Z) :
  let N_new := map (fun n => if (f n <? 1)%Z then 1%Z else f n) N in
  length N_new = length N /\ Forall (fun v => (1 <= v)%Z) N_new.
Proof.
  simpl. split; [apply length_map|].
  apply Forall_forall. intros v Hv. apply in_map_iff in Hv.
  destruct Hv as (n & <- & _). destruct (Z.ltb_spec (f n) 1); lia.
Qed.

Lemma In_zipw {A B C} (f : A -> B -> C) (a : list A) (b : list B) (v : C) :
  In v (zipw f a b) -> exists x y, In x a /\ In y b /\ v = f x y.
Proof.
  revert b; induction a as [|x a IH]; intros [|y b] H; simpl in H;
    try contradiction.
  destruct H as [<-|H].
  - exists x, y. simpl. auto.
  - destruct (IH _ H) as (x' & y' & Hx & Hy & ->). exists x', y'. simpl. auto.
Qed.

Lemma np_zip_In {A B C} (f : A -> B -> C) (a : list A) (b : list B) (l : list C)
      (v : C) :
  np_zip f a b = Some l -> In v l -> exists x y, In x a /\ In y b /\ v = f x y.
Proof.
  unfold np_zip. destruct (Nat.eqb (length a) (length b)).
  - intros H; inversion H; subst. apply In_zipw.
  - destruct a as [|x [|x' a]]; destruct b as [|y [|y' b]]; intros H Hv;
      try discriminate H; inversion H; subst; clear H; simpl in Hv;
      try contradiction.
    + destruct Hv as [<-|Hv]; [|contradiction]. exists x, y. simpl. auto.
    + destruct Hv as [<-|[<-|Hv]].
      * exists x, y. simpl. auto.
      * exists x, y'. simpl. auto.
      * apply in_map_iff in Hv. destruct Hv as (w & <- & Hw).
        exists x, w. simpl. auto.
    + destruct Hv as [<-|[<-|Hv]].
      * exists x, y. simpl. auto.
      * exists x', y. simpl. auto.
      * apply in_map_iff in Hv. destruct Hv as (w & <- & Hw).
        exists w, y. simpl. auto.
Qed.

Lemma binom_loglik_isnan_false (n : list Z) (p : list R) (x : list Z) :
  nonneg n -> Forall (fun q => (0 <= q <= 1)%R) p ->
  binom_loglik_isnan n p x = false.
Proof.
  intros Hn Hp. unfold binom_loglik_isnan.
  destruct (np_zip pair n p) as [np|] eqn:E1; [|reflexivity].
  destruct (np_zip _ np x) as [l|] eqn:E2; [|reflexivity].
  apply not_true_is_false. intros H. apply existsb_exists in H.
  destruct H as (b & Hb & ->).
  destruct (np_zip_In _ _ _ _ E2 Hb) as (a & k & Ha & _ & Hnan).
  destruct (np_zip_In _ _ _ _ E1 Ha) as (ni & pi & Hni & Hpi & ->).
  simpl in Hnan. unfold binom_nan in Hnan.
  unfold nonneg in Hn. rewrite Forall_forall in Hn, Hp.
  specialize (Hn _ Hni). specialize (Hp _ Hpi).
  symmetry in Hnan. apply orb_prop in Hnan. destruct Hnan as [Hnan|Hnan].
  - apply orb_prop in Hnan. destruct Hnan as [Hnan|Hnan].
    + apply Z.ltb_lt in Hnan. lia.
    + apply Rltb_true in Hnan. lra.
  - apply Rltb_true in Hnan. lra.
Qed.

Lemma hazard_list (g : R) :
  (0 <= g)%R -> Forall (fun q => (0 <= q <= 1)%R) [(1 - exp (- g))%R].
Proof.
  intros Hg. constructor; [|constructor].
  pose proof (exp_pos (- g)).
  assert (exp (- g) <= exp 0)%R.
  { destruct (Req_dec g 0) as [->|Hne]; [rewrite Ropp_0; lra|].
    left. apply exp_increasing. lra. }
  rewrite exp_0 in *. lra.
Qed.

Lemma priors_not_nan (priors : list (R * R)) :
  Forall (fun ab => (0 < fst ab)%R) priors ->
  existsb (fun ab => gamma_nan (fst ab)) priors = false.
Proof.
  intros H. apply not_true_is_false. intros Hex. apply existsb_exists in Hex.
  destruct Hex as (ab & Hin & Hnan). rewrite Forall_forall in H.
  specialize (H _ Hin). unfold gamma_nan in Hnan. apply Rleb_true in Hnan. lra.
Qed.

Section ParamsSampler.
Variable binom_pmf : Z -> R -> Z -> R.
Variable gamma_pdf : R -> R -> R -> R.
Variables (D_wild : list Z) (inits : Z * Z * Z) (priors : list (R * R)).
Variables (rand_walk_stds : list R) (t_ctrl : Z) (bounds : list (R * R)).
Variables (t_end : Z) (T : nat) (eps : R).
Hypothesis HT : (1 <= T)%nat.
Hypothesis Hend : t_end = Z.of_nat T.
Hypothesis Hcfg : config_ok priors rand_walk_stds t_ctrl bounds.

Lemma params_candidate_spec (e0 i_mild0 i_wild0 : Z)
        (B C D_mild N : list Z) (old_k : R)
        (beta q delta rho gm gw k : R) :
    inits = (e0, i_mild0, i_wild0) ->
    length B = T -> length C = T -> length D_mild = T -> length D_wild = T ->
    length N = T ->
    exists S1 E1 Im1 Iw1 P1 N1,
      params_candidate inits t_ctrl B C D_mild D_wild old_k t_end N
        [beta; q; delta; rho; gm; gw; k] = Some (S1, E1, Im1, Iw1, P1, N1)
      /\ compute_S e0 i_mild0 i_wild0 B N1 = Some S1
      /\ compute_E e0 B C = Some E1
      /\ compute_I i_mild0 (round_ints (scale delta C)) D_mild = Some Im1
      /\ opt_bind (np_zip Z.sub C (round_ints (scale delta C)))
           (fun wild => compute_I i_wild0 wild D_wild) = Some Iw1
      /\ opt_bind (transmission_rate beta q t_ctrl t_end)
           (fun t_rate => compute_P t_rate Im1 Iw1 N1) = Some P1
      /\ length S1 = T /\ length E1 = T /\ length Im1 = T /\ length Iw1 = T
      /\ length P1 = T /\ length N1 = T
      /\ Forall (fun v => (1 <= v)%Z) N1
      /\ ((0 <= beta)%R -> nonneg Im1 -> nonneg Iw1 ->
          Forall (fun p => (0 <= p <= 1)%R) P1).
  Proof.
    intros Hin LB LC LDm LDw LN.
    destruct Hcfg as (Hc & _).
    assert (Tend : Z.to_nat t_end = T) by lia.
    unfold params_candidate. rewrite Hin. simpl unpack7. unfold opt_bind at 1.
    set (N1 := map (fun n => if (round_int (IZR n * old_k / k) <? 1)%Z then 1%Z
                             else round_int (IZR n * old_k / k)) N).
    destruct (floor_at_one_length (fun n => round_int (IZR n * old_k / k)) N)
      as [LN1 HN1]. fold N1 in LN1, HN1.
    destruct (@compute_S_total e0 i_mild0 i_wild0 B N1) as (S1 & ES & LS);
      [congruence|apply (nonempty_of_length HT); congruence|].
    destruct (@compute_E_total e0 B C) as (E1 & EE & LE);
      [congruence|apply (nonempty_of_length HT); assumption|].
    destruct (@compute_I_total i_mild0 (round_ints (scale delta C)) D_mild)
      as (Im1 & EIm & LIm);
      [rewrite round_scale_length; congruence
      |apply (nonempty_of_length HT); rewrite round_scale_length; assumption|].
    rewrite round_scale_length in LIm.
    assert (Lw : length (zipw Z.sub C (round_ints (scale delta C))) = T)
      by (rewrite zipw_length; [assumption|now rewrite round_scale_length]).
    destruct (@compute_I_total i_wild0 (zipw Z.sub C (round_ints (scale delta C))) D_wild)
      as (Iw1 & EIw & LIw);
      [congruence|apply (nonempty_of_length HT); assumption|].
    destruct (@prob_total beta q t_ctrl t_end Im1 Iw1 N1)
      as (tr & P1 & Etr & EP & LP & HP); try lia; try congruence.
    exists S1, E1, Im1, Iw1, P1, N1.
    rewrite ES. unfold opt_bind at 1. rewrite EE. unfold opt_bind at 1.
    rewrite EIm. unfold opt_bind at 1.
    rewrite np_zip_same by (now rewrite round_scale_length).
    unfold opt_bind at 1. rewrite EIw. unfold opt_bind at 1.
    rewrite Etr. unfold opt_bind at 1. rewrite EP.
    repeat split; auto; try congruence.
  Qed.

Lemma params_conditions_total (x : list R) (d : PData) :
    length x = 7%nat -> exists b, params_conditions_fn bounds x d = Some b.
  Proof.
    intros Hx. destruct Hcfg as (_ & _ & _ & _ & Hb).
    destruct x as [|a1 [|a2 [|a3 [|a4 [|a5 [|a6 [|a7 [|a8 x]]]]]]]];
      try discriminate Hx.
    unfold params_conditions_fn. simpl unpack7. unfold opt_bind.
    destruct d as [[[[[S1 E1] Im1] Iw1] P1] N1].
    destruct (negb _); [eauto|].
    destruct (_ || _); [eauto|].
    apply bounds_from_total. simpl. lia.
  Qed.

Lemma params_conditions_true (x : list R) (S1 E1 Im1 Iw1 : list Z)
        (P1 : list R) (N1 : list Z) :
    params_conditions_fn bounds x (S1, E1, Im1, Iw1, P1, N1) = Some true ->
    Forall (fun v => (0 < v)%R) x
    /\ nonneg S1 /\ nonneg E1 /\ nonneg Im1 /\ nonneg Iw1.
  Proof.
    unfold params_conditions_fn. intros H.
    apply opt_bind_Some in H. destruct H as (u & _ & H).
    destruct (forallb (fun v => Rltb 0 v) x) eqn:Ex; simpl in H;
      [|discriminate].
    destruct (all_ge0 S1) eqn:ES; simpl in H; [|discriminate].
    destruct (all_ge0 E1) eqn:EE; simpl in H; [|discriminate].
    destruct (all_ge0 Im1) eqn:EIm; simpl in H; [|discriminate].
    destruct (all_ge0 Iw1) eqn:EIw; simpl in H; [|discriminate].
    rewrite all_ge0_iff in ES, EE, EIm, EIw.
    repeat split; auto.
    apply Forall_forall. intros v Hv. rewrite forallb_forall in Ex.
    apply Rltb_true, Ex, Hv.
  Qed.

Lemma params_proposal_spec (B C D_mild : list Z) (old_k : R)
        (x : list R) (S_ E Im Iw : list Z) (P : list R) (N : list Z) :
    length x = 7%nat ->
    length B = T -> length C = T -> length D_mild = T -> length D_wild = T ->
    length N = T ->
    forall left o n, exists x' d' n',
      params_proposal_loop inits rand_walk_stds t_ctrl B C D_mild D_wild left
        old_k t_end x (S_, E, Im, Iw, P, N) (params_conditions_fn bounds) o n
      = Some ((x', d'), n')
      /\ ((x' = x /\ d' = (S_, E, Im, Iw, P, N))
          \/ (length x' = 7%nat
              /\ params_candidate inits t_ctrl B C D_mild D_wild old_k t_end N x'
                 = Some d'
              /\ params_conditions_fn bounds x' d' = Some true)).
  Proof.
    intros Lx LB LC LDm LDw LN.
    destruct Hcfg as (Hc & Lstd & Hstd & Hpri & Hbnd).
    induction left as [|k IH]; intros o n.
    - simpl. unfold ret. do 3 eexists. split; [reflexivity|]. left. auto.
    - simpl params_proposal_loop. unfold bind.
      destruct (@np_random_normal_total x rand_walk_stds o n)
        as (x_new & Ex & Lnew); [congruence|assumption|].
      rewrite Ex.
      assert (L7 : length x_new = 7%nat) by congruence.
      destruct x_new as [|a1 [|a2 [|a3 [|a4 [|a5 [|a6 [|a7 [|a8 x_new]]]]]]]];
        try discriminate L7.
      destruct inits as [[e0 i_mild0] i_wild0] eqn:Einits.
      destruct (@params_candidate_spec e0 i_mild0 i_wild0 B C D_mild N old_k
                  a1 a2 a3 a4 a5 a6 a7 Einits LB LC LDm LDw LN)
        as (S1 & E1 & Im1 & Iw1 & P1 & N1 & Hcand & _).
      rewrite <- Einits in *.
      unfold lift at 1. rewrite Hcand.
      destruct (@params_conditions_total [a1; a2; a3; a4; a5; a6; a7]
                  (S1, E1, Im1, Iw1, P1, N1) eq_refl) as (b & Hb).
      unfold lift. rewrite Hb.
      destruct b.
      + unfold ret. do 3 eexists. split; [reflexivity|]. right. auto.
      + apply IH.
  Qed.

Lemma params_fn_total (B C D_mild : list Z) (x : list R)
        (S_ E Im Iw : list Z) (P : list R) (N : list Z) :
    length x = 7%nat ->
    length B = T -> length C = T -> length D_mild = T -> length D_wild = T ->
    length S_ = T -> length E = T -> length Im = T -> length Iw = T ->
    length P = T ->
    nonneg S_ -> nonneg E -> nonneg Im -> nonneg Iw ->
    Forall (fun p => (0 <= p <= 1)%R) P ->
    (0 <= nth 3 x 0)%R -> (0 <= nth 4 x 0)%R -> (0 <= nth 5 x 0)%R ->
    exists r, params_fn binom_pmf gamma_pdf priors eps B C D_mild D_wild x
                (S_, E, Im, Iw, P, N) = Some r.
  Proof.
    intros Lx LB LC LDm LDw LS LE LIm LIw LP NS NE NIm NIw HP Hrho Hgm Hgw.
    destruct Hcfg as (_ & _ & _ & Hpri & _ & Hshape).
    destruct x as [|a1 [|a2 [|a3 [|a4 [|a5 [|a6 [|a7 [|a8 x]]]]]]]];
      try discriminate Lx.
    cbn [nth] in Hrho, Hgm, Hgw.
    unfold params_fn. simpl unpack7. unfold opt_bind at 1.
    rewrite (@binom_loglik_isnan_false S_ P B NS HP).
    rewrite (@binom_loglik_isnan_false E [1 - exp (- a4)]%R C NE
               (@hazard_list a4 Hrho)).
    rewrite (@binom_loglik_isnan_false Im [1 - exp (- a5)]%R D_mild NIm
               (@hazard_list a5 Hgm)).
    rewrite (@binom_loglik_isnan_false Iw [1 - exp (- a6)]%R D_wild NIw
               (@hazard_list a6 Hgw)).
    rewrite (@priors_not_nan priors Hshape).
    destruct (@binom_loglik_total binom_pmf eps S_ P B) as (r1 & ->);
      try congruence.
    destruct (@binom_loglik_scalar_total binom_pmf eps E (1 - exp (- a4)) C)
      as (r2 & ->); try congruence.
    destruct (@binom_loglik_scalar_total binom_pmf eps Im (1 - exp (- a5)) D_mild)
      as (r3 & ->); try congruence.
    destruct (@binom_loglik_scalar_total binom_pmf eps Iw (1 - exp (- a6)) D_wild)
      as (r4 & ->); try congruence.
    unfold opt_bind at 1 2 3 4.
    destruct (@log_prior_from_total gamma_pdf eps priors
                [a1; a2; a3; a4; a5; a6; a7] 0%nat 0%R) as (r5 & ->);
      [simpl; lia|].
    simpl. eauto.
  Qed.
End ParamsSampler.

Lemma R0t_of_total (t_rate : list R) (delta gm gw : R) (S_ N : list Z) :
  length S_ = length t_rate -> length N = length t_rate ->
  exists r, R0t_of t_rate delta gm gw S_ N = Some r.
Proof.
  intros LS LN. unfold R0t_of.
  rewrite np_zip_same by (rewrite length_map; congruence).
  unfold opt_bind.
  rewrite np_zip_same by (rewrite zipw_length; rewrite length_map; congruence).
  eauto.
Qed.

Lemma bind_ex {A B} (m : M A) (f : A -> M B) o n a n1 (Q : B * nat -> Prop) :
  m o n = Some (a, n1) ->
  (exists r, f a o n1 = Some r /\ Q r) ->
  exists r, bind m f o n = Some r /\ Q r.
Proof. intros Hm H. unfold bind. rewrite Hm. exact H. Qed.

Lemma inv_holds_facts (D_wild : list Z) (inits : Z * Z * Z) (t_ctrl t_end : Z)
      (st : State) :
  inv_holds D_wild inits t_ctrl t_end st ->
  nonneg (st_S st) /\ nonneg (st_E st) /\ nonneg (st_I_mild st)
  /\ nonneg (st_I_wild st) /\ Forall (fun p => (0 <= p <= 1)%R) (st_P st).
Proof.
  unfold inv_holds. destruct inits as [[e0 i_mild0] i_wild0].
  intros (beta & q & delta & rho & gm & gw & k & _ & NIm & NIw & NS & NE & _ & _
          & _ & _ & HP & _).
  auto.
Qed.

Section ParamsStep.
Variable binom_pmf : Z -> R -> Z -> R.
Variable gamma_pdf : R -> R -> R -> R.
Variables (D_wild : list Z) (inits : Z * Z * Z) (priors : list (R * R)).
Variables (rand_walk_stds : list R) (t_ctrl : Z) (bounds : list (R * R)).
Variables (t_end : Z) (T : nat) (eps : R).
Hypothesis HT : (1 <= T)%nat.
Hypothesis Hend : t_end = Z.of_nat T.
Hypothesis Hcfg : config_ok priors rand_walk_stds t_ctrl bounds.

Lemma candidate_settled (B C D_mild N : list Z) (old_k : R)
        (x' : list R) (d' : PData) :
    length B = T -> length C = T -> length D_mild = T -> length D_wild = T ->
    length N = T ->
    nonneg B -> nonneg C -> nonneg D_mild -> nonneg D_wild ->
    length x' = 7%nat ->
    params_candidate inits t_ctrl B C D_mild D_wild old_k t_end N x' = Some d' ->
    params_conditions_fn bounds x' d' = Some true ->
    settled T D_wild inits t_ctrl t_end B C D_mild x' d'.
  Proof.
    intros LB LC LDm LDw LN NB NC NDm NDw Lx Hcand Hcond.
    destruct x' as [|a1 [|a2 [|a3 [|a4 [|a5 [|a6 [|a7 [|a8 x']]]]]]]];
      try discriminate Lx.
    destruct inits as [[e0 i_mild0] i_wild0] eqn:Einits.
    destruct (@params_candidate_spec D_wild (e0, i_mild0, i_wild0) priors
                rand_walk_stds t_ctrl bounds t_end T HT Hend Hcfg
                e0 i_mild0 i_wild0 B C D_mild N old_k
                a1 a2 a3 a4 a5 a6 a7 eq_refl LB LC LDm LDw LN)
      as (S1 & E1 & Im1 & Iw1 & P1 & N1 & Hc2 & HS & HE & HIm & HIw & HP
          & LS1 & LE1 & LIm1 & LIw1 & LP1 & LN1 & HN1 & Hb).
    rewrite Hc2 in Hcand. inversion Hcand; subst d'.
    apply params_conditions_true in Hcond.
    destruct Hcond as (Hpos & NS1 & NE1 & NIm1 & NIw1).
    assert (Hrates : (0 <= a1)%R /\ (0 <= a4)%R /\ (0 <= a5)%R /\ (0 <= a6)%R).
    { rewrite Forall_forall in Hpos.
      repeat split; left; apply Hpos; simpl; auto 8. }
    unfold settled, wf_state, inv_holds, rates_nonneg, N_pos. simpl.
    split; [repeat split; assumption|].
    split; [|split; [exact Hrates|assumption]].
    exists a1, a2, a3, a4, a5, a6, a7. repeat split; auto.
    apply Hb; auto. apply Hrates.
  Qed.

Lemma sample_params_keeps_inv (st : State) :
    wf_state T D_wild st -> inv_holds D_wild inits t_ctrl t_end st ->
    rates_nonneg st -> N_pos st ->
    forall o n, exists params' d' R0t lp old n',
      sample_params binom_pmf gamma_pdf inits priors rand_walk_stds t_ctrl eps
        bounds (st_B st) (st_C st) (st_D_mild st) D_wild (st_params st)
        (st_S st, st_E st, st_I_mild st, st_I_wild st, st_P st, st_N st) o n
      = Some ((params', d', R0t, lp, old), n')
      /\ settled T D_wild inits t_ctrl t_end (st_B st) (st_C st) (st_D_mild st) params' d'.
  Proof.
    intros Hwf Hinv Hpos HN o n.
    destruct st as [S_ E Im Iw B C Dm P N params].
    assert (Hold : settled T D_wild inits t_ctrl t_end B C Dm params (S_, E, Im, Iw, P, N))
      by (unfold settled; auto).
    assert (Hfacts : exists beta q delta rho gm gw k,
               params = [beta; q; delta; rho; gm; gw; k]
               /\ nonneg B /\ nonneg C /\ nonneg Dm /\ nonneg D_wild).
    { unfold inv_holds in Hinv. destruct inits as [[e0 i_mild0] i_wild0].
      simpl in Hinv.
      destruct Hinv as (beta & q & delta & rho & gm & gw & k & Hp & NIm & NIw
                        & NS & NE' & NB & NC & NDm & NDw & _).
      exists beta, q, delta, rho, gm, gw, k. auto. }
    destruct Hfacts as (beta & q & delta & rho & gm & gw & k & Hp & NB & NC
                        & NDm & NDw).
    destruct Hwf as (LS & LE & LIm & LIw & LB & LC & LDm & LP & LN & LDw).
    simpl in LS, LE, LIm, LIw, LB, LC, LDm, LP, LN.
    simpl st_B. simpl st_C. simpl st_D_mild. simpl st_params. simpl st_S.
    simpl st_E. simpl st_I_mild. simpl st_I_wild. simpl st_P. simpl st_N.
    assert (Lx : length params = 7%nat) by (rewrite Hp; reflexivity).
    assert (Htend : Z.of_nat (length N) = t_end) by congruence.
    assert (Tend : Z.to_nat t_end = T) by lia.
    destruct Hcfg as (Hc & _).
    destruct (@params_proposal_spec D_wild inits priors rand_walk_stds t_ctrl
                bounds t_end T HT Hend Hcfg B C Dm k params S_ E Im Iw P N
                Lx LB LC LDm LDw LN 100%nat o n)
      as (x' & d' & n1 & Hprop & Hcase).
    assert (Hnew : length x' = 7%nat /\ settled T D_wild inits t_ctrl t_end B C Dm x' d').
    { destruct Hcase as [[-> ->]|(Lx' & Hcand & Hcond)]; [auto|].
      split; [assumption|].
      apply (@candidate_settled B C Dm N k x' d'); assumption. }
    destruct Hnew as [Lx' Hnew].
    assert (Hfn : forall y d, length y = 7%nat -> settled T D_wild inits t_ctrl t_end B C Dm y d ->
              exists r, params_fn binom_pmf gamma_pdf priors eps B C Dm D_wild
                          y d = Some r).
    { intros y [[[[[S1 E1] Im1] Iw1] P1] N1] Ly (Hw & Hi & Hr & _).
      unfold wf_state in Hw. simpl in Hw.
      destruct Hw as (? & ? & ? & ? & ? & ? & ? & ? & ? & ?).
      apply inv_holds_facts in Hi. simpl in Hi.
      destruct Hi as (? & ? & ? & ? & ?).
      unfold rates_nonneg in Hr. simpl in Hr. destruct Hr as (? & ? & ? & ?).
      eapply params_fn_total; eauto. }
    destruct (Hfn x' d' Lx' Hnew) as (a & Ha).
    destruct (Hfn params _ Lx Hold) as (b & Hb).
    cut (exists r : list R * PData * list R * R * R * nat,
           sample_params binom_pmf gamma_pdf inits priors rand_walk_stds t_ctrl
             eps bounds B C Dm D_wild params (S_, E, Im, Iw, P, N) o n = Some r
           /\ settled T D_wild inits t_ctrl t_end B C Dm (fst (fst (fst (fst (fst r)))))
                (snd (fst (fst (fst (fst r)))))).
    { intros ([[[[[p d] R0t] lp] old] n'] & H1 & H2).
      exists p, d, R0t, lp, old, n'. auto. }
    assert (Hfin : forall y d lp old, length y = 7%nat -> settled T D_wild inits t_ctrl t_end B C Dm y d ->
              exists r : list R * PData * list R * R * R * nat,
                (bind (lift (unpack7 y)) (fun u =>
                   let '(beta, q, delta, rho, gamma_mild, gamma_wild, k) := u in
                   bind (lift (transmission_rate beta q t_ctrl t_end)) (fun t_rate =>
                   bind (lift (R0t_of t_rate delta gamma_mild gamma_wild S_ N))
                     (fun R0t => ret (y, d, R0t, lp, old))))) o (S n1) = Some r
                /\ settled T D_wild inits t_ctrl t_end B C Dm (fst (fst (fst (fst (fst r)))))
                     (snd (fst (fst (fst (fst r)))))).
    { intros y d lp old Ly Hset.
      destruct y as [|a1 [|a2 [|a3 [|a4 [|a5 [|a6 [|a7 [|a8 y]]]]]]]];
        try discriminate Ly.
      destruct (@transmission_rate_spec a1 a2 t_ctrl t_end Hc ltac:(lia))
        as (tr & Etr & Ltr & _).
      destruct (@R0t_of_total tr a3 a5 a6 S_ N) as (r & Er); try congruence.
      eexists. unfold bind, lift, ret. simpl unpack7. cbv beta iota.
      rewrite Etr, Er. split; [reflexivity|]. simpl. exact Hset. }
    unfold sample_params. rewrite Htend.
    eapply bind_ex.
    { unfold lift. rewrite Hp. simpl. reflexivity. }
    cbv beta iota.
    eapply bind_ex.
    { apply metropolis_hastings_run; eassumption. }
    destruct (Rleb _ _); cbv beta iota.
    - apply Hfin; assumption.
    - apply Hfin; assumption.
  Qed.
End ParamsStep.

(** ** One iteration of the training loop *)

Section TrainStep.
Variable binom_pmf : Z -> R -> Z -> R.
Variable gamma_pdf : R -> R -> R -> R.
Variables (D_wild : list Z) (inits : Z * Z * Z) (priors : list (R * R)).
Variables (rand_walk_stds : list R) (t_ctrl : Z) (bounds : list (R * R)).
Variables (t_end : Z) (T : nat).
Hypothesis HT : (1 <= T)%nat.
Hypothesis Hend : t_end = Z.of_nat T.
Hypothesis Hcfg : config_ok priors rand_walk_stds t_ctrl bounds.

Lemma assert_rep_inv (st : State) o n :
    wf_state T D_wild st -> inv_holds D_wild inits t_ctrl t_end st ->
    assert_ (rep_inv D_wild inits t_ctrl t_end st) o n = Some (tt, n).
  Proof.
    intros Hwf Hinv.
    rewrite (proj2 (@rep_inv_iff D_wild inits t_ctrl t_end T st Hwf HT Hend) Hinv).
    reflexivity.
  Qed.

Lemma train_step_keeps_inv (st : State) o n :
    sound T D_wild inits t_ctrl t_end st ->
    exists r : State * list R * R * R * nat,
      train_step binom_pmf gamma_pdf D_wild inits priors rand_walk_stds t_ctrl
        bounds t_end st o n = Some r
      /\ sound T D_wild inits t_ctrl t_end (fst (fst (fst (fst r)))).
  Proof.
    intros (Hwf & Hrep & Hpos & HN).
    apply (@rep_inv_iff D_wild inits t_ctrl t_end T st Hwf HT Hend) in Hrep.
    destruct Hcfg as (Hc & _).
    destruct st as [S_ E Im Iw B C Dm P N params].
    unfold train_step.
    (* B *)
    destruct (@sample_B_keeps_inv binom_pmf D_wild inits t_ctrl t_end T epsilon
                HT _ Hwf Hrep o n)
      as (B1 & S1 & E1 & lp1 & old1 & n1 & HB & Hwf1 & Hinv1).
    simpl in HB, Hwf1, Hinv1.
    eapply bind_ex; [exact HB|]. cbv beta iota.
    eapply bind_ex; [apply assert_rep_inv; assumption|].
    (* C *)
    destruct (@sample_C_keeps_inv binom_pmf D_wild inits t_ctrl t_end T epsilon
                HT Hend _ Hwf1 Hinv1 Hpos HN Hc o n1)
      as (C2 & E2 & Im2 & Iw2 & P2 & lp2 & old2 & n2 & HC & Hwf2 & Hinv2).
    simpl in HC, Hwf2, Hinv2.
    eapply bind_ex; [exact HC|]. cbv beta iota.
    eapply bind_ex; [apply assert_rep_inv; assumption|].
    (* D_mild *)
    destruct (@sample_D_mild_keeps_inv binom_pmf D_wild inits t_ctrl t_end T
                epsilon HT Hend _ Hwf2 Hinv2 Hpos HN Hc o n2)
      as (Dm3 & Im3 & P3 & lp3 & old3 & n3 & HD & Hwf3 & Hinv3).
    simpl in HD, Hwf3, Hinv3.
    eapply bind_ex; [exact HD|]. cbv beta iota.
    eapply bind_ex; [apply assert_rep_inv; assumption|].
    (* params *)
    destruct (@sample_params_keeps_inv binom_pmf gamma_pdf D_wild inits priors
                rand_walk_stds t_ctrl bounds t_end T epsilon HT Hend Hcfg
                _ Hwf3 Hinv3 Hpos HN o n3)
      as (params4 & [[[[[S4 E4] Im4] Iw4] P4] N4] & R0t & lp4 & old4 & n4
          & HP & Hset).
    simpl in HP. unfold settled in Hset.
    destruct Hset as (Hwf4 & Hinv4 & Hpos4 & HN4).
    simpl in Hwf4, Hinv4, Hpos4, HN4.
    eapply bind_ex; [exact HP|]. cbv beta iota.
    eapply bind_ex; [apply assert_rep_inv; assumption|].
    unfold ret. eexists. split; [reflexivity|]. simpl.
    split; [assumption|]. split; [|split; assumption].
    apply (@rep_inv_iff D_wild inits t_ctrl t_end T _ Hwf4 HT Hend). assumption.
  Qed.

Lemma train_loop_keeps_inv (n_burn_in save_freq : nat) :
    (1 <= save_freq)%nat ->
    forall todo i st saved_params saved_R0ts o n,
      sound T D_wild inits t_ctrl t_end st ->
      exists r : State * list (list R) * list (list R) * nat,
        train_loop binom_pmf gamma_pdf D_wild inits priors rand_walk_stds t_ctrl
          bounds t_end todo i n_burn_in save_freq st saved_params saved_R0ts o n
        = Some r
        /\ sound T D_wild inits t_ctrl t_end (fst (fst (fst r))).
  Proof.
    intros Hsf. induction todo as [|todo IH];
      intros i st saved_params saved_R0ts o n Hst; simpl train_loop.
    - unfold ret. eexists. split; [reflexivity|]. exact Hst.
    - destruct (@train_step_keeps_inv st o n Hst)
        as ([[[[st' R0t] lp] old] n'] & Hstep & Hst').
      simpl in Hst'.
      eapply bind_ex; [exact Hstep|]. cbv beta iota.
      replace (Nat.eqb save_freq 0) with false
        by (symmetry; apply Nat.eqb_neq; lia).
      rewrite andb_false_r. simpl assert_.
      eapply bind_ex; [reflexivity|].
      destruct (_ && _); apply IH; assumption.
  Qed.
End TrainStep.

(** ** A negative transmission rate *)

Lemma accepting_range a b : (0 < accepting a b < 1)%R.
Proof.
  unfold accepting. split; [apply exp_pos|].
  pose proof (Rmin_l 0 (value a - value b)) as H.
  apply Rlt_le_trans with (exp 0); [apply exp_increasing; lra|].
  rewrite exp_0. lra.
Qed.

Lemma accepting_accepts a b x y :
  a = Some x -> b = Some y ->
  Rleb (ln (accepting a b)) (Rmin 0 (x - y)) = true.
Proof.
  intros -> ->. apply Rleb_true. unfold accepting. rewrite ln_exp. simpl. lra.
Qed.

Lemma round_int_of_Z (z : Z) (x : R) : x = IZR z -> round_int x = z.
Proof.
  intros ->. unfold round_int. apply Zfloor_eq. lra.
Qed.









(** ** The training loop keeps the representation invariant *)

(** X25.  From a state that passes [check_rep_inv], whose rates [beta],
    [rho], [gamma_mild], [gamma_wild] are not negative and whose population
    is at least one on every day, under a configuration that the samplers
    accept ([t_ctrl >= 0], seven non-negative random-walk deviations, at
    most seven priors, all of positive shape, and at most seven bounds), one
    iteration of the training loop returns: [sample_B], [sample_C],
    [sample_D_mild] and [sample_params] each return, the [check_rep_inv]
    after each of them passes, and the state reached again has non-negative
    rates and a positive population.  So does every run of the loop. *)
Theorem training_iteration_keeps_rep_inv
    (binom_pmf : Z -> R -> Z -> R) (gamma_pdf : R -> R -> R -> R)
    (D_wild : list Z) (inits : Z * Z * Z) (priors : list (R * R))
    (rand_walk_stds : list R) (t_ctrl : Z) (bounds : list (R * R))
    (T : nat) (st : State) :
  (1 <= T)%nat ->
  config_ok priors rand_walk_stds t_ctrl bounds ->
  wf_state T D_wild st ->
  rep_inv D_wild inits t_ctrl (Z.of_nat T) st = true ->
  rates_nonneg st -> N_pos st ->
  (forall o n,
      exists r : State * list R * R * R * nat,
        train_step binom_pmf gamma_pdf D_wild inits priors rand_walk_stds t_ctrl
          bounds (Z.of_nat T) st o n = Some r
        /\ wf_state T D_wild (fst (fst (fst (fst r))))
        /\ rep_inv D_wild inits t_ctrl (Z.of_nat T) (fst (fst (fst (fst r)))) = true
        /\ rates_nonneg (fst (fst (fst (fst r))))
        /\ N_pos (fst (fst (fst (fst r)))))
  /\ (forall n_iter i n_burn_in save_freq saved_params saved_R0ts o n,
         (1 <= save_freq)%nat ->
         exists r : State * list (list R) * list (list R) * nat,
           train_loop binom_pmf gamma_pdf D_wild inits priors rand_walk_stds
             t_ctrl bounds (Z.of_nat T) n_iter i n_burn_in save_freq st
             saved_params saved_R0ts o n = Some r
           /\ wf_state T D_wild (fst (fst (fst r)))
           /\ rep_inv D_wild inits t_ctrl (Z.of_nat T) (fst (fst (fst r))) = true
           /\ rates_nonneg (fst (fst (fst r)))
           /\ N_pos (fst (fst (fst r)))).
Proof.
  intros HT Hcfg Hwf Hrep Hpos HN.
  assert (Hs : sound T D_wild inits t_ctrl (Z.of_nat T) st)
    by (unfold sound; auto).
  split.
  - intros o n.
    apply (@train_step_keeps_inv binom_pmf gamma_pdf D_wild inits priors
             rand_walk_stds t_ctrl bounds (Z.of_nat T) T HT eq_refl Hcfg st o n Hs).
  - intros n_iter i n_burn_in save_freq sp sr o n Hsf.
    apply (@train_loop_keeps_inv binom_pmf gamma_pdf D_wild inits priors
             rand_walk_stds t_ctrl bounds (Z.of_nat T) T HT eq_refl Hcfg
             n_burn_in save_freq Hsf n_iter i st sp sr o n Hs).
Qed.

Lemma cli_config_ok : config_ok cli_priors cli_stds 1 cli_bounds.
Proof.
  unfold config_ok, cli_priors, cli_stds, cli_bounds. simpl.
  repeat split; try lia; repeat constructor; simpl; lra.
Qed.

Lemma k_config_ok : config_ok cli_priors cli_stds 2 cli_bounds.
Proof.
  unfold config_ok, cli_priors, cli_stds, cli_bounds. simpl.
  repeat split; try lia; repeat constructor; simpl; lra.
Qed.

Lemma one_day_rep_inv : rep_inv [0]%Z (1, 1, 1)%Z 1 (Z.of_nat 1) one_day = true.
Proof.
  apply (@rep_inv_iff [0]%Z (1, 1, 1)%Z 1 (Z.of_nat 1) 1 one_day);
    [repeat split|lia|reflexivity|].
  unfold inv_holds, one_day, nonneg.
  cbn [st_S st_E st_I_mild st_I_wild st_B st_C st_D_mild st_P st_N st_params].
  do 7 eexists. split; [unfold cli_params; reflexivity|].
  assert (Hr : transmission_rate 1 (1 / 10) 1 (Z.of_nat 1) = Some [1 * 1]%R).
  { unfold transmission_rate. simpl. rewrite sign_test_passes. reflexivity. }
  rewrite Hr.
  repeat split; try (repeat constructor; lia); try reflexivity.
  constructor; [|constructor]. apply prob_of_rate; try lia; lra.
Qed.

Lemma k_state_wf : wf_state 2 [0; 0]%Z k_state.
Proof. repeat split. Qed.

Lemma zero_shares (delta : R) : round_ints (scale delta [0; 0]%Z) = [0; 0]%Z.
Proof.
  unfold round_ints, scale. cbn [map].
  repeat f_equal; apply round_int_of_Z; simpl; lra.
Qed.

Lemma k_state_rep_inv :
  rep_inv [0; 0]%Z (50, 10, 10)%Z 2 (Z.of_nat 2) k_state = true.
Proof.
  apply (@rep_inv_iff [0; 0]%Z (50, 10, 10)%Z 2 (Z.of_nat 2) 2 k_state
           k_state_wf); [lia|reflexivity|].
  unfold inv_holds, k_state, nonneg.
  cbn [st_S st_E st_I_mild st_I_wild st_B st_C st_D_mild st_P st_N st_params].
  do 7 eexists. split; [unfold cli_params; reflexivity|].
  assert (Hr : transmission_rate 1 (1 / 10) 2 (Z.of_nat 2) = Some [1 * 1; 1 * 1]%R).
  { unfold transmission_rate. simpl. rewrite sign_test_passes. reflexivity. }
  rewrite Hr, zero_shares.
  repeat split; try (repeat constructor; lia); try reflexivity.
  constructor; [|constructor; [|constructor]]; apply prob_of_rate; try lia; lra.
Qed.

Lemma training_iteration_keeps_rep_inv_witness :
  exists r : State * list (list R) * list (list R) * nat,
    train_loop binom_pmf_math (fun _ _ _ => 1%R) [0; 0]%Z (50, 10, 10)%Z
      cli_priors cli_stds 2 cli_bounds (Z.of_nat 2) 3 0 1 1 k_state [] []
      gen_prop 0
    = Some r
    /\ wf_state 2 [0; 0]%Z (fst (fst (fst r)))
    /\ rep_inv [0; 0]%Z (50, 10, 10)%Z 2 (Z.of_nat 2) (fst (fst (fst r))) = true
    /\ rates_nonneg (fst (fst (fst r)))
    /\ N_pos (fst (fst (fst r))).
Proof.
  refine (proj2 (@training_iteration_keeps_rep_inv binom_pmf_math
                   (fun _ _ _ => 1%R) [0; 0]%Z (50, 10, 10)%Z cli_priors cli_stds
                   2 cli_bounds 2 k_state _ k_config_ok k_state_wf
                   k_state_rep_inv _ _)
            3%nat 0%nat 1%nat 1%nat [] [] gen_prop 0%nat _).
  - lia.
  - unfold rates_nonneg, k_state, cli_params. simpl. lra.
  - unfold N_pos, k_state. simpl. repeat constructor; lia.
  - lia.
Defined.

(** ** The aggregate basic reproduction number *)

(** C2, at the failing input.  For a saved sample
    [p = [beta, q, delta, rho, gamma_mild, gamma_wild, k]] the code divides
    by [sum(D_mild)*rho + sum(D_wild)*gamma_mild]; with
    [sum(D_mild) = sum(D_wild) = 1] and
    [p = [1, 0.1, 0.5, 0.3, 0.2, 0.4, 1]] it returns [2/(0.3+0.2) = 4],
    where the formula with [gamma_mild] and [gamma_wild] gives
    [2/(0.2+0.4)]. *)
Theorem R0_of_divides_by_rho_and_gamma_mild :
  (forall (D_mild D_wild : list Z) (beta q delta rho gamma_mild gamma_wild k : R),
      R0_of D_mild D_wild [beta; q; delta; rho; gamma_mild; gamma_wild; k]
      = Some (IZR (sumZ D_mild + sumZ D_wild) * beta
              / (IZR (sumZ D_mild) * rho + IZR (sumZ D_wild) * gamma_mild))%R)
  /\ R0s [0; 1]%Z [1; 0]%Z [[1; 1 / 10; 1 / 2; 3 / 10; 2 / 10; 4 / 10; 1]%R]
     = Some [4%R]
  /\ R0_interval [0; 1]%Z [1; 0]%Z [[1; 1 / 10; 1 / 2; 3 / 10; 2 / 10; 4 / 10; 1]%R]
     = Some (4, 4)%R
  /\ (4 <> IZR (1 + 1) * 1 / (IZR 1 * (2 / 10) + IZR 1 * (4 / 10)))%R.
Proof.
  assert (HR : R0s [0; 1]%Z [1; 0]%Z
                 [[1; 1 / 10; 1 / 2; 3 / 10; 2 / 10; 4 / 10; 1]%R] = Some [4%R]).
  { unfold R0s, R0_of, opt_bind. simpl. do 2 f_equal. field. }
  split; [reflexivity|]. split; [exact HR|]. split.
  - unfold R0_interval. rewrite HR. unfold opt_bind, np_std, np_mean, sumR.
    simpl. f_equal.
    replace ((4 + 0) / 1)%R with 4%R by field.
    replace (((4 - 4) * (4 - 4) + 0) / 1)%R with 0%R by field.
    rewrite sqrt_0. f_equal; lra.
  - simpl. lra.
Qed.

(** ** The effective reproduction number returned by [sample_params] *)

Ltac decide_Rltb :=
  repeat match goal with
         | |- context [Rltb ?a ?b] =>
             first [ replace (Rltb a b) with true
                       by (symmetry; apply Rltb_true; lra)
                   | replace (Rltb a b) with false
                       by (symmetry; apply Rltb_false; lra) ]
         end.

Lemma k_draw g :
  np_random_normal cli_params k_stds (k_gen g) 0 = Some (k_params_new, 1%nat).
Proof.
  unfold np_random_normal, cli_params, k_stds, k_params_new.
  cbn [existsb]. decide_Rltb. cbn [orb].
  unfold np_zip. cbn [length Nat.eqb zipw seq map k_gen o_gauss fst snd].
  do 2 f_equal. repeat (apply (f_equal2 (@cons R)); [lra|]). reflexivity.
Qed.

Lemma k_candidate :
  params_candidate (50, 10, 10)%Z 2 [100; 0]%Z [0; 0]%Z [0; 0]%Z [0; 0]%Z 1 2
    [1000; 1000]%Z k_params_new = Some k_data_new.
Proof.
  unfold params_candidate, k_params_new. cbn [unpack7 opt_bind map].
  rewrite (@round_int_of_Z 2000 (IZR 1000 * 1 / (1 / 2))) by field.
  cbn [Z.ltb Z.compare Pos.compare Pos.compare_cont].
  replace (round_ints (scale (1 / 2) [0; 0]%Z)) with [0; 0]%Z.
  2:{ unfold round_ints, scale. cbn [map].
      repeat f_equal; symmetry; apply round_int_of_Z; lra. }
  assert (Hr : transmission_rate 1 (1 / 10) 2 2 = Some [1 * 1; 1 * 1]%R).
  { unfold transmission_rate. simpl. rewrite sign_test_passes. reflexivity. }
  rewrite Hr. reflexivity.
Qed.

Lemma k_conditions :
  params_conditions_fn cli_bounds k_params_new k_data_new = Some true.
Proof.
  unfold params_conditions_fn, k_params_new, k_data_new, cli_bounds.
  cbn [unpack7 opt_bind forallb bounds_from nth_error].
  decide_Rltb. reflexivity.
Qed.

Lemma k_proposal g :
  params_proposal_loop (50, 10, 10)%Z k_stds 2 [100; 0]%Z [0; 0]%Z [0; 0]%Z
    [0; 0]%Z 100 1 2 cli_params k_data (params_conditions_fn cli_bounds)
    (k_gen g) 0
  = Some ((k_params_new, k_data_new), 1%nat).
Proof.
  cbn [params_proposal_loop k_data]. unfold bind.
  rewrite k_draw. unfold lift. rewrite k_candidate, k_conditions. reflexivity.
Qed.

Lemma k_fn_total g (x : list R) (d : PData) :
  x = cli_params \/ x = k_params_new -> d = k_data \/ d = k_data_new ->
  exists r, params_fn binom_pmf_math g cli_priors epsilon
              [100; 0]%Z [0; 0]%Z [0; 0]%Z [0; 0]%Z x d = Some r.
Proof.
  intros Hx Hd.
  assert (Hcfg : config_ok cli_priors k_stds 2 cli_bounds).
  { unfold config_ok, cli_priors, k_stds, cli_bounds. simpl.
    repeat split; try lia; repeat constructor; simpl; lra. }
  assert (Hx' : length x = 7%nat /\ (0 <= nth 3 x 0)%R /\ (0 <= nth 4 x 0)%R
                /\ (0 <= nth 5 x 0)%R).
  { destruct Hx as [-> | ->]; unfold cli_params, k_params_new; simpl;
      repeat split; lra. }
  destruct Hx' as (Lx & H3 & H4 & H5).
  assert (HP : forall n, (0 < n)%Z ->
             Forall (fun p => (0 <= p <= 1)%R)
               [1 - exp (- (1 * 1) * IZR (10 + 10) / IZR n);
                1 - exp (- (1 * 1) * IZR (10 + 10) / IZR n)]%R).
  { intros n Hn. constructor; [|constructor; [|constructor]];
      apply prob_of_rate; try lia; lra. }
  destruct Hd as [-> | ->]; unfold k_data, k_data_new;
    apply (@params_fn_total binom_pmf_math g [0; 0]%Z cli_priors k_stds 2
             cli_bounds 2 epsilon ltac:(lia) Hcfg); auto;
    try (repeat constructor; lia); apply HP; lia.
Qed.

(** Whatever the generator draws, the [R0t] that [sample_params] returns is
    computed from the parameters it returns and from the [S] and [N] it was
    given. *)
Lemma sample_params_R0t_from_input
      (binom_pmf : Z -> R -> Z -> R) (gamma_pdf : R -> R -> R -> R)
      (inits : Z * Z * Z) (priors : list (R * R)) (rand_walk_stds : list R)
      (t_ctrl : Z) (eps : R) (bounds : list (R * R))
      (B C D_mild D_wild : list Z) (params : list R)
      (S_ E I_mild I_wild : list Z) (P : list R) (N : list Z)
      o n params' d' R0t lp old n' :
  sample_params binom_pmf gamma_pdf inits priors rand_walk_stds t_ctrl eps
    bounds B C D_mild D_wild params (S_, E, I_mild, I_wild, P, N) o n
  = Some ((params', d', R0t, lp, old), n') ->
  exists beta q delta rho gamma_mild gamma_wild k t_rate,
    params' = [beta; q; delta; rho; gamma_mild; gamma_wild; k]
    /\ transmission_rate beta q t_ctrl (Z.of_nat (length N)) = Some t_rate
    /\ R0t_of t_rate delta gamma_mild gamma_wild S_ N = Some R0t.
Proof.
  unfold sample_params. intros H.
  apply bind_Some in H. destruct H as (u & m0 & Hu & H).
  destruct u as [[[[[[b0 q0] d0] r0] gm0] gw0] k0].
  apply bind_Some in H. destruct H as ([[[y dy] lpn] lpo] & m1 & Hmh & H).
  apply bind_Some in H. destruct H as (u' & m2 & Hu' & H).
  apply lift_Some in Hu'. destruct Hu' as [Hu' ->].
  destruct (unpack7_Some _ Hu')
    as (beta & q & delta & rho & gm & gw & k & Hy & ->).
  apply bind_Some in H. destruct H as (tr & m3 & Htr & H).
  apply lift_Some in Htr. destruct Htr as [Htr ->].
  apply bind_Some in H. destruct H as (R & m4 & HR & H).
  apply lift_Some in HR. destruct HR as [HR ->].
  apply ret_Some in H. inversion H; subst.
  exists beta, q, delta, rho, gm, gw, k, tr. auto.
Qed.

(** C3, at the failing input.  [N = [1000, 1000]], [B = [100, 0]], so
    [S = [1000, 900]]; the proposal halves [k] and is accepted, and
    [sample_params] returns [N = [2000, 2000]] and [S = [2000, 1900]].  The
    [R0t] it returns is [5 * 900/1000 = 9/2] on day 1, computed from the [S]
    and [N] it was given; from the returned [S] and [N] the formula gives
    [5 * 1900/2000 = 19/4]. *)
Theorem sample_params_R0t_uses_given_series (gamma_pdf : R -> R -> R -> R) :
  exists R0t lp old,
    sample_params binom_pmf_math gamma_pdf (50, 10, 10)%Z cli_priors k_stds 2
      epsilon cli_bounds [100; 0]%Z [0; 0]%Z [0; 0]%Z [0; 0]%Z cli_params
      k_data (k_gen gamma_pdf) 0
    = Some ((k_params_new, k_data_new, R0t, lp, old), 2%nat)
    /\ nth 1 R0t 0%R = (9 / 2)%R
    /\ (exists t_rate R0t_claimed,
          transmission_rate 1 (1 / 10) 2 2 = Some t_rate
          /\ R0t_of t_rate (1 / 2) (2 / 10) (2 / 10) [2000; 1900]%Z [2000; 2000]%Z
             = Some R0t_claimed
          /\ nth 1 R0t_claimed 0%R = (19 / 4)%R)
    /\ (9 / 2 <> 19 / 4)%R.
Proof.
  destruct (@k_fn_total gamma_pdf k_params_new k_data_new (or_intror eq_refl)
              (or_intror eq_refl)) as (a & Ha).
  destruct (@k_fn_total gamma_pdf cli_params k_data (or_introl eq_refl)
              (or_introl eq_refl)) as (b & Hb).
  assert (Hr : transmission_rate 1 (1 / 10) 2 2 = Some [1 * 1; 1 * 1]%R).
  { unfold transmission_rate. simpl. rewrite sign_test_passes. reflexivity. }
  eexists _, a, b. split; [|split; [|split]].
  - unfold sample_params. unfold k_data at 1. cbv beta iota.
    unfold bind at 1. unfold cli_params at 1. simpl lift at 1. cbv beta iota.
    unfold bind at 1.
    match goal with
    | |- context [metropolis_hastings ?f ?p ?c ?x ?d 1 ?o ?n] =>
        rewrite (@metropolis_hastings_run _ _ _ f p c x d o n
                   k_params_new k_data_new 1%nat a b
                   (k_proposal gamma_pdf) Ha Hb)
    end.
    replace (o_unif (k_gen gamma_pdf) 1) with
      (accepting
         (params_fn binom_pmf_math gamma_pdf cli_priors epsilon
            [100; 0]%Z [0; 0]%Z [0; 0]%Z [0; 0]%Z k_params_new k_data_new)
         (params_fn binom_pmf_math gamma_pdf cli_priors epsilon
            [100; 0]%Z [0; 0]%Z [0; 0]%Z [0; 0]%Z cli_params k_data))
      by reflexivity.
    rewrite (accepting_accepts Ha Hb). cbv beta iota.
    unfold bind, lift. unfold k_params_new at 1. cbn [unpack7].
    change (Z.of_nat (length [1000%Z; 1000%Z])) with 2%Z. rewrite Hr.
    unfold R0t_of, np_zip, opt_bind, ret.
    cbn [length map Nat.eqb zipw]. reflexivity.
  - cbn [nth]. field.
  - exists [1 * 1; 1 * 1]%R. eexists. split; [exact Hr|]. split.
    + unfold R0t_of, np_zip, opt_bind. cbn [length map Nat.eqb zipw]. reflexivity.
    + cbn [nth]. field.
  - lra.
Qed.

(** ** More on the recursion library *)

Lemma sumZ_firstn_S (a : list Z) (t : nat) :
  (t < length a)%nat ->
  sumZ (firstn (S t) a) = (sumZ (firstn t a) + nth t a 0)%Z.
Proof.
  revert t; induction a as [|x a IH]; intros t Ht; [simpl in Ht; lia|].
  destruct t as [|t].
  - unfold sumZ; simpl. destruct a; simpl; lia.
  - change (firstn (S (S t)) (x :: a)) with (x :: firstn (S t) a).
    change (firstn (S t) (x :: a)) with (x :: firstn t a).
    change (nth (S t) (x :: a) 0%Z) with (nth t a 0%Z).
    change (sumZ (x :: firstn (S t) a)) with (x + sumZ (firstn (S t) a))%Z.
    change (sumZ (x :: firstn t a)) with (x + sumZ (firstn t a))%Z.
    rewrite IH by (simpl in Ht; lia). lia.
Qed.

(** The flow recursion shared by [compute_E] and [compute_I]. *)
Lemma flow_recurrence (i0 : Z) (inflow outflow : list Z) :
  length inflow = length outflow -> inflow <> [] ->
  exists I,
    compute_I i0 inflow outflow = Some I
    /\ length I = length inflow
    /\ nth 0 I 0%Z = i0
    /\ forall t, (S t < length inflow)%nat ->
         nth (S t) I 0%Z = (nth t I 0 + nth t inflow 0 - nth t outflow 0)%Z.
Proof.
  intros Hl Hne.
  assert (Hd : length (zipw Z.sub inflow outflow) = length inflow)
    by (apply zipw_length; assumption).
  assert (Hdne : zipw Z.sub inflow outflow <> [])
    by (destruct inflow, outflow; simpl in *; congruence).
  exists (map (fun c => (i0 + c)%Z) (shifted_cumsum (zipw Z.sub inflow outflow))).
  assert (Hn : forall t, (t < length inflow)%nat ->
             nth t (map (fun c => (i0 + c)%Z)
                      (shifted_cumsum (zipw Z.sub inflow outflow))) 0%Z
             = (i0 + sumZ (firstn t (zipw Z.sub inflow outflow)))%Z).
  { intros t Ht.
    rewrite nth_map_in with (da := 0%Z)
      by (rewrite shifted_cumsum_length by assumption; lia).
    rewrite nth_shifted_cumsum by lia. reflexivity. }
  split; [|split; [|split]].
  - unfold compute_I. rewrite np_zip_same by assumption. reflexivity.
  - rewrite length_map, shifted_cumsum_length; assumption.
  - rewrite Hn by (destruct inflow; simpl in *; [congruence|lia]).
    unfold sumZ; simpl. lia.
  - intros t Ht. rewrite !Hn by lia.
    rewrite sumZ_firstn_S by lia.
    rewrite nth_zipw with (da := 0%Z) (db := 0%Z) by lia. lia.
Qed.

(** X1.  For series of one length [T >= 1], [compute_E] and [compute_I]
    return the series of length [T] that starts at the initial value and
    obeys the recursion of their docstrings:
    [E(0) = e0], [E(t+1) = E(t) + B(t) - C(t)] and
    [I(0) = i0], [I(t+1) = I(t) + C(t) - D(t)]. *)
Theorem compute_E_I_recurrence (x0 : Z) (inflow outflow : list Z) :
  length inflow = length outflow -> inflow <> [] ->
  (exists E,
      compute_E x0 inflow outflow = Some E
      /\ length E = length inflow
      /\ nth 0 E 0%Z = x0
      /\ forall t, (S t < length inflow)%nat ->
           nth (S t) E 0%Z = (nth t E 0 + nth t inflow 0 - nth t outflow 0)%Z)
  /\ (exists I,
         compute_I x0 inflow outflow = Some I
         /\ length I = length inflow
         /\ nth 0 I 0%Z = x0
         /\ forall t, (S t < length inflow)%nat ->
              nth (S t) I 0%Z = (nth t I 0 + nth t inflow 0 - nth t outflow 0)%Z).
Proof.
  intros Hl Hne. split; apply flow_recurrence; assumption.
Qed.

Lemma compute_E_I_recurrence_witness :
  exists E,
    compute_E 50 [5; 3; 0]%Z [2; 4; 9]%Z = Some E
    /\ length E = 3%nat
    /\ nth 0 E 0%Z = 50%Z
    /\ forall t, (S t < 3)%nat ->
         nth (S t) E 0%Z
         = (nth t E 0 + nth t [5; 3; 0] 0 - nth t [2; 4; 9] 0)%Z.
Proof.
  apply (proj1 (@compute_E_I_recurrence 50 [5; 3; 0]%Z [2; 4; 9]%Z
                  eq_refl ltac:(discriminate))).
Defined.

(** X2.  For [B] and [N] of one length [T >= 1], [compute_S] returns the
    series of its docstring: [S(0) = N(0)] and
    [S(t+1) = S(t) - B(t) + N(t+1) - N(t)]. *)
Theorem compute_S_recurrence (e0 i_mild0 i_wild0 : Z) (B N : list Z) :
  length B = length N -> N <> [] ->
  exists S_,
    compute_S e0 i_mild0 i_wild0 B N = Some S_
    /\ length S_ = length N
    /\ nth 0 S_ 0%Z = nth 0 N 0%Z
    /\ forall t, (S t < length N)%nat ->
         nth (S t) S_ 0%Z
         = (nth t S_ 0 - nth t B 0 + nth (S t) N 0 - nth t N 0)%Z.
Proof.
  intros Hl HN.
  destruct (@compute_S_spec e0 i_mild0 i_wild0 B N Hl HN) as (S_ & E & L & Hn).
  exists S_. split; [assumption|]. split; [assumption|]. split.
  - rewrite Hn by (destruct N; simpl in *; [congruence|lia]).
    unfold sumZ; simpl. lia.
  - intros t Ht. rewrite !Hn by lia. rewrite sumZ_firstn_S by lia. lia.
Qed.

Lemma compute_S_recurrence_witness :
  exists S_,
    compute_S 50 10 10 [3; 4; 5]%Z [500; 501; 499]%Z = Some S_
    /\ length S_ = 3%nat
    /\ nth 0 S_ 0%Z = 500%Z
    /\ forall t, (S t < 3)%nat ->
         nth (S t) S_ 0%Z
         = (nth t S_ 0 - nth t [3; 4; 5] 0
            + nth (S t) [500; 501; 499] 0 - nth t [500; 501; 499] 0)%Z.
Proof.
  apply (@compute_S_recurrence 50 10 10 [3; 4; 5]%Z [500; 501; 499]%Z
           eq_refl ltac:(discriminate)).
Defined.

Lemma cumsum_from_app acc (l : list Z) (x : Z) :
  removelast (cumsum_from acc (l ++ [x])) = cumsum_from acc l.
Proof.
  revert acc; induction l as [|y l IH]; intros acc; [reflexivity|].
  simpl app. simpl cumsum_from.
  rewrite <- IH with (acc := (acc + y)%Z).
  destruct l; reflexivity.
Qed.

Lemma shifted_cumsum_last (l : list Z) (x y : Z) :
  shifted_cumsum (l ++ [x]) = shifted_cumsum (l ++ [y]).
Proof. unfold shifted_cumsum, cumsum. now rewrite !cumsum_from_app. Qed.

Lemma zipw_app {A B C} (f : A -> B -> C) (a a' : list A) (b b' : list B) :
  length a = length b ->
  zipw f (a ++ a') (b ++ b') = zipw f a b ++ zipw f a' b'.
Proof.
  revert b; induction a as [|x a IH]; intros [|y b] H; simpl in *;
    try discriminate; auto.
  rewrite IH by lia. reflexivity.
Qed.

(** X3.  The counts of the last day never enter the recursions: changing
    the last entry of [B] leaves [compute_S] unchanged, and changing the last
    entries of the inflow and of the outflow leaves [compute_E] and
    [compute_I] unchanged. *)
Theorem last_day_counts_are_ignored (B C : list Z) (b b' c c' : Z) :
  (forall e0 i_mild0 i_wild0 N,
      compute_S e0 i_mild0 i_wild0 (B ++ [b]) N
      = compute_S e0 i_mild0 i_wild0 (B ++ [b']) N)
  /\ (length B = length C ->
      forall x0,
        compute_E x0 (B ++ [b]) (C ++ [c]) = compute_E x0 (B ++ [b']) (C ++ [c'])
        /\ compute_I x0 (B ++ [b]) (C ++ [c]) = compute_I x0 (B ++ [b']) (C ++ [c'])).
Proof.
  split.
  - intros e0 i_mild0 i_wild0 N. unfold compute_S.
    now rewrite (shifted_cumsum_last B b b').
  - intros Hl x0.
    assert (H : compute_I x0 (B ++ [b]) (C ++ [c])
                = compute_I x0 (B ++ [b']) (C ++ [c'])).
    { unfold compute_I.
      rewrite !np_zip_same by (rewrite !length_app; simpl; lia).
      unfold opt_bind. rewrite !zipw_app by assumption. simpl zipw.
      now rewrite (shifted_cumsum_last (zipw Z.sub B C) (b - c) (b' - c')). }
    split; exact H.
Qed.

Lemma last_day_counts_are_ignored_witness :
  compute_E 5 ([3; 1] ++ [7])%Z ([1; 2] ++ [0])%Z
  = compute_E 5 ([3; 1] ++ [0])%Z ([1; 2] ++ [9])%Z.
Proof.
  apply (proj2 (@last_day_counts_are_ignored [3; 1]%Z [1; 2]%Z 7 0 0 9)
           eq_refl 5%Z).
Defined.

Lemma np_zip_Some_iff {A B C} (f : A -> B -> C) (a : list A) (b : list B) :
  (exists l, np_zip f a b = Some l)
  <-> (length a = length b \/ length a = 1%nat \/ length b = 1%nat).
Proof.
  unfold np_zip. destruct (Nat.eqb_spec (length a) (length b)) as [E|E].
  - split; eauto.
  - destruct a as [|x [|x' a]]; destruct b as [|y [|y' b]]; simpl in *;
      try congruence; split; eauto;
      try (intros [l H]; discriminate H);
      try (intros [H|[H|H]]; lia).
Qed.

(** X4.  The shape rule of [compute_E] and [compute_I]: they return exactly
    when the two series have one length or one of them has length one
    (numpy's broadcasting), and raise otherwise; what they return is never
    empty, and on two empty series it is the one-day series of the initial
    value. *)
Theorem compute_E_shapes (x0 : Z) (B C : list Z) :
  ((exists E, compute_E x0 B C = Some E)
   <-> (length B = length C \/ length B = 1%nat \/ length C = 1%nat))
  /\ (forall E, compute_E x0 B C = Some E -> (1 <= length E)%nat)
  /\ compute_E x0 [] [] = Some [x0].
Proof.
  split; [|split].
  - rewrite <- (np_zip_Some_iff Z.sub B C). unfold compute_E. split.
    + intros [E H]. destruct (np_zip Z.sub B C); [eauto|discriminate].
    + intros [l ->]. simpl. eauto.
  - intros E H. unfold compute_E in H.
    destruct (np_zip Z.sub B C); [|discriminate].
    simpl in H. inversion H. simpl. lia.
  - unfold compute_E, np_zip, shifted_cumsum. simpl. f_equal. f_equal. lia.
Qed.

Lemma compute_E_shapes_witness : exists E, compute_E 3 [4]%Z [1; 2; 3]%Z = Some E.
Proof.
  apply (proj2 (proj1 (@compute_E_shapes 3 [4]%Z [1; 2; 3]%Z))).
  right. left. reflexivity.
Defined.

(** ** More on the transmission rate *)

Lemma exp_le_1 (y : R) : (y <= 0)%R -> (exp y <= 1)%R.
Proof.
  intros [H| ->]; [|rewrite exp_0; lra].
  rewrite <- exp_0. left. apply exp_increasing. assumption.
Qed.

Lemma exp_le_mono (x y : R) : (x <= y)%R -> (exp x <= exp y)%R.
Proof.
  intros [H| ->]; [left; apply exp_increasing; assumption | lra].
Qed.

(** X5.  With [beta >= 0], [q >= 0] and [t_ctrl >= 0], the rate returned by
    [transmission_rate] is non-negative, never above [beta], and never
    increases from one day to a later one. *)
Theorem transmission_rate_decays (beta q : R) (t_ctrl t_end : Z) :
  (0 <= beta)%R -> (0 <= q)%R -> (0 <= t_ctrl)%Z -> (0 <= t_end)%Z ->
  exists l,
    transmission_rate beta q t_ctrl t_end = Some l
    /\ (forall t, (0 <= t < t_end)%Z ->
          (0 <= nth (Z.to_nat t) l 0 <= beta)%R)
    /\ (forall t t', (0 <= t <= t')%Z -> (t' < t_end)%Z ->
          (nth (Z.to_nat t') l 0 <= nth (Z.to_nat t) l 0)%R).
Proof.
  intros Hb Hq Hc He.
  destruct (@transmission_rate_spec beta q t_ctrl t_end Hc He) as (l & E & L & Hn).
  exists l. split; [assumption|].
  assert (Hdec : forall t, (t_ctrl <= t)%Z ->
            (0 <= beta * exp (- q * IZR (t - t_ctrl)) <= beta)%R).
  { intros t Ht.
    assert (0 <= IZR (t - t_ctrl))%R by (apply IZR_le; lia).
    pose proof (exp_pos (- q * IZR (t - t_ctrl))).
    assert (exp (- q * IZR (t - t_ctrl)) <= 1)%R by (apply exp_le_1; nra).
    nra. }
  split.
  - intros t Ht. rewrite Hn by assumption.
    destruct (Z.ltb_spec t t_ctrl); [lra | apply Hdec; assumption].
  - intros t t' Ht Ht'. rewrite !Hn by lia.
    destruct (Z.ltb_spec t t_ctrl), (Z.ltb_spec t' t_ctrl); try lia.
    + lra.
    + apply Hdec; assumption.
    + apply Rmult_le_compat_l; [assumption|]. apply exp_le_mono.
      assert (IZR (t - t_ctrl) <= IZR (t' - t_ctrl))%R by (apply IZR_le; lia).
      nra.
Qed.

Lemma transmission_rate_decays_witness :
  exists l,
    transmission_rate 2 (1 / 10) 1 3 = Some l
    /\ (forall t, (0 <= t < 3)%Z -> (0 <= nth (Z.to_nat t) l 0 <= 2)%R)
    /\ (forall t t', (0 <= t <= t')%Z -> (t' < 3)%Z ->
          (nth (Z.to_nat t') l 0 <= nth (Z.to_nat t) l 0)%R).
Proof.
  apply (@transmission_rate_decays 2 (1 / 10) 1 3); try lra; lia.
Defined.

Lemma np_put_app {A} (idx1 idx2 : list Z) :
  forall (a : list A) (vs1 vs2 : list A),
    length vs1 = length idx1 ->
    np_put a (idx1 ++ idx2) (vs1 ++ vs2)
    = opt_bind (np_put a idx1 vs1) (fun a1 => np_put a1 idx2 vs2).
Proof.
  induction idx1 as [|i idx1 IH]; intros a [|v vs1] vs2 H; simpl in *;
    try discriminate.
  - destruct idx2, vs2; reflexivity.
  - destruct (py_index (length a) i); [|reflexivity]. apply IH. lia.
Qed.

Lemma np_put_in_range {A} (idx : list Z) :
  forall (a : list A) (vs : list A),
    (forall i, In i idx -> (- Z.of_nat (length a) <= i < Z.of_nat (length a))%Z) ->
    exists a', np_put a idx vs = Some a' /\ length a' = length a.
Proof.
  induction idx as [|i idx IH]; intros a [|v vs] Hin; simpl; eauto.
  assert (Hi : (- Z.of_nat (length a) <= i < Z.of_nat (length a))%Z)
    by (apply Hin; simpl; auto).
  assert (exists k, py_index (length a) i = Some k) as [k ->].
  { unfold py_index.
    destruct (Z.leb_spec 0 i), (Z.ltb_spec i (Z.of_nat (length a))),
      (Z.leb_spec (- Z.of_nat (length a)) i), (Z.ltb_spec i 0);
      simpl; eauto; lia. }
  destruct (IH (upd k v a) vs) as (a' & E & L).
  { intros j Hj. rewrite upd_length. apply Hin. simpl. auto. }
  exists a'. rewrite upd_length in L. auto.
Qed.

Lemma map_seq_from {A} (f : nat -> A) (b : nat) :
  forall a, map f (seq a b) = map (fun j => f (a + j)%nat) (seq 0 b).
Proof.
  induction b as [|b IH]; intros a; [reflexivity|].
  simpl seq. simpl map. rewrite Nat.add_0_r. f_equal.
  rewrite IH. rewrite <- seq_shift, map_map.
  apply map_ext. intros j. f_equal. lia.
Qed.

Lemma py_range_split (lo hi : Z) :
  (lo <= 0 <= hi)%Z -> py_range lo hi = py_range lo 0 ++ py_range 0 hi.
Proof.
  intros H. unfold py_range.
  replace (Z.to_nat (hi - lo)) with (Z.to_nat (0 - lo) + Z.to_nat (hi - 0))%nat
    by lia.
  rewrite seq_app, map_app. f_equal.
  rewrite map_seq_from. apply map_ext. intros j. lia.
Qed.


(** X6.  A control day before day 0.  For [t_ctrl < -t_end] the first
    index of [ctrl_indices] is out of bounds and [transmission_rate] raises.
    For [-t_end <= t_ctrl < 0] the negative indices wrap around and nothing
    raises: the result has length [t_end], and on the days below
    [t_end + t_ctrl], which are assigned once, the rate is
    [beta * exp(-q * (t - t_ctrl))], the control being in force from the
    start. *)
Theorem transmission_rate_negative_t_ctrl (beta q : R) (t_ctrl t_end : Z) :
  (t_ctrl < 0)%Z -> (0 <= t_end)%Z ->
  ((- t_end <= t_ctrl)%Z ->
   exists l,
     transmission_rate beta q t_ctrl t_end = Some l
     /\ length l = Z.to_nat t_end
     /\ forall t, (0 <= t < t_end + t_ctrl)%Z ->
          nth (Z.to_nat t) l 0%R = (beta * exp (- q * IZR (t - t_ctrl)))%R)
  /\ ((t_ctrl < - t_end)%Z -> transmission_rate beta q t_ctrl t_end = None).
Proof.
  intros Hc He.
  set (ones := map (fun _ => (1 * beta)%R) (seq 0 (Z.to_nat t_end))).
  assert (Lones : length ones = Z.to_nat t_end)
    by (unfold ones; now rewrite length_map, length_seq).
  set (f := fun i => (beta * exp (- q * IZR (i - t_ctrl)))%R).
  split.
  - intros Hlo. unfold transmission_rate.
    destruct (Z.ltb_spec t_end 0) as [|_]; [lia|].
    destruct (Z.ltb_spec t_ctrl t_end) as [_|]; [|lia].
    fold ones. fold f.
    rewrite py_range_split by lia. rewrite map_app.
    rewrite np_put_app by (now rewrite length_map).
    destruct (@np_put_in_range R (py_range t_ctrl 0) ones
                (map f (py_range t_ctrl 0))) as (a1 & E1 & L1).
    { intros i Hi. apply In_py_range in Hi. rewrite Lones. lia. }
    rewrite E1. simpl opt_bind at 2.
    destruct (@np_put_map R f 0%R (py_range 0 t_end) a1) as (l & E & L & Hn).
    { intros i Hi. apply In_py_range in Hi. rewrite L1, Lones. lia. }
    rewrite E. simpl opt_bind. rewrite sign_test_passes.
    exists l. split; [reflexivity|]. split; [congruence|].
    intros t Ht. destruct (Hn (Z.to_nat t)) as [H1 _].
    rewrite Z2Nat.id in H1 by lia. apply H1. apply In_py_range. lia.
  - intros Hlo. unfold transmission_rate.
    destruct (Z.ltb_spec t_end 0) as [|_]; [lia|].
    destruct (Z.ltb_spec t_ctrl t_end) as [_|]; [|lia].
    fold ones.
    unfold py_range.
    destruct (Z.to_nat (t_end - t_ctrl)) as [|m] eqn:Em; [lia|].
    simpl seq. simpl map. simpl np_put.
    replace (py_index (length ones) (t_ctrl + 0)) with (@None nat);
      [reflexivity|].
    unfold py_index. rewrite Lones.
    destruct (Z.leb_spec 0 (t_ctrl + 0)),
      (Z.leb_spec (- Z.of_nat (Z.to_nat t_end)) (t_ctrl + 0)); simpl;
      try reflexivity; lia.
Qed.

Lemma transmission_rate_negative_t_ctrl_witness :
  transmission_rate 2 (1 / 10) (-5) 3 = None.
Proof.
  apply (proj2 (@transmission_rate_negative_t_ctrl 2 (1 / 10) (-5) 3
                  ltac:(lia) ltac:(lia))).
  lia.
Defined.

(** ** More on the infection probability and on rounding *)

(** X7.  For series of one length and a positive population: on a day
    with nobody infectious [compute_P] is [0]; and with a non-negative rate,
    more infectious people never give a smaller probability. *)
Theorem compute_P_infectious (trans_rate : list R) (I_mild I_wild I_mild' I_wild' N : list Z)
    (P P' : list R) (t : nat) :
  length I_mild = length trans_rate -> length I_wild = length trans_rate ->
  length I_mild' = length trans_rate -> length I_wild' = length trans_rate ->
  length N = length trans_rate -> (t < length trans_rate)%nat ->
  (0 < nth t N 0)%Z ->
  compute_P trans_rate I_mild I_wild N = Some P ->
  compute_P trans_rate I_mild' I_wild' N = Some P' ->
  ((nth t I_mild 0 + nth t I_wild 0 = 0)%Z -> nth t P 0%R = 0%R)
  /\ ((0 <= nth t trans_rate 0)%R ->
      (nth t I_mild 0 + nth t I_wild 0 <= nth t I_mild' 0 + nth t I_wild' 0)%Z ->
      (nth t P 0 <= nth t P' 0)%R).
Proof.
  intros Lm Lw Lm' Lw' LN Ht HN HP HP'.
  destruct (compute_P_spec trans_rate I_mild I_wild N Lm Lw LN) as (Q & EQ & _ & HQ).
  destruct (compute_P_spec trans_rate I_mild' I_wild' N Lm' Lw' LN)
    as (Q' & EQ' & _ & HQ').
  rewrite EQ in HP. rewrite EQ' in HP'. inversion HP; inversion HP'; subst Q Q'.
  rewrite HQ, HQ' by assumption.
  assert (Hn : (0 < IZR (nth t N 0%Z))%R) by (apply IZR_lt; assumption).
  pose proof (Rinv_0_lt_compat _ Hn) as Hinv.
  split.
  - intros ->. replace (- nth t trans_rate 0 * 0 / IZR (nth t N 0%Z))%R with 0%R
      by (unfold Rdiv; ring).
    rewrite exp_0. lra.
  - intros Hr Hle.
    pose proof (IZR_le _ _ Hle) as HleR.
    apply Rplus_le_compat_l, Ropp_le_contravar, exp_le_mono. unfold Rdiv.
    apply Rmult_le_compat_r; [lra|]. nra.
Qed.

Lemma compute_P_infectious_witness :
  exists P P',
    compute_P [1; 1]%R [0; 3]%Z [0; 2]%Z [50; 50]%Z = Some P
    /\ compute_P [1; 1]%R [4; 3]%Z [0; 2]%Z [50; 50]%Z = Some P'
    /\ nth 0 P 0%R = 0%R /\ (nth 0 P 0 <= nth 0 P' 0)%R.
Proof.
  eexists. eexists. split; [reflexivity|]. split; [reflexivity|].
  destruct (@compute_P_infectious [1; 1]%R [0; 3]%Z [0; 2]%Z [4; 3]%Z [0; 2]%Z
              [50; 50]%Z _ _ 0%nat eq_refl eq_refl eq_refl eq_refl eq_refl
              ltac:(simpl; lia) ltac:(simpl; lia) eq_refl eq_refl) as [H1 H2].
  split; [apply H1; reflexivity | apply H2; simpl; [lra|lia]].
Defined.

Lemma round_int_mono (x y : R) : (x <= y)%R -> (round_int x <= round_int y)%Z.
Proof. intros H. unfold round_int. apply Zfloor_le. lra. Qed.

(** X8.  [round_int] on counts: an integer is left as it is, an integer
    plus one half goes up to the next integer, a larger argument never
    gives a smaller result, and with [0 <= delta <= 1] and [c >= 0] the
    share [round_int(c*delta)] lies between [0] and [c], so both shares of
    the split of [C] into mild and wild cases are non-negative. *)
Theorem round_int_half_up (x y : R) (z c : Z) (delta : R) :
  round_int (IZR z) = z
  /\ round_int (IZR z + / 2) = (z + 1)%Z
  /\ ((x <= y)%R -> (round_int x <= round_int y)%Z)
  /\ ((0 <= delta <= 1)%R -> (0 <= c)%Z ->
      (0 <= round_int (IZR c * delta) <= c)%Z).
Proof.
  split; [|split; [|split]].
  - apply round_int_of_Z. reflexivity.
  - unfold round_int. apply Zfloor_eq. rewrite plus_IZR. lra.
  - apply round_int_mono.
  - intros Hd Hc.
    assert (Hc' : (0 <= IZR c)%R) by (apply IZR_le; assumption).
    split.
    + replace 0%Z with (round_int (IZR 0)) by (apply round_int_of_Z; reflexivity).
      apply round_int_mono. simpl. nra.
    + replace c with (round_int (IZR c)) at 2 by (apply round_int_of_Z; reflexivity).
      apply round_int_mono. nra.
Qed.

Lemma round_int_half_up_witness :
  (round_int (1 / 4) <= round_int (3 / 4))%Z
  /\ (0 <= round_int (IZR 7 * (1 / 2)) <= 7)%Z.
Proof.
  destruct (@round_int_half_up (1 / 4) (3 / 4) 0 7 (1 / 2)) as (_ & _ & Hm & Hs).
  split; [apply Hm; lra | apply Hs; [lra|lia]].
Defined.

(** ** The Metropolis-Hastings driver over any number of steps *)

Section MHChain.
Variables X D CF : Type.
Variable fn : X -> D -> option R.
Variable proposal : X -> D -> CF -> M (X * D).
Variable conditions_fn : CF.
Variable Inv : X -> D -> Prop.
Hypothesis Hprop : forall y d o m y' d' m',
      Inv y d -> proposal y d conditions_fn o m = Some ((y', d'), m') -> Inv y' d'.

Lemma mh_loop_keeps (burn_in : nat) :
    forall x data o n x' d' n',
      Inv x data ->
      mh_loop fn proposal conditions_fn burn_in x data o n = Some ((x', d'), n') ->
      Inv x' d'.
  Proof.
    induction burn_in as [|b IH]; intros x data o n x' d' n' Hi H; simpl in H.
    - apply ret_Some in H. inversion H; subst. exact Hi.
    - minv H. destruct a as [x_new d_new].
      minv H. minv H. minv H.
      destruct (Rleb _ _).
      + eapply IH; [|exact H]. eapply Hprop; eauto.
      + eapply IH; [|exact H]. exact Hi.
  Qed.
End MHChain.

(** X9.  Whatever the number of steps [burn_in], [metropolis_hastings] only
    ever returns the sample it was given or a sample built by the proposal
    from such a sample: a property of the sample and its data that every
    call of the proposal keeps holds of the returned pair.  The two returned
    log-densities are those of the returned pair and of the pair given. *)
Theorem metropolis_hastings_keeps_invariant (X D CF : Type)
    (fn : X -> D -> option R) (proposal : X -> D -> CF -> M (X * D))
    (conditions_fn : CF) (Inv : X -> D -> Prop) (burn_in : nat)
    (x : X) (data : D) (o : Oracle) (n : nat)
    (x' : X) (d' : D) (lp old : R) (n' : nat) :
  (forall y d o m y' d' m',
      Inv y d -> proposal y d conditions_fn o m = Some ((y', d'), m') -> Inv y' d') ->
  Inv x data ->
  metropolis_hastings fn proposal conditions_fn x data burn_in o n
    = Some ((x', d', lp, old), n') ->
  Inv x' d' /\ fn x' d' = Some lp /\ fn x data = Some old.
Proof.
  intros Hprop Hi H. unfold metropolis_hastings in H.
  minv H. apply lift_Some in H0. destruct H0 as [Hold ->].
  minv H. destruct a0 as [y dy].
  minv H. apply lift_Some in H1. destruct H1 as [Hlp ->].
  apply ret_Some in H. inversion H; subst.
  split; [|split; assumption].
  eapply mh_loop_keeps; eauto.
Qed.

Lemma metropolis_hastings_keeps_invariant_witness :
  [1%Z] = [1%Z] /\ Some 0%R = Some 0%R /\ Some 0%R = Some 0%R.
Proof.
  refine (@metropolis_hastings_keeps_invariant (list Z) unit unit
            (fun _ _ => Some 0%R) (fun x d _ => ret (x, d)) tt
            (fun x _ => x = [1%Z]) 2 [1%Z] tt gen_unit 0%nat
            [1%Z] tt 0%R 0%R 2%nat _ eq_refl _).
  - intros y d o m y' d' m' Hy H. apply ret_Some in H.
    injection H as -> -> ->. exact Hy.
  - unfold metropolis_hastings, mh_loop, bind, lift, draw_unif, ret.
    destruct (Rleb _ _); destruct (Rleb _ _); reflexivity.
Defined.

(** X10.  A candidate whose log-density is not below that of the current
    sample is always accepted: for every uniform draw in (0, 1) one step of
    [metropolis_hastings] returns the candidate of the proposal. *)
Theorem metropolis_hastings_accepts_improvement (X D CF : Type)
    (fn : X -> D -> option R) (proposal : X -> D -> CF -> M (X * D))
    (conditions_fn : CF) (x : X) (data : D) (o : Oracle) (n : nat)
    (x_new : X) (data_new : D) (n1 : nat) (lp_new lp_old : R) :
  (0 < o_unif o n1 < 1)%R ->
  proposal x data conditions_fn o n = Some ((x_new, data_new), n1) ->
  fn x_new data_new = Some lp_new ->
  fn x data = Some lp_old ->
  (lp_old <= lp_new)%R ->
  metropolis_hastings fn proposal conditions_fn x data 1 o n
  = Some ((x_new, data_new, lp_new, lp_old), S n1).
Proof.
  intros Hu Hp Ha Hb Hle.
  rewrite (metropolis_hastings_run fn proposal conditions_fn x data o n Hp Ha Hb).
  replace (Rleb _ _) with true; [reflexivity|].
  symmetry. apply Rleb_true. rewrite Rmin_left by lra.
  rewrite <- ln_1. left. apply ln_increasing; lra.
Qed.

Lemma metropolis_hastings_accepts_improvement_witness :
  metropolis_hastings (fun (x : list Z) (_ : unit) => Some (IZR (sumZ x)))
    (fun x d (_ : unit) => ret (map Z.succ x, d)) tt [1%Z] tt 1 gen_unit 0
  = Some (([2%Z], tt, 2%R, 1%R), 1%nat).
Proof.
  refine (@metropolis_hastings_accepts_improvement (list Z) unit unit
            (fun x _ => Some (IZR (sumZ x))) (fun x d _ => ret (map Z.succ x, d)) tt
            [1%Z] tt gen_unit 0%nat [2%Z] tt 0%nat 2%R 1%R
            _ eq_refl eq_refl eq_refl _).
  - simpl. lra.
  - lra.
Defined.

(** ** The single-site resampler: what one call can do to a series *)

(** X11.  On a non-empty series of non-negative counts, with a [data_fn]
    that does not raise on series of that length, [sample_x] does not
    raise, and it returns either the series and the data it was given, or a
    series of the same length, of non-negative counts, with its recomputed
    data, that passes the feasibility predicate.  On the empty series it
    raises: the destinations drawn from [range(0)] are no index array. *)
Theorem sample_x_returns_counts (D : Type) (conditions_fn : list Z -> D -> bool)
    (data_fn : list Z -> option D) (x : list Z) (data : D) (o : Oracle) (n : nat) :
  (x <> [] -> nonneg x ->
   (forall y, length y = length x -> exists d, data_fn y = Some d) ->
   exists x' d' n',
     sample_x conditions_fn data_fn x data o n = Some ((x', d'), n')
     /\ ((x' = x /\ d' = data)
         \/ (nonneg x' /\ length x' = length x
             /\ data_fn x' = Some d' /\ conditions_fn x' d' = true)))
  /\ sample_x conditions_fn data_fn [] data o n = None.
Proof.
  split.
  - intros Hne Hx Hdata. apply sample_x_total; assumption.
  - reflexivity.
Qed.

Lemma sample_x_returns_counts_witness :
  exists x' d' n',
    sample_x (fun _ (_ : unit) => true) (fun _ => Some tt) [3; 0; 2]%Z tt gen_unit 0
    = Some ((x', d'), n')
    /\ ((x' = [3; 0; 2]%Z /\ d' = tt)
        \/ (nonneg x' /\ length x' = length [3; 0; 2]%Z
            /\ (fun _ : list Z => Some tt) x' = Some d'
            /\ (fun _ (_ : unit) => true) x' d' = true)).
Proof.
  apply (proj1 (@sample_x_returns_counts unit (fun _ _ => true) (fun _ => Some tt)
                  [3; 0; 2]%Z tt gen_unit 0%nat)).
  - discriminate.
  - repeat constructor; lia.
  - intros y _. exists tt. reflexivity.
Defined.

(** X12.  What [sample_x] can do to one entry: the returned series has the
    length of the given one, and each entry is the given entry minus an
    amount [s] plus an amount [a], where either both are [0] or [1] (the
    unit swap) or [s] is [0] or [x[j] // 80] and [a] is [0] or [x[j] // 79]
    (the proportional swap); something is taken only from an entry that is
    at least [1]. *)
Theorem sample_x_entry_change (D : Type) (conditions_fn : list Z -> D -> bool)
    (data_fn : list Z -> option D) (x : list Z) (data : D) (o : Oracle) (n : nat)
    (x' : list Z) (d' : D) (n' : nat) (j : nat) :
  sample_x conditions_fn data_fn x data o n = Some ((x', d'), n') ->
  length x' = length x
  /\ exists s a : Z,
      nth j x' 0%Z = (nth j x 0 - s + a)%Z
      /\ (s <> 0%Z -> (1 <= nth j x 0)%Z)
      /\ (((s = 0 \/ s = 1) /\ (a = 0 \/ a = 1))
          \/ ((s = 0 \/ s = nth j x 0 / 80) /\ (a = 0 \/ a = nth j x 0 / 79)))%Z.
Proof.
  intros H. apply sample_x_spec in H.
  destruct H as [[-> _]|(tn & tt & m & Hdr & -> & _)].
  - split; [reflexivity|]. exists 0%Z, 0%Z.
    split; [lia|]. split; [lia|]. left. auto.
  - split; [apply candidate_length|].
    rewrite nth_candidate by assumption.
    destruct Hdr as (_ & _ & _ & Hge).
    unfold changes. destruct (o_bit o m); simpl fst; simpl snd; simpl bcast.
    + exists (amount tn (repeat 1%Z (length tn)) j),
             (amount tt (repeat 1%Z (length tt)) j).
      split; [reflexivity|].
      destruct (amount_scalar tn 1 j) as [->|[Hin ->]];
        destruct (amount_scalar tt 1 j) as [->|[_ ->]];
        (split; [intros Hs; first [apply Hge; assumption | lia]|left; auto]).
    + exists (amount tn (map (fun v => v / 80)%Z (take_at x tn)) j),
             (amount tt (map (fun v => v / 79)%Z (take_at x tt)) j).
      split; [reflexivity|].
      destruct (amount_per_site (fun v => v / 80)%Z x tn j) as [->|[Hin ->]];
        destruct (amount_per_site (fun v => v / 79)%Z x tt j) as [->|[_ ->]];
        (split; [intros Hs; first [apply Hge; assumption | lia]|right; auto]).
Qed.

Lemma sample_x_entry_change_witness :
  length [3; 1; 1]%Z = length [3; 0; 2]%Z
  /\ exists s a : Z,
      nth 2 [3; 1; 1]%Z 0%Z = (nth 2 [3; 0; 2] 0 - s + a)%Z
      /\ (s <> 0%Z -> (1 <= nth 2 [3; 0; 2] 0)%Z)
      /\ (((s = 0 \/ s = 1) /\ (a = 0 \/ a = 1))
          \/ ((s = 0 \/ s = nth 2 [3; 0; 2] 0 / 80)
              /\ (a = 0 \/ a = nth 2 [3; 0; 2] 0 / 79)))%Z.
Proof.
  apply (@sample_x_entry_change unit (fun _ _ => true) (fun _ => Some tt)
           [3; 0; 2]%Z tt gen_unit 0%nat [3; 1; 1]%Z tt 3%nat 2%nat).
  reflexivity.
Defined.

Lemma filter_length_lt {A} (f g : A -> bool) (l : list A) (a : A) :
  (forall y, f y = true -> g y = true) ->
  In a l -> g a = true -> f a = false ->
  (length (filter f l) < length (filter g l))%nat.
Proof.
  intros Hfg Hin Hg Hf.
  assert (Hle : forall l', (length (filter f l') <= length (filter g l'))%nat).
  { induction l' as [|y l' IH]; simpl; [lia|].
    destruct (f y) eqn:Ef.
    - rewrite (Hfg _ Ef). simpl. lia.
    - destruct (g y); simpl; lia. }
  induction l as [|y l IH]; [destruct Hin|].
  simpl. destruct Hin as [->|Hin].
  - rewrite Hf, Hg. simpl. specialize (Hle l). lia.
  - specialize (IH Hin). destruct (f y) eqn:Ef.
    + rewrite (Hfg _ Ef). simpl. lia.
    + destruct (g y); simpl; lia.
Qed.

(** X13.  [sample_x] raises on a series that has a negative entry and
    fewer than 15 entries that are at least [1]: the number of sources asked
    of [np.random.choice] counts the negative entry, the population it draws
    from does not. *)
Theorem sample_x_raises_on_negative_entry (D : Type)
    (conditions_fn : list Z -> D -> bool) (data_fn : list Z -> option D)
    (x : list Z) (data : D) (o : Oracle) (n : nat) (i : nat) :
  (i < length x)%nat -> (nth i x 0 < 0)%Z ->
  (length (np_where ge1 x) < 15)%nat ->
  sample_x conditions_fn data_fn x data o n = None.
Proof.
  intros Hi Hneg Hfew.
  assert (Hlt : (length (np_where ge1 x) < length (np_where ne0 x))%nat).
  { unfold np_where.
    apply filter_length_lt with (a := i).
    - intros y Hy. unfold ge1 in Hy. apply Z.leb_le in Hy. unfold ne0.
      destruct (Z.eqb_spec (nth y x 0%Z) 0); [lia|reflexivity].
    - apply in_seq. lia.
    - unfold ne0. destruct (Z.eqb_spec (nth i x 0%Z) 0); [lia|reflexivity].
    - unfold ge1. apply Z.leb_gt. lia. }
  unfold sample_x, bind. simpl sample_x_loop.
  unfold bind, sample_x_attempt, bind, choice.
  replace (Nat.ltb _ _) with true; [reflexivity|].
  symmetry. apply Nat.ltb_lt. lia.
Qed.

Lemma sample_x_raises_on_negative_entry_witness :
  sample_x (fun _ (_ : unit) => true) (fun _ => Some tt) [3; -1; 2]%Z tt gen_unit 0
  = None.
Proof.
  apply (@sample_x_raises_on_negative_entry unit (fun _ _ => true) (fun _ => Some tt)
           [3; -1; 2]%Z tt gen_unit 0%nat 1%nat); simpl; lia.
Defined.

(** X14.  A series of zeros is a fixed point of [sample_x]: no source can be
    drawn, so whatever the generator returns the series comes back as it
    was, with the data given or the data recomputed from it. *)
Theorem sample_x_zero_series (D : Type) (conditions_fn : list Z -> D -> bool)
    (data_fn : list Z -> option D) (x : list Z) (data : D) (o : Oracle) (n : nat)
    (x' : list Z) (d' : D) (n' : nat) :
  Forall (fun v => v = 0%Z) x ->
  sample_x conditions_fn data_fn x data o n = Some ((x', d'), n') ->
  x' = x /\ (d' = data \/ data_fn x = Some d').
Proof.
  intros Hz H. apply sample_x_spec in H.
  destruct H as [[-> ->]|(tn & tt & m & Hdr & -> & Hd & _)]; [auto|].
  destruct Hdr as ([_ Rn] & _ & Hl & Hge).
  assert (tn = []) as ->.
  { destruct tn as [|i tn]; [reflexivity|]. exfalso.
    specialize (Hge i (or_introl eq_refl)).
    specialize (Rn i (or_introl eq_refl)).
    rewrite Forall_forall in Hz.
    rewrite (Hz (nth i x 0%Z)) in Hge by (apply nth_In; assumption). lia. }
  destruct tt; [|discriminate Hl].
  assert (Hc : forall b, candidate b x [] [] = x) by (intros []; reflexivity).
  rewrite Hc in *. auto.
Qed.

Lemma sample_x_zero_series_witness :
  sample_x (fun _ (_ : unit) => true) (fun _ => Some tt) [0; 0]%Z tt gen_unit 0
  = Some (([0; 0]%Z, tt), 3%nat)
  /\ [0; 0]%Z = [0; 0]%Z
  /\ (tt = tt \/ (fun _ : list Z => Some tt) [0; 0]%Z = Some tt).
Proof.
  split; [reflexivity|].
  apply (@sample_x_zero_series unit (fun _ _ => true) (fun _ => Some tt)
           [0; 0]%Z tt gen_unit 0%nat [0; 0]%Z tt 3%nat
           ltac:(repeat constructor) eq_refl).
Defined.

(** ** The parameter sampler: bounds, standard deviations, population *)

Ltac binv H a n H1 := apply bind_Some in H; destruct H as (a & n & H1 & H).

Lemma bounds_from_true (bs : list (R * R)) (x : list R) :
  forall i, bounds_from bs i x = Some true ->
    forall j a b, nth_error bs j = Some (a, b) ->
      exists v, nth_error x (i + j) = Some v /\ (a <= v <= b)%R.
Proof.
  induction bs as [|[a0 b0] bs IH]; intros i H j a b Hj.
  - destruct j; discriminate Hj.
  - simpl in H. destruct (nth_error x i) as [xi|] eqn:E; [|discriminate].
    destruct (Rltb xi a0) eqn:E1; [discriminate|].
    destruct (Rltb b0 xi) eqn:E2; [discriminate|]. simpl in H.
    apply Rltb_false in E1. apply Rltb_false in E2.
    destruct j as [|j].
    + simpl in Hj. inversion Hj; subst. rewrite Nat.add_0_r.
      exists xi. split; [assumption|lra].
    + simpl in Hj. destruct (IH (S i) H j a b Hj) as (v & Hv & Hab).
      exists v. split; [|assumption].
      replace (i + S j)%nat with (S i + j)%nat by lia. exact Hv.
Qed.

Lemma params_proposal_inv (inits : Z * Z * Z) (rand_walk_stds : list R) (t_ctrl : Z)
      (B C D_mild D_wild : list Z) (old_k : R) (t_end : Z)
      (x : list R) (S_ E Im Iw : list Z) (P : list R) (N : list Z)
      (conditions_fn : list R -> PData -> option bool) (left : nat) :
  forall o n x' d' n',
    params_proposal_loop inits rand_walk_stds t_ctrl B C D_mild D_wild left
      old_k t_end x (S_, E, Im, Iw, P, N) conditions_fn o n = Some ((x', d'), n') ->
    (x' = x /\ d' = (S_, E, Im, Iw, P, N))
    \/ (exists m, np_random_normal x rand_walk_stds o m = Some (x', S m))
       /\ params_candidate inits t_ctrl B C D_mild D_wild old_k t_end N x' = Some d'
       /\ conditions_fn x' d' = Some true.
Proof.
  induction left as [|k IH]; intros o n x' d' n' H.
  - simpl in H. apply ret_Some in H. inversion H; subst. left. auto.
  - simpl params_proposal_loop in H.
    binv H x_new n0 Hn.
    binv H d_new n1 Hc. apply lift_Some in Hc. destruct Hc as [Hc ->].
    binv H ok n2 Hok. apply lift_Some in Hok. destruct Hok as [Hok ->].
    destruct ok.
    + apply ret_Some in H. inversion H; subst. right.
      split; [|split; assumption].
      exists n. unfold np_random_normal in *.
      destruct (existsb _ _); [discriminate|].
      destruct (np_zip _ _ _); [|discriminate].
      inversion Hn; subst. reflexivity.
    + apply IH in H. exact H.
Qed.

Lemma params_candidate_N (inits : Z * Z * Z) (t_ctrl : Z)
      (B C D_mild D_wild : list Z) (old_k : R) (t_end : Z) (N : list Z)
      (x : list R) (S1 E1 Im1 Iw1 : list Z) (P1 : list R) (N1 : list Z) :
  params_candidate inits t_ctrl B C D_mild D_wild old_k t_end N x
    = Some (S1, E1, Im1, Iw1, P1, N1) ->
  exists k,
    nth_error x 6 = Some k
    /\ N1 = map (fun n => let r := round_int (IZR n * old_k / k) in
                          if (r <? 1)%Z then 1%Z else r) N.
Proof.
  unfold params_candidate. destruct inits as [[e0 i_mild0] i_wild0]. intros H.
  oinv H. destruct v as [[[[[[beta q] delta] rho] gm] gw] k].
  destruct x as [|a1 [|a2 [|a3 [|a4 [|a5 [|a6 [|a7 [|a8 x]]]]]]]];
    try discriminate E.
  simpl in E. inversion E; subst.
  oinv H. oinv H. oinv H. oinv H. oinv H. oinv H. oinv H.
  inversion H; subst. exists k. split; reflexivity.
Qed.

Section ParamsFacts.
Variable binom_pmf : Z -> R -> Z -> R.
Variable gamma_pdf : R -> R -> R -> R.
Variables (inits : Z * Z * Z) (priors : list (R * R)) (rand_walk_stds : list R).
Variables (t_ctrl : Z) (eps : R) (bounds : list (R * R)).
Variables (B C D_mild D_wild : list Z).

Lemma sample_params_inv (params : list R) (S_ E Im Iw : list Z) (P : list R)
        (N : list Z) o n params' d' R0t lp old n' :
    sample_params binom_pmf gamma_pdf inits priors rand_walk_stds t_ctrl eps
      bounds B C D_mild D_wild params (S_, E, Im, Iw, P, N) o n
      = Some ((params', d', R0t, lp, old), n') ->
    exists old_k,
      nth_error params 6 = Some old_k /\ length params = 7%nat
      /\ ((params' = params /\ d' = (S_, E, Im, Iw, P, N))
          \/ (exists m, np_random_normal params rand_walk_stds o m = Some (params', S m))
             /\ params_candidate inits t_ctrl B C D_mild D_wild old_k
                  (Z.of_nat (length N)) N params' = Some d'
             /\ params_conditions_fn bounds params' d' = Some true).
  Proof.
    unfold sample_params. intros H.
    binv H u m0 Hu. apply lift_Some in Hu. destruct Hu as [Hu ->].
    destruct u as [[[[[[b0 q0] dl0] r0] gm0] gw0] old_k].
    binv H r1 m1 H0. destruct r1 as [[[p1 d1] lp1] old1].
    binv H u1 m2 Hu1. apply lift_Some in Hu1. destruct Hu1 as [Hu1 ->].
    destruct u1 as [[[[[[b1 q1] dl1] r1] gm1] gw1] k1].
    binv H tr m3 Htr. binv H R0t1 m4 HR0. apply ret_Some in H.
    inversion H; subst; clear H.
    exists old_k.
    assert (Hk : nth_error params 6 = Some old_k /\ length params = 7%nat).
    { destruct params as [|a1 [|a2 [|a3 [|a4 [|a5 [|a6 [|a7 [|a8 x]]]]]]]];
        try discriminate Hu. simpl in Hu. inversion Hu; subst. split; reflexivity. }
    destruct Hk as [Hk L7]. split; [exact Hk|]. split; [exact L7|].
    apply metropolis_hastings_inv in H0.
    destruct H0 as (x_new & d_new & m9 & a & b & Hp & _ & _ & _ & _ & Hacc).
    apply params_proposal_inv in Hp.
    destruct Hacc as [(_ & -> & -> & _)|(_ & -> & -> & _)]; [exact Hp|left; auto].
  Qed.
End ParamsFacts.

(** X15.  [sample_params] returns either the parameters and series it was
    given, or parameters that are all positive and lie within every pair of
    [bounds], with non-negative [S], [E], [I_mild], [I_wild] and a
    population of at least one on every day. *)
Theorem sample_params_within_bounds (binom_pmf : Z -> R -> Z -> R)
    (gamma_pdf : R -> R -> R -> R) (inits : Z * Z * Z) (priors : list (R * R))
    (rand_walk_stds : list R) (t_ctrl : Z) (eps : R) (bounds : list (R * R))
    (B C D_mild D_wild : list Z) (params : list R)
    (S_ E Im Iw : list Z) (P : list R) (N : list Z) (o : Oracle) (n : nat)
    (params' : list R) (S' E' Im' Iw' : list Z) (P' : list R) (N' : list Z)
    (R0t : list R) (lp old : R) (n' : nat) :
  sample_params binom_pmf gamma_pdf inits priors rand_walk_stds t_ctrl eps
    bounds B C D_mild D_wild params (S_, E, Im, Iw, P, N) o n
    = Some ((params', (S', E', Im', Iw', P', N'), R0t, lp, old), n') ->
  (params' = params /\ (S', E', Im', Iw', P', N') = (S_, E, Im, Iw, P, N))
  \/ (Forall (fun v => (0 < v)%R) params'
      /\ (forall i a b, nth_error bounds i = Some (a, b) ->
            exists v, nth_error params' i = Some v /\ (a <= v <= b)%R)
      /\ nonneg S' /\ nonneg E' /\ nonneg Im' /\ nonneg Iw'
      /\ Forall (fun v => (1 <= v)%Z) N').
Proof.
  intros H. apply sample_params_inv in H.
  destruct H as (old_k & _ & _ & [H|(_ & Hc & Hok)]); [left; exact H|right].
  pose proof (params_conditions_true _ _ _ _ _ _ _ _ Hok)
    as (Hpos & NS & NE & NIm & NIw).
  split; [assumption|]. split.
  - intros i a b Hi. unfold params_conditions_fn in Hok.
    apply opt_bind_Some in Hok. destruct Hok as (u & _ & Hok).
    destruct (negb _); [discriminate|].
    destruct (_ || _); [discriminate|].
    apply (bounds_from_true _ _ _ Hok _ Hi).
  - repeat (split; [assumption|]).
    apply params_candidate_N in Hc. destruct Hc as (k & _ & ->).
    apply (floor_at_one_length (fun n => round_int (IZR n * old_k / k)) N).
Qed.

Lemma k_run g :
  exists R0t lp old,
    sample_params binom_pmf_math g (50, 10, 10)%Z cli_priors k_stds 2
      epsilon cli_bounds [100; 0]%Z [0; 0]%Z [0; 0]%Z [0; 0]%Z cli_params
      k_data (k_gen g) 0
    = Some ((k_params_new, k_data_new, R0t, lp, old), 2%nat).
Proof.
  destruct (@k_fn_total g k_params_new k_data_new (or_intror eq_refl)
              (or_intror eq_refl)) as (a & Ha).
  destruct (@k_fn_total g cli_params k_data (or_introl eq_refl)
              (or_introl eq_refl)) as (b & Hb).
  assert (Hr : transmission_rate 1 (1 / 10) 2 2 = Some [1 * 1; 1 * 1]%R).
  { unfold transmission_rate. simpl. rewrite sign_test_passes. reflexivity. }
  eexists _, a, b.
  unfold sample_params. unfold k_data at 1. cbv beta iota.
  unfold bind at 1. unfold cli_params at 1. simpl lift at 1. cbv beta iota.
  unfold bind at 1.
  match goal with
  | |- context [metropolis_hastings ?f ?p ?c ?x ?d 1 ?o ?n] =>
      rewrite (@metropolis_hastings_run _ _ _ f p c x d o n
                 k_params_new k_data_new 1%nat a b (k_proposal g) Ha Hb)
  end.
  replace (o_unif (k_gen g) 1) with
    (accepting
       (params_fn binom_pmf_math g cli_priors epsilon
          [100; 0]%Z [0; 0]%Z [0; 0]%Z [0; 0]%Z k_params_new k_data_new)
       (params_fn binom_pmf_math g cli_priors epsilon
          [100; 0]%Z [0; 0]%Z [0; 0]%Z [0; 0]%Z cli_params k_data))
    by reflexivity.
  rewrite (accepting_accepts Ha Hb). cbv beta iota.
  unfold bind, lift. unfold k_params_new at 1. cbn [unpack7].
  change (Z.of_nat (length [1000%Z; 1000%Z])) with 2%Z. rewrite Hr.
  unfold R0t_of, np_zip, opt_bind, ret.
  cbn [length map Nat.eqb zipw]. reflexivity.
Qed.

Lemma sample_params_within_bounds_witness :
  (k_params_new = cli_params
   /\ ([2000; 1900]%Z, [50; 150]%Z, [10; 10]%Z, [10; 10]%Z,
       [1 - exp (- (1 * 1) * IZR (10 + 10) / IZR 2000);
        1 - exp (- (1 * 1) * IZR (10 + 10) / IZR 2000)]%R,
       [2000; 2000]%Z)
      = ([1000; 900]%Z, [50; 150]%Z, [10; 10]%Z, [10; 10]%Z,
         [1 - exp (- (1 * 1) * IZR (10 + 10) / IZR 1000);
          1 - exp (- (1 * 1) * IZR (10 + 10) / IZR 1000)]%R,
         [1000; 1000]%Z))
  \/ (Forall (fun v => (0 < v)%R) k_params_new
      /\ (forall i a b, nth_error cli_bounds i = Some (a, b) ->
            exists v, nth_error k_params_new i = Some v /\ (a <= v <= b)%R)
      /\ nonneg [2000; 1900]%Z /\ nonneg [50; 150]%Z /\ nonneg [10; 10]%Z
      /\ nonneg [10; 10]%Z /\ Forall (fun v => (1 <= v)%Z) [2000; 2000]%Z).
Proof.
  destruct (k_run (fun _ _ _ => 1%R)) as (R0t & lp & old & H).
  exact (@sample_params_within_bounds binom_pmf_math (fun _ _ _ => 1%R)
           (50, 10, 10)%Z cli_priors k_stds 2%Z epsilon cli_bounds
           [100; 0]%Z [0; 0]%Z [0; 0]%Z [0; 0]%Z cli_params
           _ _ _ _ _ _ (k_gen (fun _ _ _ => 1%R)) 0%nat
           k_params_new _ _ _ _ _ _ R0t lp old 2%nat H).
Defined.

(** X16.  [np.random.normal] refuses a negative scale: with a negative
    entry among [rand_walk_stds], [sample_params] raises on every input. *)
Theorem sample_params_rejects_negative_std (binom_pmf : Z -> R -> Z -> R)
    (gamma_pdf : R -> R -> R -> R) (inits : Z * Z * Z) (priors : list (R * R))
    (rand_walk_stds : list R) (t_ctrl : Z) (eps : R) (bounds : list (R * R))
    (B C D_mild D_wild : list Z) (params : list R) (variables : PData)
    (o : Oracle) (n : nat) (s : R) :
  In s rand_walk_stds -> (s < 0)%R ->
  sample_params binom_pmf gamma_pdf inits priors rand_walk_stds t_ctrl eps
    bounds B C D_mild D_wild params variables o n = None.
Proof.
  intros Hin Hs.
  destruct (sample_params _ _ _ _ _ _ _ _ _ _ _ _ _ _ _ _) as [[r n']|] eqn:H;
    [exfalso|reflexivity].
  destruct variables as [[[[[S_ E] Im] Iw] P] N].
  destruct r as [[[[params' d'] R0t] lp] old].
  unfold sample_params in H.
  binv H u m0 Hu. destruct u as [[[[[[b0 q0] dl0] r0] gm0] gw0] old_k].
  binv H r1 m1 Hmh. destruct r1 as [[[p1 d1] lp1] old1].
  unfold metropolis_hastings in Hmh.
  binv Hmh lp0 m2 Hlp0. binv Hmh r2 m3 Hloop. destruct r2 as [y dy].
  simpl mh_loop in Hloop. binv Hloop r3 m4 Hprop. destruct r3 as [x_new d_new].
  simpl params_proposal_loop in Hprop. binv Hprop x1 m5 Hnorm.
  unfold np_random_normal in Hnorm.
  replace (existsb (fun s0 => Rltb s0 0) rand_walk_stds) with true in Hnorm;
    [discriminate|].
  symmetry. apply existsb_exists. exists s. split; [assumption|].
  apply Rltb_true. assumption.
Qed.

Lemma sample_params_rejects_negative_std_witness :
  sample_params binom_pmf_math (fun _ _ _ => 1%R) (1, 1, 1)%Z cli_priors
    [0; 0; 0; -1; 0; 0; 0]%R 0 epsilon cli_bounds [0]%Z [0]%Z [0]%Z [0]%Z
    cli_params ([1]%Z, [1]%Z, [1]%Z, [1]%Z, [0]%R, [3]%Z) gen_unit 0 = None.
Proof.
  apply (@sample_params_rejects_negative_std binom_pmf_math (fun _ _ _ => 1%R)
           (1, 1, 1)%Z cli_priors [0; 0; 0; -1; 0; 0; 0]%R 0%Z epsilon cli_bounds
           [0]%Z [0]%Z [0]%Z [0]%Z cli_params
           ([1]%Z, [1]%Z, [1]%Z, [1]%Z, [0]%R, [3]%Z) gen_unit 0%nat (-1)%R).
  - simpl. auto 10.
  - lra.
Defined.

Lemma nth_error_6 {A} (l : list A) (v : A) :
  nth_error l 6 = Some v ->
  exists a1 a2 a3 a4 a5 a6 r, l = a1 :: a2 :: a3 :: a4 :: a5 :: a6 :: v :: r.
Proof.
  destruct l as [|a1 [|a2 [|a3 [|a4 [|a5 [|a6 [|a7 r]]]]]]]; try discriminate.
  simpl. intros H; inversion H; subst. do 7 eexists. reflexivity.
Qed.

(** X17.  The population follows the scale factor only: when the
    random-walk deviation of [k] is zero, [k] is not zero and the population
    is at least one on every day, [sample_params] returns the [k] and the
    population [N] it was given, whatever it does to the other parameters. *)
Theorem sample_params_fixed_k (binom_pmf : Z -> R -> Z -> R)
    (gamma_pdf : R -> R -> R -> R) (inits : Z * Z * Z) (priors : list (R * R))
    (rand_walk_stds : list R) (t_ctrl : Z) (eps : R) (bounds : list (R * R))
    (B C D_mild D_wild : list Z) (params : list R) (k : R)
    (S_ E Im Iw : list Z) (P : list R) (N : list Z) (o : Oracle) (n : nat)
    (params' : list R) (S' E' Im' Iw' : list Z) (P' : list R) (N' : list Z)
    (R0t : list R) (lp old : R) (n' : nat) :
  nth_error rand_walk_stds 6 = Some 0%R ->
  nth_error params 6 = Some k -> k <> 0%R ->
  Forall (fun v => (1 <= v)%Z) N ->
  sample_params binom_pmf gamma_pdf inits priors rand_walk_stds t_ctrl eps
    bounds B C D_mild D_wild params (S_, E, Im, Iw, P, N) o n
    = Some ((params', (S', E', Im', Iw', P', N'), R0t, lp, old), n') ->
  nth_error params' 6 = Some k /\ N' = N.
Proof.
  intros Hstd Hk Hk0 HN H. apply sample_params_inv in H.
  destruct H as (old_k & Hold & L7 & [[-> Hd]|((m & Hnorm) & Hc & _)]).
  - inversion Hd; subst. auto.
  - rewrite Hk in Hold. inversion Hold; subst old_k; clear Hold.
    assert (Hk' : nth_error params' 6 = Some k).
    { apply nth_error_6 in Hstd.
      destruct Hstd as (s1 & s2 & s3 & s4 & s5 & s6 & r & ->).
      apply nth_error_6 in Hk.
      destruct Hk as (a1 & a2 & a3 & a4 & a5 & a6 & r' & ->).
      destruct r'; [|discriminate L7].
      unfold np_random_normal in Hnorm.
      destruct (existsb _ _); [discriminate|].
      destruct r as [|s8 r]; [|discriminate Hnorm].
      unfold np_zip in Hnorm. cbn [length Nat.eqb zipw seq map] in Hnorm.
      inversion Hnorm; subst. cbn [nth_error fst snd]. f_equal. ring. }
    split; [exact Hk'|].
    apply params_candidate_N in Hc. destruct Hc as (k1 & Hk1 & ->).
    rewrite Hk' in Hk1. inversion Hk1; subst k1.
    rewrite <- (map_id N) at 2. apply map_ext_in. intros v Hv.
    rewrite Forall_forall in HN. specialize (HN v Hv).
    cbv zeta. rewrite (@round_int_of_Z v (IZR v * k / k)) by (field; assumption).
    destruct (Z.ltb_spec v 1); [lia|reflexivity].
Qed.

Lemma fixed_k_config_ok : config_ok cli_priors fixed_k_stds 1 cli_bounds.
Proof.
  unfold config_ok, cli_priors, fixed_k_stds, cli_bounds. simpl.
  repeat split; try lia; repeat constructor; simpl; lra.
Qed.

Lemma one_day_wf : wf_state 1 [0]%Z one_day.
Proof. repeat split. Qed.

Lemma sample_params_fixed_k_witness :
  exists params' d' R0t lp old n',
    sample_params binom_pmf_math (fun _ _ _ => 1%R) (1, 1, 1)%Z cli_priors
      fixed_k_stds 1 epsilon cli_bounds [0]%Z [0]%Z [0]%Z [0]%Z cli_params
      (st_S one_day, st_E one_day, st_I_mild one_day, st_I_wild one_day,
       st_P one_day, [10]%Z) gen_unit 0
    = Some ((params', d', R0t, lp, old), n')
    /\ nth_error params' 6 = Some 1%R /\ snd d' = [10]%Z.
Proof.
  destruct (@sample_params_keeps_inv binom_pmf_math (fun _ _ _ => 1%R) [0]%Z
              (1, 1, 1)%Z cli_priors fixed_k_stds 1 cli_bounds (Z.of_nat 1) 1
              epsilon ltac:(lia) eq_refl fixed_k_config_ok one_day one_day_wf
              (proj1 (@rep_inv_iff [0]%Z (1, 1, 1)%Z 1 (Z.of_nat 1) 1 one_day
                        one_day_wf ltac:(lia) eq_refl) one_day_rep_inv)
              ltac:(unfold rates_nonneg, one_day, cli_params; simpl; lra)
              ltac:(unfold N_pos, one_day; simpl; repeat constructor; lia)
              gen_unit 0%nat)
    as (params' & d' & R0t & lp & old & n' & H & _).
  exists params', d', R0t, lp, old, n'. split; [exact H|].
  destruct d' as [[[[[S' E'] Im'] Iw'] P'] N'].
  apply (@sample_params_fixed_k binom_pmf_math (fun _ _ _ => 1%R) (1, 1, 1)%Z
           cli_priors fixed_k_stds 1%Z epsilon cli_bounds [0]%Z [0]%Z [0]%Z [0]%Z
           cli_params 1%R _ _ _ _ _ [10]%Z gen_unit 0%nat
           params' S' E' Im' Iw' P' N' R0t lp old n'
           eq_refl eq_refl ltac:(lra) ltac:(repeat constructor; lia) H).
Defined.

(** ** The training loop: what is saved, and when it raises *)

Section TrainLoopFacts.
Variable binom_pmf : Z -> R -> Z -> R.
Variable gamma_pdf : R -> R -> R -> R.
Variables (D_wild : list Z) (inits : Z * Z * Z) (priors : list (R * R)).
Variables (rand_walk_stds : list R) (t_ctrl : Z) (bounds : list (R * R)).
Variable t_end : Z.

Lemma train_step_checked (st : State) o n st' R0t lp old n' :
    train_step binom_pmf gamma_pdf D_wild inits priors rand_walk_stds t_ctrl
      bounds t_end st o n = Some ((st', R0t, lp, old), n') ->
    rep_inv D_wild inits t_ctrl t_end st' = true.
  Proof.
    unfold train_step. destruct st as [S_ E Im Iw B C Dm P N params]. intros H.
    binv H r1 m1 H1. destruct r1 as [[[[B1 S1] E1] lp1] old1].
    binv H u1 m2 Ha1.
    binv H r2 m3 H2. destruct r2 as [[[[[[C2 E2] Im2] Iw2] Pc2] lp2] old2].
    binv H u2 m4 Ha2.
    binv H r3 m5 H3. destruct r3 as [[[[D3 Im3] Pc3] lp3] old3].
    binv H u3 m6 Ha3.
    binv H r4 m7 H4. destruct r4 as [[[[p4 d4] R4] lp4] old4].
    destruct d4 as [[[[[S4 E4] Im4] Iw4] Pc4] N4].
    binv H u4 m8 Ha4. apply assert_Some in Ha4. destruct Ha4 as [Ha4 _].
    apply ret_Some in H. inversion H; subst. exact Ha4.
  Qed.

Lemma train_loop_saved (n_burn_in save_freq : nat) :
    forall todo i st saved_params saved_R0ts o n st' sp' sr' n',
      train_loop binom_pmf gamma_pdf D_wild inits priors rand_walk_stds t_ctrl
        bounds t_end todo i n_burn_in save_freq st saved_params saved_R0ts o n
      = Some ((st', sp', sr'), n') ->
      exists trace,
        length trace = todo
        /\ iterations binom_pmf gamma_pdf D_wild inits priors rand_walk_stds
             t_ctrl bounds t_end trace st o n st' n'
        /\ sp' = saved_params
                 ++ map (fun x => st_params (fst x))
                      (saved_entries n_burn_in save_freq i trace)
        /\ sr' = saved_R0ts
                 ++ map snd (saved_entries n_burn_in save_freq i trace)
        /\ Forall (fun x => rep_inv D_wild inits t_ctrl t_end (fst x) = true)
             trace.
  Proof.
    induction todo as [|todo IH];
      intros i st sp sr o n st' sp' sr' n' H; simpl train_loop in H.
    - apply ret_Some in H. inversion H; subst.
      exists []. rewrite !app_nil_r. simpl. auto.
    - binv H r1 m1 Hstep. destruct r1 as [[[st1 R0t] lp] old].
      pose proof (train_step_checked _ _ _ Hstep) as Hchk.
      binv H u m2 Ha. apply assert_Some in Ha. destruct Ha as [_ ->].
      fold (saved_at n_burn_in save_freq i) in H.
      destruct (saved_at n_burn_in save_freq i) eqn:Es.
      + apply IH in H. destruct H as (tr & Hl & Hit & -> & -> & Hall).
        exists ((st1, R0t) :: tr). cbn [saved_entries length iterations].
        rewrite Es. cbn [map fst snd]. rewrite <- !app_assoc. cbn [app].
        split; [lia|]. split; [exists lp, old, m1; auto|].
        split; [reflexivity|]. split; [reflexivity|]. constructor; auto.
      + apply IH in H. destruct H as (tr & Hl & Hit & -> & -> & Hall).
        exists ((st1, R0t) :: tr). cbn [saved_entries length iterations].
        rewrite Es.
        split; [lia|]. split; [exists lp, old, m1; auto|].
        split; [reflexivity|]. split; [reflexivity|]. constructor; auto.
  Qed.

Lemma train_loop_of_trace (n_burn_in save_freq : nat) :
    (1 <= save_freq)%nat ->
    forall trace i st saved_params saved_R0ts o n st' n',
      iterations binom_pmf gamma_pdf D_wild inits priors rand_walk_stds t_ctrl
        bounds t_end trace st o n st' n' ->
      train_loop binom_pmf gamma_pdf D_wild inits priors rand_walk_stds t_ctrl
        bounds t_end (length trace) i n_burn_in save_freq st saved_params
        saved_R0ts o n
      = Some ((st',
               saved_params ++ map (fun x => st_params (fst x))
                                 (saved_entries n_burn_in save_freq i trace),
               saved_R0ts ++ map snd (saved_entries n_burn_in save_freq i trace)),
              n').
  Proof.
    intros Hsf. induction trace as [|[s1 R0t] rest IH];
      intros i st sp sr o n st' n' H.
    - destruct H as [-> ->]. simpl. rewrite !app_nil_r. reflexivity.
    - destruct H as (lp & old & m & Hstep & Hrest).
      cbn [length train_loop]. unfold bind at 1. rewrite Hstep.
      replace (Nat.eqb save_freq 0) with false
        by (symmetry; apply Nat.eqb_neq; lia).
      rewrite andb_false_r. cbn [negb assert_]. unfold bind at 1, ret at 1.
      fold (saved_at n_burn_in save_freq i). cbn [saved_entries].
      destruct (saved_at n_burn_in save_freq i).
      + rewrite (IH (S i) s1 (sp ++ [st_params s1]) (sr ++ [R0t]) o m st' n' Hrest).
        cbn [map fst snd]. rewrite <- !app_assoc. reflexivity.
      + apply IH. exact Hrest.
  Qed.

Lemma train_loop_zero_save_freq (n_burn_in : nat) :
    forall todo i st saved_params saved_R0ts o n,
      (i <= n_burn_in < i + todo)%nat ->
      train_loop binom_pmf gamma_pdf D_wild inits priors rand_walk_stds t_ctrl
        bounds t_end todo i n_burn_in 0 st saved_params saved_R0ts o n = None.
  Proof.
    induction todo as [|todo IH]; intros i st sp sr o n Hi; [lia|].
    simpl train_loop. unfold bind at 1.
    destruct (train_step _ _ _ _ _ _ _ _ _ _ _ _) as [[[[[st1 R0t] lp] old] m1]|];
      [|reflexivity].
    change (Nat.eqb 0 0) with true. rewrite andb_true_r.
    destruct (Nat.leb_spec n_burn_in i) as [Hle|Hgt].
    - reflexivity.
    - simpl assert_. unfold bind, ret. simpl andb. apply IH. lia.
  Qed.
End TrainLoopFacts.

(** X18.  What a run of the training loop saves.  For [save_freq >= 1], a
    run of [n_iter] iterations from iteration [i] returns exactly when its
    iterations do, one after the other; the samples saved before are kept,
    in order, and what is added is, for each iteration [j] of the run with
    [j >= n_burn_in] and [j % save_freq == 0] and for no other, the
    parameter vector of the state that iteration returned and the [R0t]
    that its [sample_params] returned. *)
Theorem train_loop_saves_past_burn_in
    (binom_pmf : Z -> R -> Z -> R) (gamma_pdf : R -> R -> R -> R)
    (D_wild : list Z) (inits : Z * Z * Z) (priors : list (R * R))
    (rand_walk_stds : list R) (t_ctrl : Z) (bounds : list (R * R)) (t_end : Z)
    (n_iter i n_burn_in save_freq : nat) (st : State)
    (saved_params saved_R0ts : list (list R)) (o : Oracle) (n : nat)
    (st' : State) (sp' sr' : list (list R)) (n' : nat) :
  (1 <= save_freq)%nat ->
  (train_loop binom_pmf gamma_pdf D_wild inits priors rand_walk_stds t_ctrl
     bounds t_end n_iter i n_burn_in save_freq st saved_params saved_R0ts o n
   = Some ((st', sp', sr'), n')
   <-> exists trace,
        length trace = n_iter
        /\ iterations binom_pmf gamma_pdf D_wild inits priors rand_walk_stds
             t_ctrl bounds t_end trace st o n st' n'
        /\ sp' = saved_params
                 ++ map (fun x => st_params (fst x))
                      (saved_entries n_burn_in save_freq i trace)
        /\ sr' = saved_R0ts
                 ++ map snd (saved_entries n_burn_in save_freq i trace)).
Proof.
  intros Hsf. split.
  - intros H. apply train_loop_saved in H.
    destruct H as (tr & Hl & Hit & Hp & Hr & _). exists tr. auto.
  - intros (tr & <- & Hit & -> & ->).
    apply train_loop_of_trace; assumption.
Qed.

Lemma train_loop_saves_past_burn_in_witness :
  exists (st' : State) (sp' sr' : list (list R)) (n' : nat),
    train_loop binom_pmf_math (fun _ _ _ => 1%R) [0; 0]%Z (50, 10, 10)%Z
      cli_priors cli_stds 2 cli_bounds (Z.of_nat 2) 3 0 1 1 k_state [] []
      gen_prop 0
    = Some ((st', sp', sr'), n')
    /\ exists s1 r1 s2 r2 s3 r3,
        iterations binom_pmf_math (fun _ _ _ => 1%R) [0; 0]%Z (50, 10, 10)%Z
          cli_priors cli_stds 2 cli_bounds (Z.of_nat 2)
          [(s1, r1); (s2, r2); (s3, r3)] k_state gen_prop 0 st' n'
        /\ sp' = [st_params s2; st_params s3] /\ sr' = [r2; r3].
Proof.
  destruct (@train_loop_keeps_inv binom_pmf_math (fun _ _ _ => 1%R) [0; 0]%Z
              (50, 10, 10)%Z cli_priors cli_stds 2 cli_bounds (Z.of_nat 2) 2
              ltac:(lia) eq_refl k_config_ok 1%nat 1%nat ltac:(lia)
              3%nat 0%nat k_state [] [] gen_prop 0%nat)
    as ([[[st' sp'] sr'] n'] & H & _).
  { split; [exact k_state_wf|]. split; [exact k_state_rep_inv|].
    split.
    - unfold rates_nonneg, k_state, cli_params. simpl. lra.
    - unfold N_pos, k_state. simpl. repeat constructor; lia. }
  exists st', sp', sr', n'. split; [exact H|].
  destruct (proj1 (@train_loop_saves_past_burn_in binom_pmf_math
                     (fun _ _ _ => 1%R) [0; 0]%Z (50, 10, 10)%Z cli_priors
                     cli_stds 2%Z cli_bounds (Z.of_nat 2) 3%nat 0%nat 1%nat 1%nat
                     k_state [] [] gen_prop 0%nat st' sp' sr' n' (le_n 1)) H)
    as (tr & Hl & Hit & Hp & Hr).
  destruct tr as [|[s1 r1] [|[s2 r2] [|[s3 r3] [|x tr]]]]; try discriminate Hl.
  exists s1, r1, s2, r2, s3, r3. split; [exact Hit|].
  split; [exact Hp|exact Hr].
Defined.

(** X19.  With [save_freq = 0] the remainder [i % save_freq] raises at the
    first iteration past the burn-in: a run of [n_iter > n_burn_in]
    iterations raises, whatever the state and the generator. *)
Theorem train_loop_raises_on_zero_save_freq
    (binom_pmf : Z -> R -> Z -> R) (gamma_pdf : R -> R -> R -> R)
    (D_wild : list Z) (inits : Z * Z * Z) (priors : list (R * R))
    (rand_walk_stds : list R) (t_ctrl : Z) (bounds : list (R * R)) (t_end : Z)
    (n_iter n_burn_in : nat) (st : State) (o : Oracle) (n : nat) :
  (n_burn_in < n_iter)%nat ->
  train_loop binom_pmf gamma_pdf D_wild inits priors rand_walk_stds t_ctrl
    bounds t_end n_iter 0 n_burn_in 0 st [] [] o n = None.
Proof.
  intros H. apply train_loop_zero_save_freq. lia.
Qed.

Lemma train_loop_raises_on_zero_save_freq_witness :
  train_loop binom_pmf_math (fun _ _ _ => 1%R) [0]%Z (1, 1, 1)%Z cli_priors
    cli_stds 1 cli_bounds (Z.of_nat 1) 3 0 1 0 one_day [] [] gen_unit 0 = None.
Proof.
  apply (@train_loop_raises_on_zero_save_freq binom_pmf_math (fun _ _ _ => 1%R)
           [0]%Z (1, 1, 1)%Z cli_priors cli_stds 1%Z cli_bounds (Z.of_nat 1)
           3%nat 1%nat one_day gen_unit 0%nat).
  lia.
Defined.

(** ** Initialisation: the loop and what it builds *)

Lemma nth_snoc_lt {A} (l : list A) (v d : A) (j : nat) :
  (j < length l)%nat -> nth j (l ++ [v]) d = nth j l d.
Proof. intros H. apply app_nth1. exact H. Qed.

Lemma nth_snoc_eq {A} (l : list A) (v d : A) (j : nat) :
  j = length l -> nth j (l ++ [v]) d = v.
Proof. intros ->. apply nth_middle. Qed.

Lemma flows_snoc (x : list Z) (x0 : Z) (inflow outflow inflow' outflow' : nat -> Z)
      (t : nat) (v : Z) :
  flows x x0 inflow outflow t -> length x = S t ->
  (forall j, (j < t)%nat -> inflow' j = inflow j /\ outflow' j = outflow j) ->
  v = (nth t x 0 + inflow' t - outflow' t)%Z ->
  flows (x ++ [v]) x0 inflow' outflow' (S t).
Proof.
  intros [H0 Hf] L Hio Hv. split.
  - rewrite nth_snoc_lt by lia. exact H0.
  - intros j Hj. destruct (Nat.eq_dec j t) as [->|Hne].
    + rewrite nth_snoc_eq by lia. rewrite nth_snoc_lt by lia. exact Hv.
    + rewrite !nth_snoc_lt by lia. rewrite Hf by lia.
      destruct (Hio j ltac:(lia)) as [-> ->]. reflexivity.
Qed.

Lemma nonneg_snoc (l : list Z) (v : Z) : nonneg l -> (0 <= v)%Z -> nonneg (l ++ [v]).
Proof.
  intros Hl Hv. apply Forall_app. split; [exact Hl|]. constructor; [exact Hv|constructor].
Qed.

Lemma nonneg_nth (l : list Z) (j : nat) : nonneg l -> (0 <= nth j l 0)%Z.
Proof.
  intros Hl. destruct (Nat.lt_ge_cases j (length l)) as [H|H].
  - unfold nonneg in Hl. rewrite Forall_forall in Hl. apply Hl, nth_In, H.
  - rewrite nth_overflow by assumption. lia.
Qed.

Lemma round_int_share (c : Z) (p : R) :
  (0 <= c)%Z -> (0 <= p <= 1)%R -> (0 <= round_int (IZR c * p) <= c)%Z.
Proof.
  intros Hc Hp.
  assert (Hc' : (0 <= IZR c)%R) by (apply IZR_le; assumption).
  split.
  - replace 0%Z with (round_int (IZR 0)) by (apply round_int_of_Z; reflexivity).
    apply round_int_mono. simpl. nra.
  - replace c with (round_int (IZR c)) at 2 by (apply round_int_of_Z; reflexivity).
    apply round_int_mono. nra.
Qed.

Lemma prob_of_hazard (g : R) : (0 <= g)%R -> (0 <= 1 - exp (- g) <= 1)%R.
Proof.
  intros Hg. pose proof (exp_pos (- g)).
  assert (exp (- g) <= 1)%R by (apply exp_le_1; lra). lra.
Qed.

Section InitializeLoop.
Variables (delta rho gamma_mild : R) (N D_wild : list Z) (t_rate : list R).
Variables (n0 e0 i_mild0 i_wild0 : Z).

Lemma initialize_step_inv (t : nat) (a a' : InitAcc) :
    init_inv delta N D_wild t_rate n0 e0 i_mild0 i_wild0 t a ->
    initialize_step delta rho gamma_mild N D_wild t_rate t a = Some a' ->
    init_inv delta N D_wild t_rate n0 e0 i_mild0 i_wild0 (S t) a'
    /\ (S t < length N)%nat /\ (t < length D_wild)%nat.
  Proof.
    destruct a as [S_ E Im Iw B C Dm P].
    intros (LS & LE & LIm & LIw & LB & LC & LDm & LP & FS & FE & FIm & FIw & HP & HIw) H.
    cbn [ia_S ia_E ia_I_mild ia_I_wild ia_B ia_C ia_D_mild ia_P] in *.
    unfold initialize_step in H.
    oinv H. rename v into s, E0 into Es.
    oinv H. rename v into e, E0 into Ee.
    oinv H. rename v into im, E0 into Eim.
    oinv H. rename v into iw, E0 into Eiw.
    oinv H. rename v into r, E0 into Er.
    oinv H. rename v into n_t, E0 into En.
    destruct (Rleb 0 _ && Rleb _ 1) eqn:Ep; [|discriminate]. simpl negb in H.
    cbv iota in H.
    oinv H. rename v into d_wild, E0 into Ed.
    oinv H. rename v into n_t1, E0 into En1.
    destruct (0 <=? _)%Z eqn:Ei; [|discriminate]. simpl negb in H. cbv iota in H.
    inversion H; subst a'; clear H.
    apply andb_prop in Ep. destruct Ep as [Ep0 Ep1].
    apply Rleb_true in Ep0. apply Rleb_true in Ep1. apply Z.leb_le in Ei.
    apply nth_error_nth with (d := 0%Z) in Es, Ee, Eim, Eiw, En.
    apply nth_error_nth with (d := 0%R) in Er.
    assert (HN1 : (S t < length N)%nat)
      by (apply nth_error_Some; rewrite En1; discriminate).
    assert (HD : (t < length D_wild)%nat)
      by (apply nth_error_Some; rewrite Ed; discriminate).
    apply nth_error_nth with (d := 0%Z) in Ed, En1.
    split; [|split; assumption].
    unfold init_inv.
    cbn [ia_S ia_E ia_I_mild ia_I_wild ia_B ia_C ia_D_mild ia_P].
    rewrite !length_app. cbn [length].
    repeat (split; [lia|]).
    split; [|split; [|split; [|split; [|split]]]].
    - eapply flows_snoc; [exact FS|exact LS| |].
      + intros j Hj. rewrite nth_snoc_lt by lia. auto.
      + rewrite nth_snoc_eq by lia. rewrite Es, En, En1. lia.
    - eapply flows_snoc; [exact FE|exact LE| |].
      + intros j Hj. rewrite !nth_snoc_lt by lia. auto.
      + rewrite !nth_snoc_eq by lia. rewrite Ee. reflexivity.
    - eapply flows_snoc; [exact FIm|exact LIm| |].
      + intros j Hj. rewrite !nth_snoc_lt by lia. auto.
      + rewrite !nth_snoc_eq by lia. rewrite Eim. reflexivity.
    - eapply flows_snoc; [exact FIw|exact LIw| |].
      + intros j Hj. rewrite !nth_snoc_lt by lia. auto.
      + rewrite !nth_snoc_eq by lia. rewrite Eiw, Ed. reflexivity.
    - intros j Hj. destruct (Nat.eq_dec j t) as [->|Hne].
      + rewrite nth_snoc_eq by lia. rewrite !nth_snoc_lt by lia.
        rewrite Er, Eim, Eiw, En. split; [reflexivity|]. split; assumption.
      + rewrite !nth_snoc_lt by lia. apply HP. lia.
    - intros j Hj. destruct (Nat.eq_dec j t) as [->|Hne].
      + rewrite nth_snoc_eq by lia. exact Ei.
      + rewrite nth_snoc_lt by lia. apply HIw. lia.
  Qed.

Lemma initialize_loop_inv (todo : nat) :
    forall t a a',
      init_inv delta N D_wild t_rate n0 e0 i_mild0 i_wild0 t a ->
      initialize_loop delta rho gamma_mild N D_wild t_rate todo t a = Some a' ->
      init_inv delta N D_wild t_rate n0 e0 i_mild0 i_wild0 (t + todo) a'
      /\ (1 <= todo -> t + todo < length N /\ t + todo <= length D_wild)%nat.
  Proof.
    induction todo as [|todo IH]; intros t a a' Hi H; simpl in H.
    - inversion H; subst. rewrite Nat.add_0_r. split; [exact Hi|lia].
    - oinv H. rename v into a1.
      destruct (initialize_step_inv Hi E) as (Hi1 & HN & HD).
      destruct (IH _ _ _ Hi1 H) as (Hi' & Hlen).
      replace (t + S todo)%nat with (S t + todo)%nat by lia.
      split; [exact Hi'|]. intros _.
      destruct todo; [lia|]. specialize (Hlen ltac:(lia)). lia.
  Qed.

  (** Under the assumptions of a sane configuration the counts stay
      non-negative. *)
Hypothesis Hdelta : (0 <= delta <= 1)%R.
Hypothesis Hrho : (0 <= rho)%R.
Hypothesis Hgamma : (0 <= gamma_mild)%R.
Hypothesis HN : non_decreasing N.

Lemma initialize_step_nonneg (t : nat) (a a' : InitAcc) :
    init_nonneg a ->
    initialize_step delta rho gamma_mild N D_wild t_rate t a = Some a' ->
    init_nonneg a'.
  Proof.
    destruct a as [S_ E Im Iw B C Dm P].
    intros (NS & NE & NIm & NIw & NB & NC & NDm) H.
    cbn [ia_S ia_E ia_I_mild ia_I_wild ia_B ia_C ia_D_mild ia_P] in *.
    unfold initialize_step in H.
    oinv H. rename v into s, E0 into Es.
    oinv H. rename v into e, E0 into Ee.
    oinv H. rename v into im, E0 into Eim.
    oinv H. rename v into iw, E0 into Eiw.
    oinv H. rename v into r, E0 into Er.
    oinv H. rename v into n_t, E0 into En.
    destruct (Rleb 0 _ && Rleb _ 1) eqn:Ep; [|discriminate]. simpl negb in H.
    cbv iota in H.
    oinv H. rename v into d_wild, E0 into Ed.
    oinv H. rename v into n_t1, E0 into En1.
    destruct (0 <=? _)%Z eqn:Ei; [|discriminate]. simpl negb in H. cbv iota in H.
    inversion H; subst a'; clear H.
    apply andb_prop in Ep. destruct Ep as [Ep0 Ep1].
    apply Rleb_true in Ep0. apply Rleb_true in Ep1. apply Z.leb_le in Ei.
    assert (HN1 : (S t < length N)%nat)
      by (apply nth_error_Some; rewrite En1; discriminate).
    apply nth_error_nth with (d := 0%Z) in Es, Ee, Eim, Eiw, En, En1.
    assert (Hs : (0 <= s)%Z) by (rewrite <- Es; apply nonneg_nth; assumption).
    assert (He : (0 <= e)%Z) by (rewrite <- Ee; apply nonneg_nth; assumption).
    assert (Him : (0 <= im)%Z) by (rewrite <- Eim; apply nonneg_nth; assumption).
    pose proof (round_int_share Hs (conj Ep0 Ep1)) as Hb.
    pose proof (round_int_share He (prob_of_hazard Hrho)) as Hc.
    pose proof (round_int_share Him (prob_of_hazard Hgamma)) as Hd.
    pose proof (round_int_share (proj1 Hc) Hdelta) as Hcm.
    pose proof (HN HN1) as Hmono. rewrite En, En1 in Hmono.
    unfold init_nonneg.
    cbn [ia_S ia_E ia_I_mild ia_I_wild ia_B ia_C ia_D_mild ia_P].
    repeat split; apply nonneg_snoc; try assumption; lia.
  Qed.

Lemma initialize_loop_nonneg (todo : nat) :
    forall t a a',
      init_nonneg a ->
      initialize_loop delta rho gamma_mild N D_wild t_rate todo t a = Some a' ->
      init_nonneg a'.
  Proof.
    induction todo as [|todo IH]; intros t a a' Hi H; simpl in H.
    - inversion H; subst. exact Hi.
    - oinv H. eapply IH; [|exact H]. eapply initialize_step_nonneg; eauto.
  Qed.
End InitializeLoop.

(** ** Initialisation: the returned arrays *)

Lemma py_get_last {A} (l : list A) (v d : A) :
  py_get l (-1) = Some v -> l <> [] /\ v = nth (length l - 1) l d.
Proof.
  unfold py_get, py_index. intros H.
  change (0 <=? -1)%Z with false in H. cbn [andb] in H.
  destruct ((- Z.of_nat (length l) <=? -1)%Z && (-1 <? 0)%Z) eqn:E;
    [|discriminate H].
  apply andb_prop in E. destruct E as [E _]. apply Z.leb_le in E.
  cbn [opt_bind] in H.
  replace (Z.to_nat (-1 + Z.of_nat (length l))) with (length l - 1)%nat in H by lia.
  split.
  - intros ->. simpl in E. lia.
  - symmetry. apply nth_error_nth. exact H.
Qed.

Lemma py_get_last_Some {A} (l : list A) (d : A) :
  l <> [] -> py_get l (-1) = Some (nth (length l - 1) l d).
Proof.
  intros Hl. unfold py_get, py_index.
  change (0 <=? -1)%Z with false. cbn [andb].
  assert (1 <= length l)%nat by (destruct l; [congruence|simpl; lia]).
  replace ((- Z.of_nat (length l) <=? -1)%Z && (-1 <? 0)%Z) with true.
  2:{ symmetry. apply andb_true_intro. split; [apply Z.leb_le; lia|reflexivity]. }
  cbn [opt_bind].
  replace (Z.to_nat (-1 + Z.of_nat (length l))) with (length l - 1)%nat by lia.
  apply nth_error_nth'. lia.
Qed.

Lemma Reqb_false a b : Reqb a b = false -> a <> b.
Proof. unfold Reqb. destruct (Req_dec_T a b); [discriminate|auto]. Qed.

Lemma np_random_binomial_Some (s : Z) (p : R) o n b n' :
  np_random_binomial s p o n = Some (b, n') ->
  (0 <= s)%Z /\ (0 <= p <= 1)%R /\ (0 <= b <= s)%Z /\ n' = S n.
Proof.
  unfold np_random_binomial. intros H.
  destruct (s <? 0)%Z eqn:Es; [discriminate|].
  destruct (Rltb p 0) eqn:E0; [discriminate|].
  destruct (Rltb 1 p) eqn:E1; [discriminate|].
  simpl in H. apply Z.ltb_ge in Es.
  apply Rltb_false in E0. apply Rltb_false in E1.
  inversion H; subst; clear H.
  split; [assumption|]. split; [lra|]. split; [|reflexivity].
  destruct (Reqb p 0); [lia|]. destruct (Reqb p 1); [lia|].
  pose proof (Nat.mod_upper_bound (hd 0%nat (o_choice o n)) (Z.to_nat s + 1)
                ltac:(lia)).
  lia.
Qed.

Lemma np_random_binomial_returns (s : Z) (p : R) o n :
  (0 <= s)%Z -> (0 <= p <= 1)%R ->
  exists b, np_random_binomial s p o n = Some (b, S n).
Proof.
  intros Hs Hp. unfold np_random_binomial.
  replace (s <? 0)%Z with false by (symmetry; apply Z.ltb_ge; assumption).
  replace (Rltb p 0) with false by (symmetry; apply Rltb_false; lra).
  replace (Rltb 1 p) with false by (symmetry; apply Rltb_false; lra).
  simpl. eauto.
Qed.

Lemma init_inv_start (delta : R) (N D_wild : list Z) (t_rate : list R)
      (n0 e0 i_mild0 i_wild0 : Z) :
  init_inv delta N D_wild t_rate n0 e0 i_mild0 i_wild0 0
    (mkInitAcc [n0] [e0] [i_mild0] [i_wild0] [] [] [] []).
Proof.
  unfold init_inv, flows. simpl.
  repeat split; try reflexivity; intros; lia.
Qed.

Lemma initialize_spec (inits : Z * Z * Z) (params : list R) (N D_wild : list Z)
      (t_ctrl : Z) o n S_ E Im Iw B C Dm P t_rate N' n' :
  initialize inits params N D_wild t_ctrl o n
    = Some ((S_, E, Im, Iw, B, C, Dm, P, t_rate, N'), n') ->
  exists beta q delta rho gm gw k e0 im0 iw0 n0 a b p,
    params = [beta; q; delta; rho; gm; gw; k] /\ inits = (e0, im0, iw0)
    /\ nth_error N 0 = Some n0
    /\ transmission_rate beta q t_ctrl (Z.of_nat (length N)) = Some t_rate
    /\ initialize_loop delta rho gm N D_wild t_rate (length N - 1) 0
         (mkInitAcc [n0] [e0] [im0] [iw0] [] [] [] []) = Some a
    /\ init_inv delta N D_wild t_rate n0 e0 im0 iw0 (length N - 1) a
    /\ (length N - 1 <= length D_wild)%nat
    /\ S_ = ia_S a /\ E = ia_E a /\ Im = ia_I_mild a /\ Iw = ia_I_wild a
    /\ B = ia_B a ++ [b]
    /\ C = ia_C a
           ++ [round_int (IZR (nth (length N - 1) E 0%Z) * (1 - exp (- rho)))]
    /\ Dm = ia_D_mild a
            ++ [py_int (IZR (nth (length N - 1) Im 0%Z) * (1 - exp (- gm)))]
    /\ P = ia_P a ++ [p]
    /\ p = (1 - exp (- nth (length N - 1) t_rate 0
                     * IZR (nth (length N - 1) Im 0%Z + nth (length N - 1) Iw 0%Z)
                     / IZR (nth (length N - 1) N 0%Z)))%R
    /\ (0 <= p <= 1)%R
    /\ (0 <= b <= nth (length N - 1) S_ 0)%Z
    /\ N' = N /\ n' = S n.
Proof.
  unfold initialize. intros H.
  binv H u m0 Hu. apply lift_Some in Hu. destruct Hu as [Hu ->].
  apply unpack7_Some in Hu.
  destruct Hu as (beta & q & delta & rho & gm & gw & k & Hp & ->).
  destruct inits as [[e0 im0] iw0].
  binv H n0 m1 Hn0. apply lift_Some in Hn0. destruct Hn0 as [Hn0 ->].
  binv H tr m2 Htr. apply lift_Some in Htr. destruct Htr as [Htr ->].
  binv H a m3 Ha. apply lift_Some in Ha. destruct Ha as [Ha ->].
  destruct (initialize_loop_inv rho gm (length N - 1)
              (init_inv_start delta N D_wild tr n0 e0 im0 iw0) Ha) as (Hi & Hlen).
  simpl Nat.add in Hi.
  assert (HD : (length N - 1 <= length D_wild)%nat).
  { destruct (Nat.eq_dec (length N - 1) 0) as [->|Hne]; [lia|].
    specialize (Hlen ltac:(lia)). lia. }
  pose proof Hi as Hi'.
  destruct a as [S1 E1 Im1 Iw1 B1 C1 Dm1 P1].
  destruct Hi' as (LS & LE & LIm & LIw & _).
  cbn [ia_S ia_E ia_I_mild ia_I_wild ia_B ia_C ia_D_mild ia_P] in *.
  assert (LN : (1 <= length N)%nat).
  { assert (0 < length N)%nat; [|lia].
    apply nth_error_Some. rewrite Hn0. discriminate. }
  assert (Ltr : length tr = length N).
  { apply transmission_rate_length in Htr. lia. }
  binv H r m4 Hr. apply lift_Some in Hr. destruct Hr as [Hr ->].
  binv H im m5 Him. apply lift_Some in Him. destruct Him as [Him ->].
  binv H iw m6 Hiw. apply lift_Some in Hiw. destruct Hiw as [Hiw ->].
  binv H nl m7 Hnl. apply lift_Some in Hnl. destruct Hnl as [Hnl ->].
  binv H s m8 Hs. apply lift_Some in Hs. destruct Hs as [Hs ->].
  binv H b m9 Hb. apply np_random_binomial_Some in Hb.
  destruct Hb as (Hs0 & Hp01 & Hb & ->).
  binv H e m10 He. apply lift_Some in He. destruct He as [He ->].
  apply ret_Some in H. inversion H; subst; clear H.
  apply (py_get_last _ 0%R) in Hr. destruct Hr as [_ ->].
  apply (py_get_last _ 0%Z) in Him. destruct Him as [_ ->].
  apply (py_get_last _ 0%Z) in Hiw. destruct Hiw as [_ ->].
  apply (py_get_last _ 0%Z) in Hnl. destruct Hnl as [_ ->].
  apply (py_get_last _ 0%Z) in Hs. destruct Hs as [_ ->].
  apply (py_get_last _ 0%Z) in He. destruct He as [_ ->].
  rewrite Ltr, LIm, LIw, LS, LE in *.
  replace (S (length N - 1) - 1)%nat with (length N - 1)%nat in * by lia.
  exists beta, q, delta, rho, gm, gw, k, e0, im0, iw0, n0.
  eexists (mkInitAcc S1 E1 Im1 Iw1 B1 C1 Dm1 P1), b, _.
  cbn [ia_S ia_E ia_I_mild ia_I_wild ia_B ia_C ia_D_mild ia_P].
  repeat (split; [first [reflexivity | assumption]|]).
  reflexivity.
Qed.

Lemma flows_ext (x y : list Z) (x0 : Z) (f g f' g' : nat -> Z) (t : nat) :
  flows x x0 f g t -> flows y x0 f' g' t ->
  (forall j, (j < t)%nat -> (f j - g j = f' j - g' j)%Z) ->
  length x = S t -> length y = S t -> x = y.
Proof.
  intros [X0 Xf] [Y0 Yf] Hfg Lx Ly.
  apply nth_ext with (d := 0%Z) (d' := 0%Z); [congruence|].
  intros j Hj. rewrite Lx in Hj.
  induction j as [|j IH]; [congruence|].
  rewrite Xf, Yf by lia. rewrite IH by lia.
  specialize (Hfg j ltac:(lia)). lia.
Qed.

Lemma compute_I_unique (x0 : Z) (inflow outflow x : list Z) (f g : nat -> Z) :
  length inflow = length outflow -> inflow <> [] ->
  length x = length inflow ->
  flows x x0 f g (length inflow - 1) ->
  (forall j, (j < length inflow - 1)%nat ->
     (f j - g j = nth j inflow 0 - nth j outflow 0)%Z) ->
  compute_I x0 inflow outflow = Some x.
Proof.
  intros Hl Hne Lx Hx Hfg.
  destruct (@flow_recurrence x0 inflow outflow Hl Hne) as (I & -> & LI & I0 & If).
  f_equal. symmetry.
  assert (1 <= length inflow)%nat by (destruct inflow; [congruence|simpl; lia]).
  apply flows_ext with (x0 := x0) (f := f) (g := g)
                       (f' := fun j => nth j inflow 0%Z)
                       (g' := fun j => nth j outflow 0%Z)
                       (t := (length inflow - 1)%nat);
    try lia; try assumption.
  split; [exact I0|]. intros j Hj. apply If. lia.
Qed.

Lemma compute_S_unique (e0 i_mild0 i_wild0 : Z) (B N x : list Z) (g : nat -> Z) :
  length B = length N -> N <> [] -> length x = length N ->
  flows x (nth 0 N 0%Z) (fun j => nth (S j) N 0 - nth j N 0)%Z g (length N - 1) ->
  (forall j, (j < length N - 1)%nat -> g j = nth j B 0%Z) ->
  compute_S e0 i_mild0 i_wild0 B N = Some x.
Proof.
  intros Hl Hne Lx Hx Hg.
  destruct (@compute_S_spec e0 i_mild0 i_wild0 B N Hl Hne) as (S_ & -> & LS & Hn).
  f_equal. symmetry.
  assert (1 <= length N)%nat by (destruct N; [congruence|simpl; lia]).
  apply flows_ext with (x0 := nth 0 N 0%Z)
                       (f := fun j => (nth (S j) N 0 - nth j N 0)%Z) (g := g)
                       (f' := fun j => (nth (S j) N 0 - nth j N 0)%Z)
                       (g' := fun j => nth j B 0%Z)
                       (t := (length N - 1)%nat);
    try lia; try assumption.
  - split.
    + rewrite Hn by lia. unfold sumZ; simpl. lia.
    + intros j Hj. rewrite !Hn by lia. rewrite sumZ_firstn_S by lia. lia.
  - intros j Hj. rewrite Hg by assumption. reflexivity.
Qed.

Lemma nth_round_scale (delta : R) (C : list Z) (j : nat) :
  (j < length C)%nat ->
  nth j (round_ints (scale delta C)) 0%Z = round_int (IZR (nth j C 0%Z) * delta).
Proof.
  intros Hj. unfold round_ints, scale.
  rewrite (nth_map_in round_int _ 0%R) by (rewrite length_map; assumption).
  rewrite (nth_map_in _ _ 0%Z) by assumption. reflexivity.
Qed.

Lemma Forall_snoc {A} (Q : A -> Prop) (l : list A) (v : A) :
  Forall Q l -> Q v -> Forall Q (l ++ [v]).
Proof. intros Hl Hv. apply Forall_app. split; [exact Hl|]. constructor; auto. Qed.

(** What [initialize] returns, in the terms of [check_rep_inv]. *)
Lemma initialize_facts (inits : Z * Z * Z) (params : list R) (N D_wild : list Z)
      (t_ctrl : Z) o n S_ E Im Iw B C Dm P t_rate N' n' :
  length D_wild = length N ->
  initialize inits params N D_wild t_ctrl o n
    = Some ((S_, E, Im, Iw, B, C, Dm, P, t_rate, N'), n') ->
  N' = N /\ n' = S n /\ (1 <= length N)%nat
  /\ length S_ = length N /\ length E = length N /\ length Im = length N
  /\ length Iw = length N /\ length B = length N /\ length C = length N
  /\ length Dm = length N /\ length P = length N /\ length t_rate = length N
  /\ exists beta q delta rho gm gw k e0 im0 iw0,
      params = [beta; q; delta; rho; gm; gw; k] /\ inits = (e0, im0, iw0)
      /\ transmission_rate beta q t_ctrl (Z.of_nat (length N)) = Some t_rate
      /\ compute_S e0 im0 iw0 B N = Some S_
      /\ compute_E e0 B C = Some E
      /\ compute_I im0 (round_ints (scale delta C)) Dm = Some Im
      /\ opt_bind (np_zip Z.sub C (round_ints (scale delta C)))
           (fun wild => compute_I iw0 wild D_wild) = Some Iw
      /\ compute_P t_rate Im Iw N = Some P
      /\ Forall (fun p => (0 <= p <= 1)%R) P
      /\ (forall j, (1 <= j < length N)%nat -> (0 <= nth j Iw 0)%Z).
Proof.
  intros LD H. apply initialize_spec in H.
  destruct H as (beta & q & delta & rho & gm & gw & k & e0 & im0 & iw0 & n0 & a
                 & b & p & Hp & Hin & Hn0 & Htr & Hloop & Hi & _ & -> & -> & ->
                 & -> & -> & -> & -> & -> & Ep & Hp01 & Hb & -> & ->).
  destruct a as [S1 E1 Im1 Iw1 B1 C1 Dm1 P1].
  destruct Hi as (LS & LE & LIm & LIw & LB & LC & LDm & LP & FS & FE & FIm & FIw
                  & HP & HIw).
  cbn [ia_S ia_E ia_I_mild ia_I_wild ia_B ia_C ia_D_mild ia_P] in *.
  assert (LN : (1 <= length N)%nat).
  { assert (0 < length N)%nat; [|lia].
    apply nth_error_Some. rewrite Hn0. discriminate. }
  assert (Ltr : length t_rate = length N).
  { apply transmission_rate_length in Htr. lia. }
  assert (NE : N <> []) by (intros ->; simpl in LN; lia).
  rewrite !length_app. cbn [length].
  split; [reflexivity|]. split; [reflexivity|]. split; [exact LN|].
  repeat (split; [lia|]).
  exists beta, q, delta, rho, gm, gw, k, e0, im0, iw0.
  split; [exact Hp|]. split; [exact Hin|]. split; [exact Htr|].
  set (c := round_int (IZR (nth (length N - 1) E1 0%Z) * (1 - exp (- rho)))) in *.
  set (d := py_int (IZR (nth (length N - 1) Im1 0%Z) * (1 - exp (- gm)))) in *.
  assert (LC' : length (C1 ++ [c]) = length N) by (rewrite length_app; simpl; lia).
  assert (LR : length (round_ints (scale delta (C1 ++ [c]))) = length N)
    by (rewrite round_scale_length; exact LC').
  split; [|split; [|split; [|split; [|split; [|split]]]]].
  - apply compute_S_unique with (g := fun j => nth j B1 0%Z).
    + rewrite length_app. simpl. lia.
    + exact NE.
    + lia.
    + apply nth_error_nth with (d := 0%Z) in Hn0. rewrite Hn0. exact FS.
    + intros j Hj. rewrite nth_snoc_lt by lia. reflexivity.
  - change (compute_E e0 (B1 ++ [b]) (C1 ++ [c]))
      with (compute_I e0 (B1 ++ [b]) (C1 ++ [c])).
    apply compute_I_unique with (f := fun j => nth j B1 0%Z)
                                (g := fun j => nth j C1 0%Z).
    + rewrite !length_app. simpl. lia.
    + destruct B1; discriminate.
    + rewrite length_app. simpl. lia.
    + rewrite length_app. simpl.
      replace (length B1 + 1 - 1)%nat with (length N - 1)%nat by lia. exact FE.
    + rewrite length_app. simpl. intros j Hj. rewrite !nth_snoc_lt by lia.
      reflexivity.
  - apply compute_I_unique
      with (f := fun j => round_int (IZR (nth j C1 0%Z) * delta))
           (g := fun j => nth j Dm1 0%Z).
    + rewrite LR, length_app. simpl. lia.
    + intros HR. rewrite HR in LR. simpl in LR. lia.
    + rewrite LR. lia.
    + rewrite LR. exact FIm.
    + rewrite LR. intros j Hj. rewrite nth_round_scale by lia.
      rewrite !nth_snoc_lt by lia. reflexivity.
  - rewrite np_zip_same by (rewrite LR; exact LC'). cbn [opt_bind].
    assert (LW : length (zipw Z.sub (C1 ++ [c]) (round_ints (scale delta (C1 ++ [c]))))
                 = length N)
      by (rewrite zipw_length; rewrite ?LR; assumption).
    apply compute_I_unique
      with (f := fun j => (nth j C1 0
                           - round_int (IZR (nth j C1 0%Z) * delta))%Z)
           (g := fun j => nth j D_wild 0%Z).
    + rewrite LW. lia.
    + intros HR. rewrite HR in LW. simpl in LW. lia.
    + rewrite LW. lia.
    + rewrite LW. exact FIw.
    + rewrite LW. intros j Hj.
      rewrite (nth_zipw Z.sub _ _ 0%Z 0%Z) by (rewrite ?LR; lia).
      rewrite nth_round_scale by lia.
      rewrite !nth_snoc_lt by lia. reflexivity.
  - destruct (@compute_P_spec t_rate Im1 Iw1 N ltac:(lia) ltac:(lia) ltac:(lia))
      as (Q & -> & LQ & HQ).
    f_equal. apply nth_ext with (d := 0%R) (d' := 0%R).
    + rewrite length_app. simpl. lia.
    + intros j Hj. rewrite LQ, Ltr in Hj. rewrite HQ by lia.
      destruct (Nat.eq_dec j (length N - 1)) as [->|Hne].
      * rewrite nth_snoc_eq by lia. symmetry. exact Ep.
      * rewrite nth_snoc_lt by lia. symmetry. apply HP. lia.
  - apply Forall_snoc; [|exact Hp01].
    apply Forall_nth_lt with (d := 0%R). intros j Hj. apply HP. lia.
  - intros j Hj. destruct j as [|j]; [lia|]. apply HIw. lia.
Qed.

(** X20.  Whenever [initialize] returns (for [D_wild] as long as [N]), it
    returns [N] unchanged, the rates of [transmission_rate], and eight
    series as long as [N] that satisfy the five equations of
    [check_rep_inv]: [S], [E], [I_mild], [I_wild] and [P] are what
    [compute_S], [compute_E], [compute_I] and [compute_P] give from the
    returned [B], [C], [D_mild]; every probability lies in [0, 1] and
    [I_wild] is non-negative after day 0. *)
Theorem initialize_satisfies_recursions (inits : Z * Z * Z) (params : list R)
    (N D_wild : list Z) (t_ctrl : Z) (o : Oracle) (n : nat)
    (S_ E I_mild I_wild B C D_mild : list Z) (P t_rate : list R) (N' : list Z)
    (n' : nat) :
  length D_wild = length N ->
  initialize inits params N D_wild t_ctrl o n
    = Some ((S_, E, I_mild, I_wild, B, C, D_mild, P, t_rate, N'), n') ->
  N' = N
  /\ Forall (fun l => length l = length N) [S_; E; I_mild; I_wild; B; C; D_mild]
  /\ length P = length N
  /\ exists beta q delta rho gamma_mild gamma_wild k e0 i_mild0 i_wild0,
      params = [beta; q; delta; rho; gamma_mild; gamma_wild; k]
      /\ inits = (e0, i_mild0, i_wild0)
      /\ transmission_rate beta q t_ctrl (Z.of_nat (length N)) = Some t_rate
      /\ compute_S e0 i_mild0 i_wild0 B N = Some S_
      /\ compute_E e0 B C = Some E
      /\ compute_I i_mild0 (round_ints (scale delta C)) D_mild = Some I_mild
      /\ opt_bind (np_zip Z.sub C (round_ints (scale delta C)))
           (fun wild => compute_I i_wild0 wild D_wild) = Some I_wild
      /\ compute_P t_rate I_mild I_wild N = Some P
      /\ Forall (fun p => (0 <= p <= 1)%R) P
      /\ (forall j, (1 <= j < length N)%nat -> (0 <= nth j I_wild 0)%Z).
Proof.
  intros LD H. apply initialize_facts in H; [|exact LD].
  destruct H as (HN & _ & _ & LS & LE & LIm & LIw & LB & LC & LDm & LP & _ & Hex).
  split; [exact HN|]. split; [repeat constructor; assumption|].
  split; [exact LP|]. exact Hex.
Qed.

(** ** Initialisation: when it returns, and the first [check_rep_inv] *)

Lemma transmission_rate_nonneg (beta q : R) (t_ctrl t_end : Z) (l : list R) :
  (0 <= beta)%R -> (0 <= t_ctrl)%Z -> (0 <= t_end)%Z ->
  transmission_rate beta q t_ctrl t_end = Some l ->
  forall j, (0 <= nth j l 0)%R.
Proof.
  intros Hb Hc He H j.
  destruct (@transmission_rate_spec beta q t_ctrl t_end Hc He) as (l' & E & L & Hn).
  rewrite E in H. inversion H; subst l'; clear H.
  destruct (Nat.lt_ge_cases j (length l)) as [Hj|Hj].
  - specialize (Hn (Z.of_nat j) ltac:(lia)). rewrite Nat2Z.id in Hn. rewrite Hn.
    destruct (Z.of_nat j <? t_ctrl)%Z; [assumption|].
    apply Rmult_le_pos; [assumption|]. left. apply exp_pos.
  - rewrite nth_overflow by assumption. lra.
Qed.

Section InitializeReturns.
Variables (delta rho gamma_mild : R) (N D_wild : list Z) (t_rate : list R).
Variables (n0 e0 i_mild0 i_wild0 : Z).
Hypothesis Hdelta : (0 <= delta <= 1)%R.
Hypothesis Hrho : (0 <= rho)%R.
Hypothesis Hgamma : (0 <= gamma_mild)%R.
Hypothesis HN : non_decreasing N.
Hypothesis HNpos : Forall (fun v => (1 <= v)%Z) N.
Hypothesis Hrate : forall j, (0 <= nth j t_rate 0)%R.
Hypothesis Lrate : length t_rate = length N.
Hypothesis LD : length D_wild = length N.
Hypothesis HD : Forall (fun v => v = 0%Z) D_wild.

Lemma initialize_step_returns (t : nat) (a : InitAcc) :
    init_inv delta N D_wild t_rate n0 e0 i_mild0 i_wild0 t a ->
    init_nonneg a -> (S t < length N)%nat ->
    exists a', initialize_step delta rho gamma_mild N D_wild t_rate t a = Some a'.
  Proof.
    destruct a as [S_ E Im Iw B C Dm P].
    intros (LS & LE & LIm & LIw & _) (NS & NE & NIm & NIw & NB & NC & NDm) Ht.
    cbn [ia_S ia_E ia_I_mild ia_I_wild ia_B ia_C ia_D_mild ia_P] in *.
    unfold initialize_step.
    rewrite (nth_error_nth' S_ 0%Z) by lia.
    rewrite (nth_error_nth' E 0%Z) by lia.
    rewrite (nth_error_nth' Im 0%Z) by lia.
    rewrite (nth_error_nth' Iw 0%Z) by lia.
    rewrite (nth_error_nth' t_rate 0%R) by lia.
    rewrite (nth_error_nth' N 0%Z) by lia.
    cbn [opt_bind].
    assert (Hn : (1 <= nth t N 0)%Z).
    { rewrite Forall_forall in HNpos. apply HNpos, nth_In. lia. }
    pose proof (nonneg_nth t NIm) as Him. pose proof (nonneg_nth t NIw) as Hiw.
    pose proof (nonneg_nth t NE) as He.
    assert (Hp : (0 <= 1 - exp (- nth t t_rate 0
                                 * IZR (nth t Im 0%Z + nth t Iw 0%Z)
                                 / IZR (nth t N 0%Z)) <= 1)%R)
      by (apply prob_of_rate; [apply Hrate|lia|lia]).
    replace (Rleb 0 _ && Rleb _ 1) with true.
    2:{ symmetry. apply andb_true_intro. split; apply Rleb_true; apply Hp. }
    cbn [negb].
    rewrite (nth_error_nth' D_wild 0%Z) by lia.
    rewrite (nth_error_nth' N 0%Z) by lia.
    cbn [opt_bind].
    assert (Hd : nth t D_wild 0%Z = 0%Z).
    { rewrite Forall_forall in HD. apply HD, nth_In. lia. }
    rewrite Hd.
    pose proof (round_int_share He (prob_of_hazard Hrho)) as Hc.
    pose proof (round_int_share (proj1 Hc) Hdelta) as Hcm.
    replace (0 <=? _)%Z with true; [cbn [negb]; eauto|].
    symmetry. apply Z.leb_le. lia.
  Qed.

Lemma initialize_loop_returns (todo : nat) :
    forall t a,
      init_inv delta N D_wild t_rate n0 e0 i_mild0 i_wild0 t a ->
      init_nonneg a -> (t + todo < length N)%nat ->
      exists a',
        initialize_loop delta rho gamma_mild N D_wild t_rate todo t a = Some a'.
  Proof.
    induction todo as [|todo IH]; intros t a Hi Hn Ht; simpl.
    - eauto.
    - destruct (initialize_step_returns Hi Hn ltac:(lia)) as (a1 & E1).
      rewrite E1. cbn [opt_bind].
      destruct (initialize_step_inv rho gamma_mild Hi E1) as (Hi1 & _).
      pose proof (initialize_step_nonneg D_wild t_rate Hdelta Hrho Hgamma HN t Hn E1) as Hn1.
      apply IH; [exact Hi1|exact Hn1|lia].
  Qed.
End InitializeReturns.

Lemma py_int_nonneg (x : R) : (0 <= x)%R -> (0 <= py_int x)%Z.
Proof.
  intros Hx. unfold py_int.
  replace (Rleb 0 x) with true by (symmetry; apply Rleb_true; assumption).
  apply Zfloor_lub. simpl. exact Hx.
Qed.

Lemma init_nonneg_start (n0 e0 i_mild0 i_wild0 : Z) :
  (0 <= n0)%Z -> (0 <= e0)%Z -> (0 <= i_mild0)%Z -> (0 <= i_wild0)%Z ->
  init_nonneg (mkInitAcc [n0] [e0] [i_mild0] [i_wild0] [] [] [] []).
Proof.
  intros. unfold init_nonneg, nonneg. simpl. repeat split; repeat constructor; assumption.
Qed.

(** The state [train] builds from what [initialize] returns passes the
    first [check_rep_inv]. *)
Lemma initialize_sound (inits : Z * Z * Z) (params : list R) (N D_wild : list Z)
      (t_ctrl : Z) (beta q delta rho gm gw k : R) (e0 im0 iw0 : Z)
      o n S_ E Im Iw B C Dm P t_rate N' n' :
  params = [beta; q; delta; rho; gm; gw; k] -> inits = (e0, im0, iw0) ->
  (0 <= delta <= 1)%R -> (0 <= rho)%R -> (0 <= gm)%R ->
  (0 <= e0)%Z -> (0 <= im0)%Z -> (0 <= iw0)%Z ->
  (0 <= nth 0 N 0)%Z -> non_decreasing N ->
  length D_wild = length N -> nonneg D_wild ->
  initialize inits params N D_wild t_ctrl o n
    = Some ((S_, E, Im, Iw, B, C, Dm, P, t_rate, N'), n') ->
  let st0 := mkState S_ E Im Iw B C Dm P N' params in
  wf_state (length N) D_wild st0
  /\ inv_holds D_wild inits t_ctrl (Z.of_nat (length N)) st0
  /\ rep_inv D_wild inits t_ctrl (Z.of_nat (length N)) st0 = true
  /\ N' = N /\ n' = S n.
Proof.
  intros Hp Hin Hdelta Hrho Hgm He0 Him0 Hiw0 Hn0 HN LD ND H st0.
  pose proof H as H'. apply initialize_facts in H'; [|exact LD].
  destruct H'
    as (EN & En' & LN & LS & LE & LIm & LIw & LB & LC & LDm & LP & Ltr & Hex).
  destruct Hex as (beta' & q' & delta' & rho' & gm' & gw' & k' & e0' & im0' & iw0'
                   & Hp' & Hin' & Htr & HS & HE & HIm & HIw & HP & HP01 & _).
  rewrite Hp in Hp'. inversion Hp'; subst beta' q' delta' rho' gm' gw' k'; clear Hp'.
  rewrite Hin in Hin'. inversion Hin'; subst e0' im0' iw0'; clear Hin'.
  apply initialize_spec in H.
  destruct H as (beta' & q' & delta' & rho' & gm' & gw' & k' & e0' & im0' & iw0'
                 & n0 & a & b & p & Hp' & Hin' & Hn0' & _ & Hloop & Hi & _ & ES
                 & EE & EIm & EIw & EB & EC & EDm & EP & _ & _ & Hb & _ & _).
  rewrite Hp in Hp'. inversion Hp'; subst beta' q' delta' rho' gm' gw' k'; clear Hp'.
  rewrite Hin in Hin'. inversion Hin'; subst e0' im0' iw0'; clear Hin'.
  apply nth_error_nth with (d := 0%Z) in Hn0'.
  assert (Hn0'' : (0 <= n0)%Z) by (rewrite <- Hn0'; exact Hn0).
  pose proof (initialize_loop_nonneg D_wild t_rate Hdelta Hrho Hgm HN
                (length N - 1) 0
                (@init_nonneg_start n0 e0 im0 iw0 Hn0'' He0 Him0 Hiw0)
                Hloop) as (NS & NE & NIm & NIw & NB & NC & NDm).
  rewrite <- ES, <- EE, <- EIm, <- EIw in *.
  assert (NB' : nonneg B) by (rewrite EB; apply nonneg_snoc; [assumption|lia]).
  assert (NC' : nonneg C).
  { rewrite EC. apply nonneg_snoc; [assumption|].
    apply round_int_share; [apply nonneg_nth; assumption|].
    apply prob_of_hazard; assumption. }
  assert (NDm' : nonneg Dm).
  { rewrite EDm. apply nonneg_snoc; [assumption|].
    apply py_int_nonneg. apply Rmult_le_pos.
    - apply IZR_le. apply nonneg_nth; assumption.
    - apply prob_of_hazard; assumption. }
  assert (Hwf : wf_state (length N) D_wild st0).
  { unfold wf_state, st0. simpl. subst N'. repeat split; assumption. }
  assert (Hinv : inv_holds D_wild inits t_ctrl (Z.of_nat (length N)) st0).
  { unfold inv_holds, st0. rewrite Hin. simpl.
    exists beta, q, delta, rho, gm, gw, k. subst N'.
    rewrite Htr. cbn [opt_bind].
    repeat (split; [assumption|]). assumption. }
  split; [exact Hwf|]. split; [exact Hinv|]. split; [|split; assumption].
  apply (@rep_inv_iff D_wild inits t_ctrl (Z.of_nat (length N)) (length N) st0
           Hwf LN eq_refl). exact Hinv.
Qed.

(** [initialize] returns when nobody is removed from the wild cases. *)
Lemma initialize_returns (inits : Z * Z * Z) (params : list R) (N D_wild : list Z)
      (t_ctrl : Z) (beta q delta rho gm gw k : R) (e0 im0 iw0 : Z) o n :
  params = [beta; q; delta; rho; gm; gw; k] -> inits = (e0, im0, iw0) ->
  (0 <= beta)%R -> (0 <= delta <= 1)%R -> (0 <= rho)%R -> (0 <= gm)%R ->
  (0 <= e0)%Z -> (0 <= im0)%Z -> (0 <= iw0)%Z ->
  (0 <= t_ctrl)%Z ->
  N <> [] -> Forall (fun v => (1 <= v)%Z) N -> non_decreasing N ->
  length D_wild = length N -> Forall (fun v => v = 0%Z) D_wild ->
  exists r, initialize inits params N D_wild t_ctrl o n = Some (r, S n).
Proof.
  intros -> -> Hb Hdelta Hrho Hgm He0 Him0 Hiw0 Hc NE HNpos HN LD HD.
  assert (LN : (1 <= length N)%nat) by (destruct N; [congruence|simpl; lia]).
  unfold initialize. cbn [unpack7].
  unfold bind at 1. cbn [lift].
  rewrite (nth_error_nth' N 0%Z) by lia.
  unfold bind at 1. cbn [lift].
  destruct (@transmission_rate_spec beta q t_ctrl (Z.of_nat (length N)) Hc
              ltac:(lia)) as (tr & Etr & Ltr & _).
  rewrite Etr. unfold bind at 1. cbn [lift].
  assert (Hrate : forall j, (0 <= nth j tr 0)%R).
  { eapply transmission_rate_nonneg; [exact Hb|exact Hc| |exact Etr]. lia. }
  assert (Hn0 : (1 <= nth 0 N 0)%Z).
  { rewrite Forall_forall in HNpos. apply HNpos, nth_In. lia. }
  pose proof (init_inv_start delta N D_wild tr (nth 0 N 0%Z) e0 im0 iw0) as Hi0.
  pose proof (@init_nonneg_start (nth 0 N 0%Z) e0 im0 iw0 ltac:(lia) He0 Him0 Hiw0)
    as Hn0'.
  destruct (@initialize_loop_returns delta rho gm N D_wild tr (nth 0 N 0%Z) e0 im0
              iw0 Hdelta Hrho Hgm HN HNpos Hrate ltac:(lia) LD HD
              (length N - 1) 0 _ Hi0 Hn0' ltac:(lia)) as (a & Ea).
  rewrite Ea. unfold bind at 1. cbn [lift].
  destruct (initialize_loop_inv rho gm (length N - 1) Hi0 Ea) as (Hi & _).
  pose proof (initialize_loop_nonneg D_wild tr Hdelta Hrho Hgm HN
                (length N - 1) 0 Hn0' Ea) as (NS & NE' & NIm & NIw & _).
  destruct a as [S1 E1 Im1 Iw1 B1 C1 Dm1 P1].
  destruct Hi as (LS & LE & LIm & LIw & _).
  cbn [ia_S ia_E ia_I_mild ia_I_wild ia_B ia_C ia_D_mild ia_P] in *.
  simpl Nat.add in *.
  assert (tr <> []) by (intros ->; simpl in Ltr; lia).
  assert (Im1 <> []) by (intros ->; simpl in LIm; lia).
  assert (Iw1 <> []) by (intros ->; simpl in LIw; lia).
  assert (S1 <> []) by (intros ->; simpl in LS; lia).
  assert (E1 <> []) by (intros ->; simpl in LE; lia).
  rewrite (py_get_last_Some 0%R) by assumption. unfold bind at 1. cbn [lift].
  rewrite (py_get_last_Some (l := Im1) 0%Z) by assumption.
  unfold bind at 1. cbn [lift].
  rewrite (py_get_last_Some (l := Iw1) 0%Z) by assumption.
  unfold bind at 1. cbn [lift].
  rewrite (py_get_last_Some (l := N) 0%Z) by assumption.
  unfold bind at 1. cbn [lift].
  rewrite (py_get_last_Some (l := S1) 0%Z) by assumption.
  unfold bind at 1. cbn [lift].
  match goal with
  | |- context [np_random_binomial ?s ?p] =>
      destruct (@np_random_binomial_returns s p o n) as (b & Eb)
  end.
  { apply nonneg_nth; assumption. }
  { apply prob_of_rate.
    - apply Hrate.
    - pose proof (nonneg_nth (length Im1 - 1) NIm).
      pose proof (nonneg_nth (length Iw1 - 1) NIw). lia.
    - assert (1 <= nth (length N - 1) N 0)%Z; [|lia].
      rewrite Forall_forall in HNpos. apply HNpos, nth_In. lia. }
  unfold bind at 1. rewrite Eb.
  rewrite (py_get_last_Some (l := E1) 0%Z) by assumption.
  unfold bind at 1. cbn [lift]. unfold ret. eauto.
Qed.

(** ** Initialisation and the whole of [train] *)

Lemma two_days_run o n :
  exists r, initialize (1, 1, 1)%Z cli_params two_days no_removals 1 o n
            = Some (r, S n).
Proof.
  apply (@initialize_returns (1, 1, 1)%Z cli_params two_days no_removals 1
           1 (1 / 10) (1 / 2) (3 / 10) (2 / 10) (2 / 10) 1 1 1 1 o n);
    try reflexivity; try lra; try lia.
  - discriminate.
  - repeat constructor; lia.
  - intros j Hj. destruct j as [|[|j]]; simpl in *; lia.
  - repeat constructor.
Qed.

Lemma two_days_non_decreasing : non_decreasing two_days.
Proof. intros j Hj. destruct j as [|[|j]]; simpl in *; lia. Qed.

Lemma initialize_satisfies_recursions_witness :
  exists S_ E I_mild I_wild B C D_mild P t_rate N' n',
    initialize (1, 1, 1)%Z cli_params two_days no_removals 1 gen_unit 0
    = Some ((S_, E, I_mild, I_wild, B, C, D_mild, P, t_rate, N'), n')
    /\ N' = two_days
    /\ compute_S 1 1 1 B two_days = Some S_
    /\ compute_E 1 B C = Some E
    /\ compute_P t_rate I_mild I_wild two_days = Some P.
Proof.
  destruct (two_days_run gen_unit 0)
    as ([[[[[[[[[S_ E] Im] Iw] B] C] Dm] P] tr] N'] & H).
  exists S_, E, Im, Iw, B, C, Dm, P, tr, N', 1%nat. split; [exact H|].
  destruct (@initialize_satisfies_recursions (1, 1, 1)%Z cli_params two_days
              no_removals 1%Z gen_unit 0%nat S_ E Im Iw B C Dm P tr N' 1%nat
              eq_refl H)
    as (HN & _ & _ & beta & q & delta & rho & gm & gw & k & e0 & im0 & iw0
        & Hp & Hin & _ & HS & HE & _ & _ & HP & _).
  inversion Hin; subst e0 im0 iw0.
  split; [exact HN|]. split; [exact HS|]. split; [exact HE|exact HP].
Defined.

(** X21.  The first [check_rep_inv] of [train] passes whenever [initialize]
    returns, for [0 <= delta <= 1], [rho >= 0], [gamma_mild >= 0],
    non-negative initial counts and observed removals, and a population
    that starts at one or more and never shrinks: all the series that
    [initialize] builds are then non-negative. *)
Theorem initialize_establishes_rep_inv (inits : Z * Z * Z) (params : list R)
    (N D_wild : list Z) (t_ctrl : Z)
    (beta q delta rho gamma_mild gamma_wild k : R) (e0 i_mild0 i_wild0 : Z)
    (o : Oracle) (n : nat)
    (S_ E I_mild I_wild B C D_mild : list Z) (P t_rate : list R) (N' : list Z)
    (n' : nat) :
  params = [beta; q; delta; rho; gamma_mild; gamma_wild; k] ->
  inits = (e0, i_mild0, i_wild0) ->
  (0 <= delta <= 1)%R -> (0 <= rho)%R -> (0 <= gamma_mild)%R ->
  (0 <= e0)%Z -> (0 <= i_mild0)%Z -> (0 <= i_wild0)%Z ->
  (1 <= nth 0 N 0)%Z -> non_decreasing N ->
  length D_wild = length N -> nonneg D_wild ->
  initialize inits params N D_wild t_ctrl o n
    = Some ((S_, E, I_mild, I_wild, B, C, D_mild, P, t_rate, N'), n') ->
  check_rep_inv S_ E I_mild I_wild B C D_mild D_wild P N' inits params t_ctrl
    (Z.of_nat (length N)) = true
  /\ Forall nonneg [S_; E; I_mild; I_wild; B; C; D_mild].
Proof.
  intros Hp Hin Hdelta Hrho Hgm He0 Him0 Hiw0 Hn1 HN LD ND H.
  assert (Hn0 : (0 <= nth 0 N 0)%Z) by lia.
  destruct (@initialize_sound inits params N D_wild t_ctrl beta q delta rho
              gamma_mild gamma_wild k e0 i_mild0 i_wild0 o n S_ E I_mild I_wild
              B C D_mild P t_rate N' n' Hp Hin Hdelta Hrho Hgm He0 Him0 Hiw0
              Hn0 HN LD ND H) as (Hwf & Hinv & Hrep & _).
  split; [exact Hrep|].
  unfold inv_holds in Hinv. rewrite Hin in Hinv. simpl in Hinv.
  destruct Hinv as (b1 & q1 & d1 & r1 & g1 & g2 & k1 & _ & NIm & NIw & NS & NE
                    & NB & NC & NDm & _).
  repeat constructor; assumption.
Qed.

Lemma initialize_establishes_rep_inv_witness :
  exists S_ E I_mild I_wild B C D_mild P t_rate N' n',
    initialize (1, 1, 1)%Z cli_params two_days no_removals 1 gen_unit 0
    = Some ((S_, E, I_mild, I_wild, B, C, D_mild, P, t_rate, N'), n')
    /\ check_rep_inv S_ E I_mild I_wild B C D_mild no_removals P N' (1, 1, 1)%Z
         cli_params 1 (Z.of_nat (length two_days)) = true.
Proof.
  destruct (two_days_run gen_unit 0)
    as ([[[[[[[[[S_ E] Im] Iw] B] C] Dm] P] tr] N'] & H).
  exists S_, E, Im, Iw, B, C, Dm, P, tr, N', 1%nat. split; [exact H|].
  refine (proj1 (@initialize_establishes_rep_inv (1, 1, 1)%Z cli_params two_days
                   no_removals 1%Z 1 (1 / 10) (1 / 2) (3 / 10) (2 / 10) (2 / 10) 1
                   1 1 1 gen_unit 0%nat S_ E Im Iw B C Dm P tr N' 1%nat
                   eq_refl eq_refl _ _ _ _ _ _ _ two_days_non_decreasing
                   eq_refl _ H)); try lra; try lia.
  - simpl. lia.
  - repeat constructor; lia.
Defined.

(** X22.  The only statements of [initialize] that can fail under a sane
    configuration are [assert i_wild >= 0]: with [beta >= 0],
    [0 <= delta <= 1], [rho >= 0], [gamma_mild >= 0], [t_ctrl >= 0],
    non-negative initial counts, a population of at least one that never
    shrinks, and no observed removals ([D_wild] all zero), [initialize]
    returns for every state of the generator, after exactly one draw. *)
Theorem initialize_returns_without_removals (inits : Z * Z * Z) (params : list R)
    (N D_wild : list Z) (t_ctrl : Z)
    (beta q delta rho gamma_mild gamma_wild k : R) (e0 i_mild0 i_wild0 : Z)
    (o : Oracle) (n : nat) :
  params = [beta; q; delta; rho; gamma_mild; gamma_wild; k] ->
  inits = (e0, i_mild0, i_wild0) ->
  (0 <= beta)%R -> (0 <= delta <= 1)%R -> (0 <= rho)%R -> (0 <= gamma_mild)%R ->
  (0 <= e0)%Z -> (0 <= i_mild0)%Z -> (0 <= i_wild0)%Z ->
  (0 <= t_ctrl)%Z ->
  N <> [] -> Forall (fun v => (1 <= v)%Z) N -> non_decreasing N ->
  length D_wild = length N -> Forall (fun v => v = 0%Z) D_wild ->
  exists r, initialize inits params N D_wild t_ctrl o n = Some (r, S n).
Proof.
  intros Hp Hin Hb Hdelta Hrho Hgm He0 Him0 Hiw0 Hc NE HNpos HN LD HD.
  eapply initialize_returns; eauto.
Qed.

Lemma initialize_returns_without_removals_witness :
  exists r, initialize (1, 1, 1)%Z cli_params two_days no_removals 1 gen_unit 0
            = Some (r, 1%nat).
Proof.
  apply (@initialize_returns_without_removals (1, 1, 1)%Z cli_params two_days
           no_removals 1 1 (1 / 10) (1 / 2) (3 / 10) (2 / 10) (2 / 10) 1 1 1 1
           gen_unit 0%nat);
    try reflexivity; try lra; try lia.
  - discriminate.
  - repeat constructor; lia.
  - exact two_days_non_decreasing.
  - repeat constructor.
Defined.

(** ** The whole of [train] *)

Lemma rep_inv_unpack (D_wild : list Z) (inits : Z * Z * Z) (t_ctrl t_end : Z)
      (st : State) :
  rep_inv D_wild inits t_ctrl t_end st = true ->
  exists u, unpack7 (st_params st) = Some u.
Proof.
  unfold rep_inv, check_rep_inv. destruct inits as [[e0 im0] iw0].
  destruct (unpack7 (st_params st)) as [u|]; [eauto|]. simpl. discriminate.
Qed.

Lemma R0s_total (D_mild D_wild : list Z) (saved : list (list R)) :
  Forall (fun p => exists u, unpack7 p = Some u) saved ->
  exists rs, R0s D_mild D_wild saved = Some rs.
Proof.
  induction 1 as [|p saved (u & Hu) _ (rs & IH)]; simpl; [eauto|].
  apply unpack7_Some in Hu.
  destruct Hu as (beta & q & delta & rho & gm & gw & k & -> & _).
  unfold R0_of. cbn [nth_error opt_bind]. rewrite IH. cbn [opt_bind]. eauto.
Qed.

Lemma saved_entries_In {A} (n_burn_in save_freq : nat) (trace : list A) (x : A) :
  forall i, In x (saved_entries n_burn_in save_freq i trace) -> In x trace.
Proof.
  induction trace as [|y rest IH]; intros i H; simpl in H; [contradiction|].
  destruct (saved_at n_burn_in save_freq i).
  - destruct H as [<-|H]; [left; reflexivity|right; eapply IH; eauto].
  - right. eapply IH; eauto.
Qed.

Section TrainReturns.
Variable binom_pmf : Z -> R -> Z -> R.
Variable gamma_pdf : R -> R -> R -> R.
Variables (N D_wild : list Z) (inits : Z * Z * Z) (params : list R).
Variables (priors : list (R * R)) (rand_walk_stds : list R).
Variables (t_ctrl tau n_iter n_burn_in : Z) (bounds : list (R * R)).
Variable save_freq : Z.
Variables (beta q delta rho gamma_mild gamma_wild k : R).
Variables (e0 i_mild0 i_wild0 : Z).
Hypothesis Hparams : params = [beta; q; delta; rho; gamma_mild; gamma_wild; k].
Hypothesis Hinits : inits = (e0, i_mild0, i_wild0).
Hypothesis Hbeta : (0 <= beta)%R.
Hypothesis Hdelta : (0 <= delta <= 1)%R.
Hypothesis Hrho : (0 <= rho)%R.
Hypothesis Hgm : (0 <= gamma_mild)%R.
Hypothesis Hgw : (0 <= gamma_wild)%R.
Hypothesis He0 : (0 <= e0)%Z.
Hypothesis Him0 : (0 <= i_mild0)%Z.
Hypothesis Hiw0 : (0 <= i_wild0)%Z.
Hypothesis HNpos : Forall (fun v => (1 <= v)%Z) N.
Hypothesis HN : non_decreasing N.
Hypothesis LD : length N = length D_wild.
Hypothesis ND : nonneg D_wild.
Hypothesis Hcfg : config_ok priors rand_walk_stds t_ctrl bounds.
Hypothesis Htau : (Z.of_nat (length N) < tau)%Z.
Hypothesis Hctrl : (t_ctrl < tau)%Z.
Hypothesis Hburn : (n_burn_in < n_iter)%Z.
Hypothesis Hsave : save_freq <> 0%Z.

Lemma train_after_initialize o n r0 n0 :
    initialize inits params N D_wild t_ctrl o n = Some (r0, n0) ->
    exists r, train binom_pmf gamma_pdf N D_wild inits params priors
                rand_walk_stds t_ctrl tau n_iter n_burn_in bounds save_freq o n
              = Some r.
  Proof.
    intros Hinit.
    destruct r0 as [[[[[[[[[S_ E] Im] Iw] B] C] Dm] P] tr] N'].
    assert (Hn0 : (0 <= nth 0 N 0)%Z).
    { destruct N as [|x N1]; [simpl; lia|]. inversion HNpos; subst. simpl. lia. }
    destruct (@initialize_sound inits params N D_wild t_ctrl beta q delta rho
                gamma_mild gamma_wild k e0 i_mild0 i_wild0 o n S_ E Im Iw B C Dm
                P tr N' n0 Hparams Hinits Hdelta Hrho Hgm
                He0 Him0 Hiw0 Hn0 HN (eq_sym LD) ND Hinit)
      as (Hwf & Hinv & Hrep & -> & ->).
    assert (LN : (1 <= length N)%nat).
    { destruct Hwf as (LS & _). apply initialize_facts in Hinit; [|congruence].
      tauto. }
    unfold train.
    replace (Z.of_nat (length N) <? tau)%Z with true
      by (symmetry; apply Z.ltb_lt; assumption).
    replace (t_ctrl <? tau)%Z with true by (symmetry; apply Z.ltb_lt; assumption).
    replace (Nat.eqb (length N) (length D_wild)) with true
      by (symmetry; apply Nat.eqb_eq; assumption).
    replace (n_burn_in <? n_iter)%Z with true
      by (symmetry; apply Z.ltb_lt; assumption).
    cbn [assert_]. unfold bind at 1, ret at 1. unfold bind at 1, ret at 1.
    unfold bind at 1, ret at 1. unfold bind at 1, ret at 1.
    assert (Hu : unpack7 params
                 = Some (beta, q, delta, rho, gamma_mild, gamma_wild, k))
      by (rewrite Hparams; reflexivity).
    unfold bind at 1. rewrite Hu. cbn [lift].
    unfold bind at 1. rewrite Hinit.
    set (st0 := mkState S_ E Im Iw B C Dm P N params) in *.
    rewrite Hrep. cbn [assert_]. unfold bind at 1, ret at 1.
    assert (Hs : sound (length N) D_wild inits t_ctrl (Z.of_nat (length N)) st0).
    { split; [exact Hwf|]. split; [exact Hrep|]. split.
      - unfold rates_nonneg, st0. simpl. rewrite Hparams. simpl. auto.
      - unfold N_pos, st0. simpl. exact HNpos. }
    destruct (@train_loop_keeps_inv binom_pmf gamma_pdf D_wild inits priors
                rand_walk_stds t_ctrl bounds (Z.of_nat (length N)) (length N)
                LN eq_refl Hcfg (Z.to_nat n_burn_in) (Z.abs_nat save_freq)
                ltac:(lia) (Z.to_nat n_iter) 0%nat st0 [] [] o (S n) Hs)
      as ([[[st' sp'] sr'] n'] & Hloop & _).
    unfold train_run. change (st_N st0) with N.
    unfold bind at 1. rewrite Hloop.
    pose proof Hloop as Hsaved. apply train_loop_saved in Hsaved.
    destruct Hsaved as (trace & _ & _ & -> & _ & Hall).
    match goal with
    | |- context [R0_interval ?d ?w ?sp] =>
        destruct (@R0s_total d w sp) as (rs & Ers)
    end.
    { simpl. apply Forall_forall. intros p Hin.
      apply in_map_iff in Hin. destruct Hin as ([s r] & <- & Hin).
      apply saved_entries_In in Hin.
      rewrite Forall_forall in Hall. specialize (Hall _ Hin).
      eapply rep_inv_unpack; eauto. }
    unfold bind at 1, R0_interval. rewrite Ers. cbn [opt_bind lift].
    unfold ret. eauto.
  Qed.

Lemma initialize_before_train o n r :
    train binom_pmf gamma_pdf N D_wild inits params priors rand_walk_stds t_ctrl
      tau n_iter n_burn_in bounds save_freq o n = Some r ->
    exists r0, initialize inits params N D_wild t_ctrl o n = Some r0.
  Proof.
    unfold train. intros H.
    binv H u1 m1 H1. apply assert_Some in H1. destruct H1 as [_ ->].
    binv H u2 m2 H2. apply assert_Some in H2. destruct H2 as [_ ->].
    binv H u3 m3 H3. apply assert_Some in H3. destruct H3 as [_ ->].
    binv H u4 m4 H4. apply assert_Some in H4. destruct H4 as [_ ->].
    binv H u5 m5 H5. apply lift_Some in H5. destruct H5 as [_ ->].
    binv H r0 m6 H6. eauto.
  Qed.
End TrainReturns.

(** X23.  Under a sane configuration [train] raises exactly when
    [initialize] does.  With seven parameters of which [beta], [rho],
    [gamma_mild], [gamma_wild] are not negative and [0 <= delta <= 1],
    non-negative initial counts and observed removals, a population of at
    least one that never shrinks, [len(N) = len(D_wild) < tau],
    [0 <= t_ctrl < tau], [n_burn_in < n_iter], a non-zero [save_freq], seven
    non-negative random-walk deviations, at most seven priors, each of
    positive shape, and at most seven bounds: if [initialize] returns then
    the first [check_rep_inv], every iteration of the loop with its four
    [check_rep_inv] and its [nan] assertions, and the final statistics all
    go through. *)
Theorem train_returns_iff_initialize_does
    (binom_pmf : Z -> R -> Z -> R) (gamma_pdf : R -> R -> R -> R)
    (N D_wild : list Z) (inits : Z * Z * Z) (params : list R)
    (priors : list (R * R)) (rand_walk_stds : list R)
    (t_ctrl tau n_iter n_burn_in : Z) (bounds : list (R * R)) (save_freq : Z)
    (beta q delta rho gamma_mild gamma_wild k : R) (e0 i_mild0 i_wild0 : Z)
    (o : Oracle) (n : nat) :
  params = [beta; q; delta; rho; gamma_mild; gamma_wild; k] ->
  inits = (e0, i_mild0, i_wild0) ->
  (0 <= beta)%R -> (0 <= delta <= 1)%R -> (0 <= rho)%R ->
  (0 <= gamma_mild)%R -> (0 <= gamma_wild)%R ->
  (0 <= e0)%Z -> (0 <= i_mild0)%Z -> (0 <= i_wild0)%Z ->
  Forall (fun v => (1 <= v)%Z) N -> non_decreasing N ->
  length N = length D_wild -> nonneg D_wild ->
  config_ok priors rand_walk_stds t_ctrl bounds ->
  (Z.of_nat (length N) < tau)%Z -> (t_ctrl < tau)%Z ->
  (n_burn_in < n_iter)%Z -> save_freq <> 0%Z ->
  ((exists r, train binom_pmf gamma_pdf N D_wild inits params priors
                rand_walk_stds t_ctrl tau n_iter n_burn_in bounds save_freq o n
              = Some r)
   <-> (exists r0, initialize inits params N D_wild t_ctrl o n = Some r0)).
Proof.
  intros Hp Hin Hb Hd Hr Hgm Hgw He0 Him0 Hiw0 HNpos HN LD ND Hcfg Htau Hctrl
         Hburn Hsave.
  split.
  - intros [r H]. eapply initialize_before_train; eauto.
  - intros [[r0 n0] H].
    eapply train_after_initialize; eauto.
Qed.

Lemma train_returns_iff_initialize_does_witness :
  exists r, train binom_pmf_math (fun _ _ _ => 1%R) two_days no_removals
              (1, 1, 1)%Z cli_params cli_priors cli_stds 1 1000 3 1 cli_bounds 1
              gen_unit 0 = Some r.
Proof.
  destruct (two_days_run gen_unit 0) as (r0 & H).
  refine (proj2 (@train_returns_iff_initialize_does binom_pmf_math
                   (fun _ _ _ => 1%R) two_days no_removals (1, 1, 1)%Z cli_params
                   cli_priors cli_stds 1%Z 1000%Z 3%Z 1%Z cli_bounds 1%Z
                   1 (1 / 10) (1 / 2) (3 / 10) (2 / 10) (2 / 10) 1 1 1 1
                   gen_unit 0%nat eq_refl eq_refl _ _ _ _ _ _ _ _ _
                   two_days_non_decreasing eq_refl _ cli_config_ok _ _ _ _)
            (ex_intro _ _ H)); try lra; try lia.
  - repeat constructor; lia.
  - repeat constructor; lia.
  - simpl. lia.
Defined.

(** ** What [check_rep_inv] checks *)

(** X24.  For series that all cover the same [T >= 1] days,
    [check_rep_inv] passes exactly when [params] has seven entries, the
    eight count series are non-negative, every entry of [P] lies in [0, 1],
    and [S], [E], [I_mild], [I_wild] and [P] are equal to the series
    recomputed by [compute_S], [compute_E], [compute_I] and [compute_P]; the
    assertion on [I_mild + I_wild] adds nothing to the others. *)
Theorem check_rep_inv_characterisation (D_wild : list Z) (inits : Z * Z * Z)
    (t_ctrl : Z) (T : nat) (st : State) :
  wf_state T D_wild st -> (1 <= T)%nat ->
  (check_rep_inv (st_S st) (st_E st) (st_I_mild st) (st_I_wild st) (st_B st)
     (st_C st) (st_D_mild st) D_wild (st_P st) (st_N st) inits (st_params st)
     t_ctrl (Z.of_nat T) = true
   <-> inv_holds D_wild inits t_ctrl (Z.of_nat T) st).
Proof.
  intros Hwf HT.
  apply (@rep_inv_iff D_wild inits t_ctrl (Z.of_nat T) T st Hwf HT eq_refl).
Qed.

Lemma check_rep_inv_characterisation_witness :
  inv_holds [0]%Z (1, 1, 1)%Z 1 (Z.of_nat 1) one_day.
Proof.
  apply (proj1 (@check_rep_inv_characterisation [0]%Z (1, 1, 1)%Z 1%Z 1%nat
                  one_day one_day_wf (le_n 1))).
  exact one_day_rep_inv.
Defined.
